(** * MNIST feed-forward network with explicit backpropagation

    A shallow embedding of the notebook's [NeuralNetworkMNISTBackProp]
    class (constructor, [feedforward], [backpropagate], [SGD], [evaluate])
    and of the three global functions [sigmoid], [D_sigmoid], [D_cost].

    Numbers are kept abstract behind the [Scalar] interface, so that the
    structural results hold for any arithmetic.  The results about the range
    of the sigmoid and about the overflow of its exponential are stated for
    instances of the interface: the exact real numbers, the real numbers
    that record an overflow of [exp], and exact values with the range of
    binary64. *)

From Stdlib Require Import Reals Lra ZArith String.
From stdpp Require Import base list.

(** ** Python exceptions and the two monads of the embedding *)

Inductive exn :=
| RuntimeError (msg : string)
| ValueError
| IndexError
| TypeError
| ZeroDivisionError.

Inductive result (A : Type) :=
| Ok (a : A)
| Raise (e : exn).
Arguments Ok {A} a.
Arguments Raise {A} e.

#[global] Instance result_ret : MRet result := λ A a, Ok a.
#[global] Instance result_bind : MBind result := λ A B f m,
  match m with
  | Ok a => f a
  | Raise e => Raise e
  end.

(** A loop [for x in xs: s = body(s, x)] whose body may raise. *)
Fixpoint foldM {S A : Type} (body : S → A → result S) (s : S) (xs : list A)
  : result S :=
  match xs with
  | [] => Ok s
  | x :: xs' => s' ← body s x; foldM body s' xs'
  end.

(** A comprehension [[f(a, b) for a, b in zip(l, k)]] whose element may raise. *)
Fixpoint zipM {A B C : Type} (f : A → B → result C) (l : list A) (k : list B)
  : result (list C) :=
  match l, k with
  | a :: l', b :: k' => c ← f a b; cs ← zipM f l' k'; Ok (c :: cs)
  | _, _ => Ok []
  end.

(** State that survives an exception: what a method has assigned before it
    raises stays assigned. *)
Definition M (S A : Type) : Type := S → result A * S.

#[global] Instance M_ret {S} : MRet (M S) := λ A a s, (Ok a, s).
#[global] Instance M_bind {S} : MBind (M S) := λ A B f m s,
  match m s with
  | (Ok a, s') => f a s'
  | (Raise e, s') => (Raise e, s')
  end.

Definition get {S} : M S S := λ s, (Ok s, s).
Definition put {S} (s : S) : M S unit := λ _, (Ok tt, s).
Definition lift {S A} (r : result A) : M S A := λ s, (r, s).

Fixpoint for_each {S A : Type} (xs : list A) (body : A → M S unit) : M S unit :=
  match xs with
  | [] => mret tt
  | x :: xs' => _ ← body x; for_each xs' body
  end.

(** ** Python lists: indexing with negative indices, slices, ranges *)

Section PyList.
Context {A : Type}.

(** The position a possibly negative index denotes in a list of length [n]. *)
Definition py_norm (n : nat) (i : Z) : option nat :=
  let j := (if i <? 0 then i + Z.of_nat n else i)%Z in
  if ((0 <=? j) && (j <? Z.of_nat n))%Z then Some (Z.to_nat j) else None.

(** [l[i]] *)
Definition py_index (l : list A) (i : Z) : result A :=
  match py_norm (length l) i with
  | Some j => match l !! j with Some x => Ok x | None => Raise IndexError end
  | None => Raise IndexError
  end.

(** [l[i] = v] *)
Definition py_setitem (l : list A) (i : Z) (v : A) : result (list A) :=
  match py_norm (length l) i with
  | Some j => Ok (<[j := v]> l)
  | None => Raise IndexError
  end.

(** [l[1:]], [l[:-1]] and [l[k:k+b]] for [k >= 0], [b > 0]. *)
Definition py_tail (l : list A) : list A := drop 1 l.
Definition py_init (l : list A) : list A := take (length l - 1) l.
Definition py_slice (l : list A) (k b : nat) : list A := take b (drop k l).

End PyList.

(** [range(lo, hi)] *)
Definition py_range (lo hi : Z) : list Z :=
  (λ i, lo + Z.of_nat i)%Z <$> seq 0 (Z.to_nat (hi - lo)).

(** [range(0, n, step)], the start offsets of the batches. *)
Fixpoint offsets (fuel k n step : nat) : list nat :=
  match fuel with
  | O => []
  | S fuel' => if decide (k < n) then k :: offsets fuel' (k + step) n step else []
  end.

Definition py_range_step (n : nat) (step : Z) : result (list nat) :=
  if decide (step = 0)%Z then Raise ValueError
  else if decide (step < 0)%Z then Ok []
  else Ok (offsets n 0 n (Z.to_nat step)).

(** ** Numbers

    What the program asks of numpy's float64: the constants [0.0] and [1.0],
    the four operations, negation, [exp], a comparison and the test for NaN
    (for [argmax]) and the conversion of an integer (for [len(batch)]). *)

Class Scalar (F : Type) := {
  f0 : F;
  f1 : F;
  fadd : F → F → F;
  fsub : F → F → F;
  fmul : F → F → F;
  fdiv : F → F → F;
  fneg : F → F;
  fexp : F → F;
  fltb : F → F → bool;
  fisnan : F → bool;
  fofZ : Z → F;
}.

(** ** numpy arrays of rank at most two *)

Inductive shape :=
| Sh0
| Sh1 (n : nat)
| Sh2 (r c : nat).

#[global] Instance shape_eq_dec : EqDecision shape.
Proof. solve_decision. Defined.

(** [a.shape], a tuple of integers. *)
Definition shape_tuple (s : shape) : list Z :=
  match s with
  | Sh0 => []
  | Sh1 n => [Z.of_nat n]
  | Sh2 r c => [Z.of_nat r; Z.of_nat c]
  end.

Definition size (s : shape) : nat :=
  match s with
  | Sh0 => 1
  | Sh1 n => n
  | Sh2 r c => r * c
  end.

(** The array seen as a matrix: a scalar is 1 x 1, a vector is a row. *)
Definition rows (s : shape) : nat :=
  match s with Sh2 r _ => r | _ => 1 end.
Definition cols (s : shape) : nat :=
  match s with Sh0 => 1 | Sh1 n => n | Sh2 _ c => c end.
Definition rank (s : shape) : nat :=
  match s with Sh0 => 0 | Sh1 _ => 1 | Sh2 _ _ => 2 end.
Definition shape_of_rank (k r c : nat) : shape :=
  match k with 0 => Sh0 | 1 => Sh1 c | _ => Sh2 r c end.

Section Arrays.
Context {F : Type} `{Scalar F}.

(** Row-major contents under a shape. *)
Record ndarray := mk_ndarray { shp : shape; data : list F }.

Definition valid (a : ndarray) : Prop := length (data a) = size (shp a).

(** Entry [(i, j)] of the matrix view, with numpy's broadcasting of an axis
    of length one. *)
Definition entry (a : ndarray) (i j : nat) : F :=
  let i' := if decide (rows (shp a) = 1) then 0 else i in
  let j' := if decide (cols (shp a) = 1) then 0 else j in
  default f0 (data a !! (i' * cols (shp a) + j')).

Definition tabulate (r c : nat) (f : nat → nat → F) : list F :=
  i ← seq 0 r; (f i) <$> seq 0 c.

(** [np.zeros(shape)] *)
Definition np_zeros (s : shape) : ndarray := mk_ndarray s (replicate (size s) f0).

(** An operation between a Python number and an array, entry by entry. *)
Definition np_map (f : F → F) (a : ndarray) : ndarray :=
  mk_ndarray (shp a) (f <$> data a).

(** The length two axes broadcast to, when they can. *)
Definition bdim (m n : nat) : option nat :=
  if decide (m = n) then Some m
  else if decide (m = 1) then Some n
  else if decide (n = 1) then Some m
  else None.

(** An operation between two arrays, entry by entry. *)
Definition np_zip (f : F → F → F) (a b : ndarray) : result ndarray :=
  if decide (shp a = shp b) then
    Ok (mk_ndarray (shp a) (zip_with f (data a) (data b)))
  else
    match bdim (rows (shp a)) (rows (shp b)), bdim (cols (shp a)) (cols (shp b)) with
    | Some r, Some c =>
        Ok (mk_ndarray (shape_of_rank (rank (shp a) `max` rank (shp b)) r c)
              (tabulate r c (λ i j, f (entry a i j) (entry b i j))))
    | _, _ => Raise ValueError
    end.

Definition np_add : ndarray → ndarray → result ndarray := np_zip fadd.
Definition np_sub : ndarray → ndarray → result ndarray := np_zip fsub.
Definition np_mul : ndarray → ndarray → result ndarray := np_zip fmul.

(** Sum of products, accumulated from the left. *)
Definition vdot (u v : list F) : F := foldl fadd f0 (zip_with fmul u v).

Definition row (a : ndarray) (i : nat) : list F :=
  (λ t, entry a i t) <$> seq 0 (cols (shp a)).
Definition col (a : ndarray) (j : nat) : list F :=
  (λ t, entry a t j) <$> seq 0 (rows (shp a)).

(** The matrix product of an [r x k] by a [k x c] array. *)
Definition matmul (r c : nat) (a b : ndarray) : list F :=
  tabulate r c (λ i j, vdot (row a i) (col b j)).

(** A vector on the right of [np.dot] is a column. *)
Definition as_column (b : ndarray) : ndarray :=
  match shp b with
  | Sh1 n => mk_ndarray (Sh2 n 1) (data b)
  | _ => b
  end.

(** [np.dot(a, b)] *)
Definition np_dot (a b : ndarray) : result ndarray :=
  match shp a, shp b with
  | Sh0, _ => Ok (np_map (fmul (default f0 (data a !! 0))) b)
  | _, Sh0 => Ok (np_map (λ v, fmul v (default f0 (data b !! 0))) a)
  | Sh1 n, Sh1 m =>
      if decide (n = m) then Ok (mk_ndarray Sh0 (matmul 1 1 a (as_column b)))
      else Raise ValueError
  | Sh2 r k, Sh1 m =>
      if decide (k = m) then Ok (mk_ndarray (Sh1 r) (matmul r 1 a (as_column b)))
      else Raise ValueError
  | Sh1 n, Sh2 k c =>
      if decide (n = k) then Ok (mk_ndarray (Sh1 c) (matmul 1 c a b))
      else Raise ValueError
  | Sh2 r k, Sh2 k' c =>
      if decide (k = k') then Ok (mk_ndarray (Sh2 r c) (matmul r c a b))
      else Raise ValueError
  end.

(** [a.T] *)
Definition np_T (a : ndarray) : ndarray :=
  match shp a with
  | Sh2 r c => mk_ndarray (Sh2 c r) (tabulate c r (λ j i, entry a i j))
  | _ => a
  end.

(** [np.argmax(a)]: the first position of a largest entry of the flattened
    array, a NaN counting as the largest. *)
Fixpoint argmax_from (best_i : nat) (best : F) (i : nat) (l : list F) : nat :=
  match l with
  | [] => best_i
  | v :: l' =>
      if negb (fisnan best) && (fisnan v || fltb best v)
      then argmax_from i v (S i) l'
      else argmax_from best_i best (S i) l'
  end.

Definition np_argmax (a : ndarray) : result Z :=
  match data a with
  | [] => Raise ValueError
  | v :: l => Ok (Z.of_nat (argmax_from 0 v 1 l))
  end.

(** ** The global functions of the notebook *)

(** [1.0 / (1.0 + np.exp(-z))] *)
Definition sigmoid (z : ndarray) : ndarray :=
  np_map (fdiv f1) (np_map (fadd f1) (np_map fexp (np_map fneg z))).

(** [sigmoid(z) * (1 - sigmoid(z))] *)
Definition D_sigmoid (z : ndarray) : result ndarray :=
  np_mul (sigmoid z) (np_map (fsub f1) (sigmoid z)).

(** [(output - target)] *)
Definition D_cost (output target : ndarray) : result ndarray :=
  np_sub output target.

End Arrays.
Arguments ndarray F : clear implicits.

(** ** numpy's global random state

    [np.random.randn] draws standard normal samples one after the other;
    [np.random.shuffle] rearranges a list in place.  Which samples and which
    rearrangement is left to the generator; that the rearrangement is a
    permutation of the list is numpy's contract. *)

Class RandomState (F G : Type) := {
  rs_normal : G → F * G;
  rs_shuffle : ∀ {A : Type}, list A → G → list A * G;
  rs_shuffle_perm : ∀ (A : Type) (l : list A) (g : G), (rs_shuffle l g).1 ≡ₚ l;
}.

Section Network.
Context {F G : Type} `{Scalar F} `{RandomState F G}.

Fixpoint draws (n : nat) (g : G) : list F * G :=
  match n with
  | O => ([], g)
  | S n' =>
      let '(v, g') := rs_normal g in
      let '(vs, g'') := draws n' g' in
      (v :: vs, g'')
  end.

(** [np.random.randn(i, j)] *)
Definition np_random_randn (i j : Z) : M G (ndarray F) := λ g,
  if decide (i < 0 ∨ j < 0)%Z then (Raise ValueError, g)
  else
    let '(vs, g') := draws (Z.to_nat i * Z.to_nat j) g in
    (Ok (mk_ndarray (Sh2 (Z.to_nat i) (Z.to_nat j)) vs), g').

(** The attributes of a [NeuralNetworkMNISTBackProp] object. *)
Record Network := mk_Network {
  nlayers : Z;
  layersz : list Z;
  biases : list (ndarray F);
  weights : list (ndarray F);
}.

(** [NeuralNetworkMNISTBackProp.__init__] *)
Definition init (sizes : list Z) : M G Network :=
  first ← lift (py_index sizes 0);
  if decide (first ≠ 784%Z) then
    lift (Raise (RuntimeError "The size of the input layer must be 784"))
  else
  last ← lift (py_index sizes (-1));
  if decide (last ≠ 10%Z) then
    lift (Raise (RuntimeError "The size of the output layer must be 10"))
  else
  bs ← mapM (λ i, np_random_randn i 1) (py_tail sizes);
  ws ← mapM (λ ij, np_random_randn ij.1 ij.2) (zip (py_tail sizes) (py_init sizes));
  mret {| nlayers := Z.of_nat (length sizes); layersz := sizes;
          biases := bs; weights := ws |}.

(** One turn of the loop of [feedforward]. *)
Definition feed_layer (a : ndarray F) (bw : ndarray F * ndarray F)
  : result (ndarray F) :=
  wa ← np_dot bw.2 a;
  z ← np_add wa bw.1;
  Ok (sigmoid z).

(** [NeuralNetworkMNISTBackProp.feedforward] *)
Definition feedforward (self : Network) (a : ndarray F) : result (ndarray F) :=
  n0 ← py_index (layersz self) 0;
  if decide (shape_tuple (shp a) ≠ [n0; 1%Z]) then
    Raise (RuntimeError "Input array has wrong shape - must be (784, 1)")
  else
    foldM feed_layer a (zip (biases self) (weights self)).

(** The local variables [activation], [activations], [zs] of the forward
    pass of [backpropagate]. *)
Record trace := mk_trace {
  activation : ndarray F;
  activations : list (ndarray F);
  zs : list (ndarray F);
}.

Definition forward_step (t : trace) (wb : ndarray F * ndarray F) : result trace :=
  wa ← np_dot wb.1 (activation t);
  z ← np_add wa wb.2;
  let a := sigmoid z in
  Ok {| activation := a;
        activations := activations t ++ [a];
        zs := zs t ++ [z] |}.

(** The local variables [delta], [dC_dBias], [dC_dWeight] of the backward
    pass. *)
Record grads := mk_grads {
  delta : ndarray F;
  dC_dBias : list (ndarray F);
  dC_dWeight : list (ndarray F);
}.

(** One turn of the loop [for L in range(2, self.nlayers)]. *)
Definition backward_step (self : Network) (t : trace) (g : grads) (L : Z)
  : result grads :=
  w ← py_index (weights self) (- L + 1);
  wd ← np_dot (np_T w) (delta g);
  z ← py_index (zs t) (- L);
  ds ← D_sigmoid z;
  d ← np_mul wd ds;
  db ← py_setitem (dC_dBias g) (- L) d;
  a ← py_index (activations t) (- L - 1);
  gw ← np_dot d (np_T a);
  dw ← py_setitem (dC_dWeight g) (- L) gw;
  Ok {| delta := d; dC_dBias := db; dC_dWeight := dw |}.

(** [NeuralNetworkMNISTBackProp.backpropagate] *)
Definition backpropagate (self : Network) (x y : ndarray F)
  : result (list (ndarray F) * list (ndarray F)) :=
  n0 ← py_index (layersz self) 0;
  if decide (shape_tuple (shp x) ≠ [n0; 1%Z]) then
    Raise (RuntimeError "Input array has wrong shape")
  else
  nL ← py_index (layersz self) (-1);
  if decide (shape_tuple (shp y) ≠ [nL; 1%Z]) then
    Raise (RuntimeError "Output array has wrong shape")
  else
  let dC_dBias0 := (λ b, np_zeros (shp b)) <$> biases self in
  let dC_dWeight0 := (λ w, np_zeros (shp w)) <$> weights self in
  t ← foldM forward_step
        {| activation := x; activations := [x]; zs := [] |}
        (zip (weights self) (biases self));
  a_last ← py_index (activations t) (-1);
  dc ← D_cost a_last y;
  z_last ← py_index (zs t) (-1);
  ds ← D_sigmoid z_last;
  d ← np_mul dc ds;
  db ← py_setitem dC_dBias0 (-1) d;
  a_prev ← py_index (activations t) (-2);
  gw ← np_dot d (np_T a_prev);
  dw ← py_setitem dC_dWeight0 (-1) gw;
  g ← foldM (backward_step self t)
        {| delta := d; dC_dBias := db; dC_dWeight := dw |}
        (py_range 2 (nlayers self));
  Ok (dC_dBias g, dC_dWeight g).

(** [NeuralNetworkMNISTBackProp.evaluate] *)
Definition evaluate (self : Network) (test_data : list (ndarray F * Z)) : result Z :=
  test_results ← mapM (λ xy, out ← feedforward self xy.1;
                             p ← np_argmax out;
                             Ok (p, xy.2)) test_data;
  Ok (foldl Z.add 0%Z
        ((λ xy : Z * Z, if decide (xy.1 = xy.2) then 1%Z else 0%Z) <$> test_results)).

(** A call of a method that assigns no attribute of the object: the object
    after the call is the object before it. *)
Definition call {A : Type} (method : Network → result A) : M Network A :=
  λ self, (method self, self).

End Network.
Arguments Network F : clear implicits.
Arguments trace F : clear implicits.
Arguments grads F : clear implicits.

(** ** Training *)

Section Training.
Context {F G : Type} `{Scalar F} `{RandomState F G}.

(** A training example is an image and its one-hot target; a test example
    is an image and its digit. *)
Definition example : Type := ndarray F * ndarray F.
Definition labelled : Type := ndarray F * Z.

(** A line on the standard output: the epoch, the number of right answers
    and the size of the test set (the elapsed time is left out). *)
Inductive line :=
| Report (epoch correct total : Z).

(** What [SGD] reads and writes: the object, numpy's generator, the list
    [training_data] of the caller (shuffled in place) and the output. *)
Record sgd_state := mk_sgd_state {
  self : Network F;
  rng : G;
  training_data : list example;
  stdout : list line;
}.

Definition set_weights (ws : list (ndarray F)) (s : sgd_state) : sgd_state :=
  {| self := {| nlayers := nlayers (self s); layersz := layersz (self s);
                biases := biases (self s); weights := ws |};
     rng := rng s; training_data := training_data s; stdout := stdout s |}.

Definition set_biases (bs : list (ndarray F)) (s : sgd_state) : sgd_state :=
  {| self := {| nlayers := nlayers (self s); layersz := layersz (self s);
                biases := bs; weights := weights (self s) |};
     rng := rng s; training_data := training_data s; stdout := stdout s |}.

Definition with_self (s : sgd_state) (net : Network F) : sgd_state :=
  {| self := net; rng := rng s; training_data := training_data s;
     stdout := stdout s |}.

Definition print (l : line) : M sgd_state unit := λ s,
  (Ok tt, {| self := self s; rng := rng s; training_data := training_data s;
             stdout := stdout s ++ [l] |}).

(** [np.random.shuffle(training_data)] *)
Definition shuffle_training_data : M sgd_state unit := λ s,
  let '(td, g) := rs_shuffle (training_data s) (rng s) in
  (Ok tt, {| self := self s; rng := g; training_data := td; stdout := stdout s |}).

(** [[training_data[k:k+batchsz] for k in range(0, len(training_data), batchsz)]] *)
Definition make_batches (td : list example) (batchsz : Z) : result (list (list example)) :=
  ks ← py_range_step (length td) batchsz;
  Ok ((λ k, py_slice td k (Z.to_nat batchsz)) <$> (ks : list nat)).

(** The slices of [training_data] at the offsets from [k] on. *)
Definition batches_from (td : list example) (b fuel k : nat) : list (list example) :=
  (λ k, py_slice td k b) <$> offsets fuel k (length td) b.

(** The sums [dC_dBias_sum], [dC_dWeight_sum] after one more example. *)
Definition accumulate (net : Network F)
    (sums : list (ndarray F) * list (ndarray F)) (xy : example)
  : result (list (ndarray F) * list (ndarray F)) :=
  g ← backpropagate net xy.1 xy.2;
  bsum ← zipM np_add sums.1 g.1;
  wsum ← zipM np_add sums.2 g.2;
  Ok (bsum, wsum).

(** [float(eta)/len(batch)], with [eta] already a float. *)
Definition scale_eta (eta : F) (n : nat) : result F :=
  if decide (n = 0) then Raise ZeroDivisionError
  else Ok (fdiv eta (fofZ (Z.of_nat n))).

(** [p - eta_scaled * deriv] *)
Definition descend (eta_scaled : F) (p deriv : ndarray F) : result (ndarray F) :=
  np_sub p (np_map (fmul eta_scaled) deriv).

(** The body of [for batch in batches]. *)
Definition update_batch (eta : F) (batch : list example) : M sgd_state unit :=
  s ← get;
  let dC_dBias_sum := (λ b, np_zeros (shp b)) <$> biases (self s) in
  let dC_dWeight_sum := (λ w, np_zeros (shp w)) <$> weights (self s) in
  sums ← lift (foldM (accumulate (self s)) (dC_dBias_sum, dC_dWeight_sum) batch);
  eta_scaled ← lift (scale_eta eta (length batch));
  ws ← lift (zipM (descend eta_scaled) (weights (self s)) sums.2);
  _ ← put (set_weights ws s);
  s' ← get;
  bs ← lift (zipM (descend eta_scaled) (biases (self s')) sums.1);
  put (set_biases bs s').

(** The end of an epoch: the report when [test_data] is given and not
    empty; otherwise the format string asks for two values and is given
    one, which raises [TypeError]. *)
Definition end_of_epoch (j : Z) (test_data : option (list labelled))
  : M sgd_state unit :=
  match test_data with
  | Some (xy :: rest) =>
      s ← get;
      n ← lift (evaluate (self s) (xy :: rest));
      print (Report (j + 1) n (Z.of_nat (length (xy :: rest))))
  | _ => lift (Raise TypeError)
  end.

(** The body of [for j in range(epochs)]. *)
Definition epoch (batchsz : Z) (eta : F) (test_data : option (list labelled))
    (j : Z) : M sgd_state unit :=
  _ ← shuffle_training_data;
  s ← get;
  batches ← lift (make_batches (training_data s) batchsz);
  _ ← for_each batches (update_batch eta);
  end_of_epoch j test_data.

(** [NeuralNetworkMNISTBackProp.SGD] *)
Definition SGD (epochs batchsz : Z) (eta : F) (test_data : option (list labelled))
  : M sgd_state unit :=
  for_each (py_range 0 epochs) (epoch batchsz eta test_data).

End Training.
Arguments example F : clear implicits.
Arguments labelled F : clear implicits.
Arguments sgd_state F G : clear implicits.

(** ** The algorithms as the specification words them *)

Section Specification.
Context {F : Type} `{Scalar F}.

(** Section 4.3: for each layer transition in order, [z = W.a + b], then
    [a = sigmoid(z)]; the final [a] is the result. *)
Fixpoint spec_feedforward (bs ws : list (ndarray F)) (a : ndarray F)
  : result (ndarray F) :=
  match bs, ws with
  | b :: bs', w :: ws' =>
      wa ← np_dot w a;
      z ← np_add wa b;
      spec_feedforward bs' ws' (sigmoid z)
  | _, _ => Ok a
  end.

(** Section 4.4, step 1: the forward pass, keeping every pre-activation and
    every activation, the input being the activation of layer 0. *)
Fixpoint spec_forward (ws bs : list (ndarray F)) (a : ndarray F)
  : result (list (ndarray F) * list (ndarray F)) :=
  match ws, bs with
  | w :: ws', b :: bs' =>
      wa ← np_dot w a;
      z ← np_add wa b;
      rest ← spec_forward ws' bs' (sigmoid z);
      Ok (z :: rest.1, a :: rest.2)
  | _, _ => Ok ([], [a])
  end.

(** Step 2: the error of the output layer. *)
Definition spec_output_delta (a_last target z_last : ndarray F)
  : result (ndarray F) :=
  dc ← D_cost a_last target;
  ds ← D_sigmoid z_last;
  np_mul dc ds.

(** Step 4: the error of an earlier layer from the error of the next one. *)
Definition spec_hidden_delta (w_next delta_next z : ndarray F)
  : result (ndarray F) :=
  wd ← np_dot (np_T w_next) delta_next;
  ds ← D_sigmoid z;
  np_mul wd ds.

(** The errors of all layers, input to output; [ws_next] holds the weights
    of the transitions after the first one. *)
Fixpoint spec_deltas (ws_next zs : list (ndarray F)) (a_last target : ndarray F)
  {struct zs} : result (list (ndarray F)) :=
  match zs with
  | [] => Ok []
  | z :: zs' =>
      match zs' with
      | [] => d ← spec_output_delta a_last target z; Ok [d]
      | _ :: _ =>
          match ws_next with
          | [] => Raise IndexError
          | w_next :: ws' =>
              ds ← spec_deltas ws' zs' a_last target;
              d_next ← py_index ds 0;
              d ← spec_hidden_delta w_next d_next z;
              Ok (d :: ds)
          end
      end
  end.

(** Steps 3 to 5: the bias gradient of a transition is its error, the
    weight gradient is the error times the transposed activation that
    enters the transition. *)
Definition spec_backprop (ws bs : list (ndarray F)) (x target : ndarray F)
  : result (list (ndarray F) * list (ndarray F)) :=
  fwd ← spec_forward ws bs x;
  a_last ← py_index fwd.2 (-1);
  ds ← spec_deltas (py_tail ws) fwd.1 a_last target;
  gws ← zipM (λ d a_prev, np_dot d (np_T a_prev)) ds fwd.2;
  Ok (ds, gws).

(** Section 4.5: the sum of the gradients of the examples of a batch, the
    gradients being those of section 4.4. *)
Definition spec_add_gradients (acc g : list (ndarray F) * list (ndarray F))
  : result (list (ndarray F) * list (ndarray F)) :=
  bsum ← zipM np_add acc.1 g.1;
  wsum ← zipM np_add acc.2 g.2;
  Ok (bsum, wsum).

Definition spec_gradient_sum (net : Network F) (batch : list (ndarray F * ndarray F))
  : result (list (ndarray F) * list (ndarray F)) :=
  foldM (λ acc xy, g ← spec_backprop (weights net) (biases net) xy.1 xy.2;
                   spec_add_gradients acc g)
    ((λ b, np_zeros (shp b)) <$> biases net, (λ w, np_zeros (shp w)) <$> weights net)
    batch.

(** A parameter after the update: every entry less [rate / count] times
    the entry of the accumulated gradient. *)
Definition spec_updated (rate : F) (count : nat) (p g : ndarray F) : ndarray F :=
  mk_ndarray (shp p)
    (zip_with (λ pv gv, fsub pv (fmul (fdiv rate (fofZ (Z.of_nat count))) gv))
       (data p) (data g)).

(** The network after the update of one batch. *)
Definition spec_batch_step (rate : F) (net : Network F)
    (batch : list (ndarray F * ndarray F)) : result (Network F) :=
  sums ← spec_gradient_sum net batch;
  Ok {| nlayers := nlayers net;
        layersz := layersz net;
        biases := zip_with (spec_updated rate (length batch)) (biases net) sums.1;
        weights := zip_with (spec_updated rate (length batch)) (weights net) sums.2 |}.

(** Section 4.6: the predicted digit is the index of the largest component
    of the output; an example counts when the prediction is its label. *)
Definition predicted (net : Network F) (x : ndarray F) : result Z :=
  out ← feedforward net x; np_argmax out.

Definition is_correct (net : Network F) (xy : ndarray F * Z) : bool :=
  match predicted net xy.1 with
  | Ok p => bool_decide (p = xy.2)
  | Raise _ => false
  end.

(** The configuration error and the shape error of section 7 are both a
    [RuntimeError] in the notebook. *)
Definition raises_RuntimeError {A : Type} (r : result A) : Prop :=
  ∃ msg, r = Raise (RuntimeError msg).

(** ** Well-formed networks *)

(** The parameters of the transitions into layers of sizes [sizes], the
    first one leaving a layer of size [n]. *)
Fixpoint layered (n : nat) (sizes : list nat) (bs ws : list (ndarray F)) : Prop :=
  match sizes, bs, ws with
  | [], [], [] => True
  | m :: sizes', b :: bs', w :: ws' =>
      shp b = Sh2 m 1 ∧ shp w = Sh2 m n ∧ layered m sizes' bs' ws'
  | _, _, _ => False
  end.

(** What the constructor establishes, the two constants 784 and 10 apart. *)
Record wf_net (net : Network F) (n : nat) (sizes : list nat) : Prop := {
  wf_nlayers : nlayers net = Z.of_nat (length (layersz net));
  wf_layersz : layersz net = Z.of_nat <$> (n :: sizes);
  wf_hidden : sizes ≠ [];
  wf_layered : layered n sizes (biases net) (weights net);
}.

Definition valid_net (net : Network F) : Prop :=
  Forall valid (biases net) ∧ Forall valid (weights net).

(** A column vector of [n] entries. *)
Definition column (n : nat) (a : ndarray F) : Prop :=
  shp a = Sh2 n 1.

(** Columns of the sizes of the successive layers. *)
Definition columns (l : list (ndarray F)) (sizes : list nat) : Prop :=
  Forall2 (λ a m, column m a) l sizes.

(** Lists of arrays that agree in shape, position by position. *)
Definition same_shapes (l k : list (ndarray F)) : Prop :=
  Forall2 (λ a b, shp a = shp b) l k.

(** The size of the output layer. *)
Definition last_size (n : nat) (sizes : list nat) : nat := default n (last sizes).

End Specification.

(** ** Exact real arithmetic *)

#[global] Instance Rlt_decision (a b : R) : Decision (a < b)%R := Rlt_dec a b.

#[global] Instance R_scalar : Scalar R := {|
  f0 := 0%R;
  f1 := 1%R;
  fadd := Rplus;
  fsub := Rminus;
  fmul := Rmult;
  fdiv := Rdiv;
  fneg := Ropp;
  fexp := exp;
  fltb := λ a b, bool_decide (a < b)%R;
  fisnan := λ _, false;
  fofZ := IZR;
|}.

(** A generator to run the model on: the samples count upwards, a shuffle
    reverses the list. *)
#[global] Instance counting_rng : RandomState R nat := {|
  rs_normal := λ g, (INR g, S g);
  rs_shuffle := λ A l g, (reverse l, S g);
  rs_shuffle_perm := λ A l g, reverse_Permutation l;
|}.

(** ** Real arithmetic that records an overflow of [exp]

    A number together with the statement that some [exp] computed on the
    way to it left the range of binary64: its exact value reached
    [2^1024 - 2^970], from where rounding to nearest gives infinity. *)

Definition binary64_overflow_threshold : R := IZR (2 ^ 1024 - 2 ^ 970).

(** A numerator over [2^60] squared [n] times, rounded down or up after
    each squaring. *)
Fixpoint squared_lower (n : nat) (a : Z) : Z :=
  match n with
  | O => a
  | S n' => squared_lower n' (a * a / 2 ^ 60)
  end.

Fixpoint squared_upper (n : nat) (a : Z) : Z :=
  match n with
  | O => a
  | S n' => squared_upper n' (a * a / 2 ^ 60 + 1)
  end.

Record traced := mk_traced { value : R; exp_overflowed : Prop }.

Definition clean (r : R) : traced := mk_traced r False.

Definition traced1 (f : R → R) (x : traced) : traced :=
  mk_traced (f (value x)) (exp_overflowed x).
Definition traced2 (f : R → R → R) (x y : traced) : traced :=
  mk_traced (f (value x) (value y)) (exp_overflowed x ∨ exp_overflowed y).

#[global] Instance traced_scalar : Scalar traced := {|
  f0 := clean 0;
  f1 := clean 1;
  fadd := traced2 Rplus;
  fsub := traced2 Rminus;
  fmul := traced2 Rmult;
  fdiv := traced2 Rdiv;
  fneg := traced1 Ropp;
  fexp := λ x, mk_traced (exp (value x))
                 (exp_overflowed x ∨
                  (binary64_overflow_threshold <= exp (value x))%R);
  fltb := λ a b, bool_decide (value a < value b)%R;
  fisnan := λ _, false;
  fofZ := λ z, clean (IZR z);
|}.

(** ** The network of the notebook, to run the model on *)

(** Layer sizes [[784, 30, 10]], every parameter zero. *)
Definition mnist_net : Network R := {|
  nlayers := 3;
  layersz := [784; 30; 10]%Z;
  biases := [np_zeros (Sh2 30 1); np_zeros (Sh2 10 1)];
  weights := [np_zeros (Sh2 30 784); np_zeros (Sh2 10 30)];
|}.

Definition blank_image : ndarray R := np_zeros (Sh2 784 1).

(** [asvector(j)]: the one-hot column of the digit [j]. *)
Definition asvector (j : nat) : ndarray R :=
  mk_ndarray (Sh2 10 1) (<[j := 1%R]> (replicate 10 0%R)).

Definition three_examples : list (example R) :=
  [(blank_image, asvector 3); (blank_image, asvector 7); (blank_image, asvector 1)].

Definition start_state : sgd_state R nat := {|
  self := mnist_net;
  rng := 0;
  training_data := three_examples;
  stdout := [];
|}.

(** ** Symbolic numbers

    The free terms over the operations of [Scalar]: running the model on
    them shows which operations a method performs, and in which order. *)

Inductive term :=
| Var (name : string)
| Num (z : Z)
| Add (s t : term)
| Sub (s t : term)
| Mul (s t : term)
| Div (s t : term)
| Neg (t : term)
| Exp (t : term).

#[global] Instance term_scalar : Scalar term := {|
  f0 := Num 0;
  f1 := Num 1;
  fadd := Add;
  fsub := Sub;
  fmul := Mul;
  fdiv := Div;
  fneg := Neg;
  fexp := Exp;
  fltb := λ _ _, false;
  fisnan := λ _, false;
  fofZ := Num;
|}.

(** The sigmoid and its derivative as terms. *)
Definition sigma (t : term) : term := Div (Num 1) (Add (Num 1) (Exp (Neg t))).
Definition sigma' (t : term) : term := Mul (sigma t) (Sub (Num 1) (sigma t)).

(** One neuron per layer, three layers. *)
Definition chain_net : Network term := {|
  nlayers := 3;
  layersz := [1; 1; 1]%Z;
  biases := [mk_ndarray (Sh2 1 1) [Var "b1"]; mk_ndarray (Sh2 1 1) [Var "b2"]];
  weights := [mk_ndarray (Sh2 1 1) [Var "w1"]; mk_ndarray (Sh2 1 1) [Var "w2"]];
|}.

Definition chain_z1 : term := Add (Add (Num 0) (Mul (Var "w1") (Var "x"))) (Var "b1").
Definition chain_z2 : term :=
  Add (Add (Num 0) (Mul (Var "w2") (sigma chain_z1))) (Var "b2").
Definition chain_delta2 : term :=
  Mul (Sub (sigma chain_z2) (Var "y")) (sigma' chain_z2).
Definition chain_delta1 : term :=
  Mul (Add (Num 0) (Mul (Var "w2") chain_delta2)) (sigma' chain_z1).

(** ** Arithmetic with the range of binary64

    Exact values as long as they stay in the range of binary64, and the
    infinities and the NaN of IEEE 754 beyond it: a result whose magnitude
    reaches [2^1024 - 2^970] becomes an infinity.  The rounding of the
    mantissa, the underflow and the sign of zero are left out. *)

Inductive xreal :=
| Fin (r : R)
| PInf
| NInf
| NaN.

Definition round (r : R) : xreal :=
  if Rle_dec binary64_overflow_threshold r then PInf
  else if Rle_dec r (- binary64_overflow_threshold) then NInf
  else Fin r.

Definition xneg (a : xreal) : xreal :=
  match a with
  | Fin r => Fin (- r)
  | PInf => NInf
  | NInf => PInf
  | NaN => NaN
  end.

Definition xadd (a b : xreal) : xreal :=
  match a, b with
  | Fin r, Fin s => round (r + s)
  | NaN, _ | _, NaN => NaN
  | PInf, NInf | NInf, PInf => NaN
  | PInf, _ | _, PInf => PInf
  | NInf, _ | _, NInf => NInf
  end.

(** The sign of a product or quotient with an infinity. *)
Definition signed_inf (positive : bool) : xreal := if positive then PInf else NInf.

Definition xmul_inf (positive : bool) (b : xreal) : xreal :=
  match b with
  | Fin s => if Rlt_dec 0 s then signed_inf positive
             else if Rlt_dec s 0 then signed_inf (negb positive)
             else NaN
  | PInf => signed_inf positive
  | NInf => signed_inf (negb positive)
  | NaN => NaN
  end.

Definition xmul (a b : xreal) : xreal :=
  match a, b with
  | Fin r, Fin s => round (r * s)
  | PInf, _ => xmul_inf true b
  | NInf, _ => xmul_inf false b
  | _, PInf => xmul_inf true a
  | _, NInf => xmul_inf false a
  | NaN, _ | _, NaN => NaN
  end.

Definition xdiv (a b : xreal) : xreal :=
  match a, b with
  | NaN, _ | _, NaN => NaN
  | Fin r, Fin s =>
      if Req_dec_T s 0 then
        if Rlt_dec 0 r then PInf else if Rlt_dec r 0 then NInf else NaN
      else round (r / s)
  | Fin _, (PInf | NInf) => Fin 0
  | (PInf | NInf), (PInf | NInf) => NaN
  | PInf, Fin s => if Rlt_dec s 0 then NInf else PInf
  | NInf, Fin s => if Rlt_dec s 0 then PInf else NInf
  end.

Definition xexp (a : xreal) : xreal :=
  match a with
  | Fin r => round (exp r)
  | PInf => PInf
  | NInf => Fin 0
  | NaN => NaN
  end.

Definition xltb (a b : xreal) : bool :=
  match a, b with
  | Fin r, Fin s => bool_decide (r < s)%R
  | NInf, (Fin _ | PInf) => true
  | Fin _, PInf => true
  | _, _ => false
  end.

#[global] Instance xreal_scalar : Scalar xreal := {|
  f0 := Fin 0;
  f1 := Fin 1;
  fadd := xadd;
  fsub := λ a b, xadd a (xneg b);
  fmul := xmul;
  fdiv := xdiv;
  fneg := xneg;
  fexp := xexp;
  fltb := xltb;
  fisnan := λ a, match a with NaN => true | _ => false end;
  fofZ := λ z, round (IZR z);
|}.

(** Strictly between 0 and 1. *)
Definition in_open_unit (a : xreal) : Prop :=
  match a with
  | Fin r => (0 < r < 1)%R
  | _ => False
  end.

(** Between 0 and 1, both included, or not a number. *)
Definition in_closed_unit_or_nan (a : xreal) : Prop :=
  match a with
  | Fin r => (0 <= r <= 1)%R
  | NaN => True
  | _ => False
  end.

(** An array with the same entry everywhere. *)
Definition np_full {F : Type} (s : shape) (v : F) : ndarray F :=
  mk_ndarray s (replicate (size s) v).

(** Layer sizes [[784, 10]], every weight -1 and every bias 0, and the
    image whose pixels are all 1. *)
Definition saturated_net : Network xreal := {|
  nlayers := 2;
  layersz := [784; 10]%Z;
  biases := [np_full (Sh2 10 1) (Fin 0)];
  weights := [np_full (Sh2 10 784) (Fin (-1))];
|}.

Definition white_image : ndarray xreal := np_full (Sh2 784 1) (Fin 1).

(** ** The loader of the MNIST data

    [load_data_raw] unpickles three sets from the file, each a pair of a
    two-dimensional array of images, one image per row, and a
    one-dimensional array of digits.  The file is not modelled: [load_data]
    is given the three sets.  In a module, since [asvector] above is the
    one-hot column over the real numbers that the runs of the model use. *)

Module Data.
Section Loader.
Context {F : Type} `{Scalar F}.

(** [np.reshape(x, s)] *)
Definition np_reshape (x : ndarray F) (s : shape) : result (ndarray F) :=
  if decide (size (shp x) = size s) then Ok (mk_ndarray s (data x))
  else Raise ValueError.

(** [e[j] = v]: the assignment to entry [j] of a vector, to row [j] of a
    matrix. *)
Definition np_setitem (e : ndarray F) (j : Z) (v : F) : result (ndarray F) :=
  match shp e with
  | Sh0 => Raise IndexError
  | Sh1 n =>
      match py_norm n j with
      | Some i => Ok (mk_ndarray (Sh1 n) (<[i := v]> (data e)))
      | None => Raise IndexError
      end
  | Sh2 r c =>
      match py_norm r j with
      | Some i => Ok (mk_ndarray (Sh2 r c) (list_inserts (i * c) (replicate c v) (data e)))
      | None => Raise IndexError
      end
  end.

(** [for x in a]: the entries of a vector, the rows of a matrix. *)
Definition np_iter (a : ndarray F) : result (list (ndarray F)) :=
  match shp a with
  | Sh0 => Raise TypeError
  | Sh1 n => Ok ((λ i, mk_ndarray Sh0 [default f0 (data a !! i)]) <$> seq 0 n)
  | Sh2 r c => Ok ((λ i, mk_ndarray (Sh1 c) (take c (drop (i * c) (data a)))) <$> seq 0 r)
  end.

(** [asvector] *)
Definition asvector (j : Z) : result (ndarray F) :=
  let e := np_zeros (Sh2 10 1) in
  np_setitem e j f1.

(** One of the three sets of the file. *)
Record raw_set := mk_raw_set { images : ndarray F; digits : list Z }.

(** [[np.reshape(x, (784, 1)) for x in d[0]]] *)
Definition inputs_of (d : raw_set) : result (list (ndarray F)) :=
  xs ← np_iter (images d);
  mapM (λ x, np_reshape x (Sh2 784 1)) xs.

(** [load_data], the three [zip] objects it returns being the lists that
    [list(d)] makes of them. *)
Definition load_data (raw : raw_set * raw_set * raw_set)
  : result (list (example F) * list (labelled F) * list (labelled F)) :=
  let '(tr_d, va_d, te_d) := raw in
  training_inputs ← inputs_of tr_d;
  training_results ← mapM asvector (digits tr_d);
  let training_data := zip training_inputs training_results in
  validation_inputs ← inputs_of va_d;
  let validation_data := zip validation_inputs (digits va_d) in
  test_inputs ← inputs_of te_d;
  let test_data := zip test_inputs (digits te_d) in
  Ok (training_data, validation_data, test_data).

End Loader.
Arguments raw_set F : clear implicits.
End Data.

(** The image that row [i] of a set holds, as a column. *)
Definition image_of {F : Type} (d : Data.raw_set F) (i : nat) : ndarray F :=
  mk_ndarray (Sh2 784 1) (take 784 (drop (i * 784) (data (Data.images d)))).

(** What [SGD] needs of an example of the training set, and [evaluate] of
    an example of the test set, for a network whose layers have the sizes
    [n :: sizes]. *)
Definition trainable {F : Type} (n : nat) (sizes : list nat) (xy : example F) : Prop :=
  column n xy.1 ∧ column (last_size n sizes) xy.2 ∧ valid xy.2.

Definition testable {F : Type} (n : nat) (xy : labelled F) : Prop :=
  column n xy.1 ∧ valid xy.1.

(** The number of entries that the shapes of a list of arrays ask for. *)
Definition parameter_count {F : Type} (arrays : list (ndarray F)) : nat :=
  sum_list_with (λ a, size (shp a)) arrays.

(** ** The cells of the notebook that use the class *)

Section Notebook.
Context {F G : Type} `{Scalar F} `{RandomState F G}.

Definition layer_sizes : list Z := [784; 30; 10]%Z.
Definition EPOCHS : Z := 10.
Definition BATCHSZ : Z := 10.
Definition ETA : Z := 2.

(** The cell that evaluates the untrained network: the three values of its
    format string, the number of right answers, [len(test_data)] and
    [100*float(nright)/len(test_data)]. *)
Definition accuracy_cell (net : Network F) (test_data : list (labelled F))
  : result (Z * Z * F) :=
  nright ← evaluate net test_data;
  if decide (length test_data = 0) then Raise ZeroDivisionError
  else Ok (nright, Z.of_nat (length test_data),
           fdiv (fmul (fofZ 100) (fofZ nright)) (fofZ (Z.of_nat (length test_data)))).

(** The cells in order: load the data, construct the network from the
    seeded generator, evaluate it, train it.  The result is what the
    evaluation cell prints and the state after [SGD]. *)
Definition notebook (raw : Data.raw_set F * Data.raw_set F * Data.raw_set F) (g : G)
  : result (Z * Z * F * sgd_state F G) :=
  loaded ← Data.load_data raw;
  let '(training_data, validation_data, test_data) := loaded in
  match init layer_sizes g with
  | (Raise e, _) => Raise e
  | (Ok net, g') =>
      report ← accuracy_cell net test_data;
      match SGD EPOCHS BATCHSZ (fofZ ETA) (Some test_data)
              {| self := net; rng := g'; training_data := training_data;
                 stdout := [] |} with
      | (Raise e, _) => Raise e
      | (Ok _, s) => Ok (report, s)
      end
  end.

End Notebook.

(** What no call of [SGD] changes, whether it returns or raises: the layer
    sizes of the object, the training examples up to their order, and what
    has been printed before. *)
Definition sgd_frame {F G : Type} (s s' : sgd_state F G) : Prop :=
  layersz (self s') = layersz (self s) ∧
  nlayers (self s') = nlayers (self s) ∧
  training_data s' ≡ₚ training_data s ∧
  stdout s `prefix_of` stdout s'.

(** What a report says apart from the number of its epoch. *)
Definition report_counts (l : line) : Z * Z :=
  match l with Report _ correct total => (correct, total) end.

(** Two states of a run that differ at most in the epoch numbers of what
    has been printed. *)
Definition same_run {F G : Type} (s s' : sgd_state F G) : Prop :=
  self s = self s' ∧ rng s = rng s' ∧ training_data s = training_data s' ∧
  report_counts <$> stdout s = report_counts <$> stdout s'.

(** ** Small data sets, to run the loader and the training on *)

(** A set of one blank image, labelled 3, as the file stores it: the
    images as the rows of a matrix. *)
Definition one_image_set : Data.raw_set R :=
  Data.mk_raw_set (np_zeros (Sh2 1 784)) [3%Z].

(** The same with a pixel missing. *)
Definition narrow_set : Data.raw_set R :=
  Data.mk_raw_set (np_zeros (Sh2 1 783)) [3%Z].

Definition two_tests : list (labelled R) := [(blank_image, 3%Z); (blank_image, 0%Z)].

(** ** The cost that [backpropagate] differentiates

    Over the real numbers.  [D_cost] is the derivative of the quadratic
    cost with respect to the output when that cost is half the squared norm
    of the difference between the output and the target. *)

(** The value at a number of a function of arrays that acts entry by
    entry. *)
Definition scalar_fn (f : ndarray R → ndarray R) (t : R) : R :=
  default 0%R (data (f (mk_ndarray Sh0 [t])) !! 0).

Definition quadratic_cost (output target : ndarray R) : result R :=
  d ← np_sub output target;
  Ok (vdot (data d) (data d) / 2)%R.

(** The cost of an example for a network; 0 stands for an exception. *)
Definition cost (net : Network R) (x y : ndarray R) : R :=
  match (out ← feedforward net x; quadratic_cost out y) with
  | Ok c => c
  | Raise _ => 0%R
  end.

(** An array with entry [k] of its row-major contents replaced, and a
    network with one entry of bias vector [l], of weight matrix [l],
    replaced. *)
Definition with_entry (a : ndarray R) (k : nat) (t : R) : ndarray R :=
  mk_ndarray (shp a) (<[k := t]> (data a)).

Definition with_bias (net : Network R) (l k : nat) (t : R) : Network R :=
  {| nlayers := nlayers net; layersz := layersz net;
     biases := alter (λ b, with_entry b k t) l (biases net);
     weights := weights net |}.

Definition with_weight (net : Network R) (l k : nat) (t : R) : Network R :=
  {| nlayers := nlayers net; layersz := layersz net;
     biases := biases net;
     weights := alter (λ w, with_entry w k t) l (weights net) |}.

(** *** The same cost on vectors as functions of the index

    A layer is the size of its output, its weights in row-major order and
    its biases. *)

Definition comp (l : list R) (k : nat) : R := default 0%R (l !! k).

Fixpoint rsum (n : nat) (f : nat → R) : R :=
  match n with
  | O => 0%R
  | S m => (rsum m f + f m)%R
  end.

Definition sig (t : R) : R := (1 / (1 + exp (- t)))%R.
Definition dsig (t : R) : R := (sig t * (1 - sig t))%R.

Definition layer : Type := nat * list R * list R.

Definition affine (n : nat) (w b : list R) (a : nat → R) (i : nat) : R :=
  (rsum n (λ t, comp w (i * n + t) * a t) + comp b i)%R.

Fixpoint forward_cost (n : nat) (layers : list layer) (y a : nat → R) : R :=
  match layers with
  | [] => (rsum n (λ k, (a k - y k) * (a k - y k)) / 2)%R
  | (m, w, b) :: rest => forward_cost m rest y (λ i, sig (affine n w b a i))
  end.

(** The derivative of the cost with respect to the activation that enters
    the layers. *)
Fixpoint grad_a (n : nat) (layers : list layer) (y a : nat → R) : nat → R :=
  match layers with
  | [] => λ k, (a k - y k)%R
  | (m, w, b) :: rest =>
      let z := affine n w b a in
      λ t, rsum m (λ i, comp w (i * n + t)
                        * (grad_a m rest y (λ i, sig (z i)) i * dsig (z i)))%R
  end.

(** The error of the first of the layers. *)
Definition delta_of (n : nat) (l : layer) (rest : list layer) (y a : nat → R)
  : nat → R :=
  let z := affine n l.1.2 l.2 a in
  λ i, (grad_a l.1.1 rest y (λ i, sig (z i)) i * dsig (z i))%R.

(** The size and the value of the activation that leaves the layers. *)
Fixpoint out_dim (n : nat) (layers : list layer) : nat :=
  match layers with
  | [] => n
  | (m, _, _) :: rest => out_dim m rest
  end.

Fixpoint act_after (n : nat) (layers : list layer) (a : nat → R) : nat → R :=
  match layers with
  | [] => a
  | (m, w, b) :: rest => act_after m rest (λ i, sig (affine n w b a i))
  end.

(** A function of [n] numbers has the gradient [g] at [a]: along every
    differentiable curve through [a] its derivative is the product of [g]
    with the velocity of the curve. *)
Definition has_grad (n : nat) (C : (nat → R) → R) (a g : nat → R) : Prop :=
  ∀ (u : R → nat → R) (u' : nat → R) (t0 : R),
    (∀ k, k < n → u t0 k = a k) →
    (∀ k, k < n → derivable_pt_lim (λ t, u t k) t0 (u' k)) →
    derivable_pt_lim (λ t, C (u t)) t0 (rsum n (λ k, g k * u' k)%R).

(** The layers of a network. *)
Definition layers_of (bs ws : list (ndarray R)) : list layer :=
  zip_with (λ b w, (rows (shp w), data w, data b)) bs ws.

(** The mean cost of the examples of a batch, summed in the order of the
    batch. *)
Definition total_cost (net : Network R) (batch : list (example R)) : R :=
  foldl (λ acc xy, acc + cost net xy.1 xy.2)%R 0%R batch.

Definition batch_cost (net : Network R) (batch : list (example R)) : R :=
  (total_cost net batch / IZR (Z.of_nat (length batch)))%R.

(** The arrays [acc] hold, entry by entry, the derivatives of [C] with
    respect to the parameters of [net]. *)
Definition grads_of (net : Network R) (C : Network R → R)
    (acc : list (ndarray R) * list (ndarray R)) : Prop :=
  (∀ l b k v, biases net !! l = Some b → data b !! k = Some v →
     ∃ g dv, acc.1 !! l = Some g ∧ data g !! k = Some dv ∧
             derivable_pt_lim (λ t, C (with_bias net l k t)) v dv) ∧
  (∀ l w k v, weights net !! l = Some w → data w !! k = Some v →
     ∃ g dv, acc.2 !! l = Some g ∧ data g !! k = Some dv ∧
             derivable_pt_lim (λ t, C (with_weight net l k t)) v dv).

(** What the gradient asks of an example. *)
Definition differentiable_at {F : Type} (n : nat) (sizes : list nat) (xy : example F)
  : Prop :=
  column n xy.1 ∧ valid xy.1 ∧ column (last_size n sizes) xy.2 ∧ valid xy.2.

(** ** [np.random.shuffle] on a Python list

    On a list, numpy's global generator shuffles in place with the loop
    [[
      for i in reversed(range(1, n)):
          j = random_interval(state, i)
          x[i], x[j] = x[j], x[i]
    ]]
    in which [random_interval(state, i)] draws an integer from 0 to [i],
    both included.  Which integers are drawn is left to the generator. *)

(** [x[i], x[j] = x[j], x[i]].  The loop calls it with [j ≤ i < len(x)];
    for other indices Python raises, which the loop therefore never
    meets, and the list is returned as it is. *)
Definition swap {A : Type} (x : list A) (i j : nat) : list A :=
  match x !! i, x !! j with
  | Some xi, Some xj => <[j := xi]> (<[i := xj]> x)
  | _, _ => x
  end.

(** The loop from index [i] down to 1. *)
Fixpoint shuffle_loop {A G : Type} (random_interval : nat → G → nat * G)
    (i : nat) (x : list A) (g : G) : list A * G :=
  match i with
  | O => (x, g)
  | S i' =>
      let '(j, g') := random_interval (S i') g in
      shuffle_loop random_interval i' (swap x (S i') j) g'
  end.

Definition np_random_shuffle {A G : Type} (random_interval : nat → G → nat * G)
    (x : list A) (g : G) : list A * G :=
  shuffle_loop random_interval (length x - 1) x g.

(** The integers that the loop draws, from the one for index [i] to the
    one for index 1, and the rearrangement that given integers make. *)
Fixpoint interval_draws {G : Type} (random_interval : nat → G → nat * G)
    (i : nat) (g : G) : list nat * G :=
  match i with
  | O => ([], g)
  | S i' =>
      let '(j, g') := random_interval (S i') g in
      let '(js, g'') := interval_draws random_interval i' g' in
      (j :: js, g'')
  end.

Fixpoint shuffle_with {A : Type} (i : nat) (js : list nat) (x : list A) : list A :=
  match i, js with
  | S i', j :: js' => shuffle_with i' js' (swap x (S i') j)
  | _, _ => x
  end.

(** The sequences of integers that [random_interval] can return in the
    loop from index [i] down: one integer from 0 to the index for each
    index. *)
Fixpoint draws_in_range (i : nat) (js : list nat) : Prop :=
  match i, js with
  | O, [] => True
  | S i', j :: js' => j ≤ S i' ∧ draws_in_range i' js'
  | _, _ => False
  end.

(** All of them: [(i + 1)!] sequences. *)
Fixpoint all_draws (i : nat) : list (list nat) :=
  match i with
  | O => [[]]
  | S i' => j ← seq 0 (S (S i')); (j ::.) <$> all_draws i'
  end.

(** Among the sequences of draws for a list of [n] entries, the number of
    those that put the entries in the order [order], a list of the
    positions 0 to [n - 1].  When every integer that [random_interval]
    draws is uniform on its range and independent of the others, the
    sequences are equally likely, and the probability of [order] is this
    number out of the number of sequences. *)
Definition draws_giving (n : nat) (order : list nat) : nat :=
  length (filter (λ js, shuffle_with (n - 1) js (seq 0 n) = order) (all_draws (n - 1))).

(** A generator whose [np.random.shuffle] is the loop above over its
    [random_interval]. *)
Class NumpyShuffle (F G : Type) `{RandomState F G} := {
  random_interval : nat → G → nat * G;
  random_interval_le : ∀ (i : nat) (g : G), (random_interval i g).1 ≤ i;
  rs_shuffle_numpy : ∀ (A : Type) (x : list A) (g : G),
    rs_shuffle x g = np_random_shuffle random_interval x g;
}.

(** A generator to run the shuffle on: a counter, which every draw
    advances; [random_interval(i)] is the counter modulo [i + 1] and a
    normal sample is the counter. *)
Record counter := Counter { ticks : nat }.

Definition counter_interval (i : nat) (g : counter) : nat * counter :=
  (ticks g `mod` S i, Counter (S (ticks g))).

#[global] Program Instance counter_rng : RandomState R counter := {|
  rs_normal := λ g, (INR (ticks g), Counter (S (ticks g)));
  rs_shuffle := λ A x g, np_random_shuffle counter_interval x g;
|}.
Next Obligation.
  intros A x g. unfold np_random_shuffle.
  generalize (length x - 1). intros i. revert x g.
  induction i as [|i IH]; intros x g; [done|].
  cbn [shuffle_loop counter_interval]. rewrite IH. unfold swap.
  destruct (x !! S i) as [xi|] eqn:Hi; [|done].
  destruct (x !! (ticks g `mod` S (S i))) as [xj|] eqn:Hj; [|done].
  by apply Permutation_insert_swap.
Qed.

#[global] Instance counter_shuffle : NumpyShuffle R counter := {|
  random_interval := counter_interval;
  random_interval_le := λ i g,
    proj1 (Nat.lt_succ_r _ _) (Nat.mod_upper_bound (ticks g) (S i) (Nat.neq_succ_0 i));
  rs_shuffle_numpy := λ A x g, eq_refl;
|}.

(** Five examples and the state of a run that starts with the counter
    at 7. *)
Definition five_examples : list (example R) :=
  [(blank_image, asvector 0); (blank_image, asvector 1); (blank_image, asvector 2);
   (blank_image, asvector 3); (blank_image, asvector 4)].

Definition counter_state : sgd_state R counter := {|
  self := mnist_net;
  rng := Counter 7;
  training_data := five_examples;
  stdout := [];
|}.

(** Between 0 and 1/4, both included, or not a number. *)
Definition in_quarter_or_nan (a : xreal) : Prop :=
  match a with
  | Fin r => (0 <= r <= 1 / 4)%R
  | NaN => True
  | _ => False
  end.

(** An entry at which [sigmoid] saturates in the range of binary64: an
    infinity, or a number from -710 down, the exponential of whose opposite
    overflows. *)
Definition saturating (a : xreal) : Prop :=
  match a with
  | Fin r => (r <= -710)%R
  | PInf | NInf => True
  | NaN => False
  end.

(** * Properties *)

(** ** The monads and the Python lists *)

Ltac mstep := cbn [mbind mret result_bind result_ret].

Lemma py_norm_nonneg (n : nat) (i : nat) :
  i < n → py_norm n (Z.of_nat i) = Some i.
Proof.
  intros Hi. unfold py_norm.
  destruct (Z.ltb_spec (Z.of_nat i) 0); [lia|].
  destruct (Z.leb_spec 0 (Z.of_nat i)); [|lia].
  destruct (Z.ltb_spec (Z.of_nat i) (Z.of_nat n)); [|lia].
  simpl. f_equal. lia.
Qed.

Lemma py_norm_neg (n : nat) (L : nat) :
  0 < L ≤ n → py_norm n (- Z.of_nat L) = Some (n - L).
Proof.
  intros HL. unfold py_norm.
  destruct (Z.ltb_spec (- Z.of_nat L) 0); [|lia].
  destruct (Z.leb_spec 0 (- Z.of_nat L + Z.of_nat n)); [|lia].
  destruct (Z.ltb_spec (- Z.of_nat L + Z.of_nat n) (Z.of_nat n)); [|lia].
  simpl. f_equal. lia.
Qed.

Lemma py_norm_Some (n : nat) (i : Z) (j : nat) :
  py_norm n i = Some j → j < n.
Proof.
  unfold py_norm. cbv zeta.
  set (k := (if (i <? 0)%Z then (i + Z.of_nat n)%Z else i)).
  destruct ((0 <=? k)%Z && (k <? Z.of_nat n)%Z) eqn:Hk; [|done].
  apply andb_true_iff in Hk as [Hlo%Z.leb_le Hhi%Z.ltb_lt].
  intros [= <-]. lia.
Qed.

Section PyListFacts.
Context {A : Type}.
Implicit Types l : list A.

Lemma py_index_nonneg l (i : nat) x :
  l !! i = Some x → py_index l (Z.of_nat i) = Ok x.
Proof.
  intros Hx. unfold py_index.
  rewrite py_norm_nonneg by (by eapply lookup_lt_Some). by rewrite Hx.
Qed.

Lemma py_index_0 l x : py_index (x :: l) 0 = Ok x.
Proof. done. Qed.

Lemma py_index_neg l (L : nat) x :
  0 < L ≤ length l → l !! (length l - L) = Some x →
  py_index l (- Z.of_nat L) = Ok x.
Proof.
  intros HL Hx. unfold py_index.
  rewrite py_norm_neg by lia. by rewrite Hx.
Qed.

Lemma py_setitem_neg l (L : nat) v :
  0 < L ≤ length l → py_setitem l (- Z.of_nat L) v = Ok (<[length l - L := v]> l).
Proof. intros HL. unfold py_setitem. by rewrite py_norm_neg. Qed.

Lemma py_index_empty (i : Z) : py_index (@nil A) i = Raise IndexError.
Proof.
  unfold py_index. destruct (py_norm _ _) as [j|] eqn:Hj; [|done].
  apply py_norm_Some in Hj. simpl in Hj. lia.
Qed.

End PyListFacts.

Lemma py_range_empty (lo hi : Z) : (hi ≤ lo)%Z → py_range lo hi = [].
Proof. intros Hle. unfold py_range. by replace (Z.to_nat (hi - lo)) with 0 by lia. Qed.

Lemma py_range_cons (lo hi : Z) :
  (lo < hi)%Z → py_range lo hi = lo :: py_range (lo + 1) hi.
Proof.
  intros Hlt. unfold py_range.
  replace (Z.to_nat (hi - lo)) with (S (Z.to_nat (hi - (lo + 1)))) by lia.
  cbn [seq fmap list_fmap]. f_equal; [lia|].
  rewrite <- fmap_S_seq, <- list_fmap_compose.
  apply list_fmap_ext. intros _ i _. simpl. lia.
Qed.

(** ** Shapes of the results of the array operations *)

Section ArrayFacts.
Context {F : Type} `{Scalar F}.
Implicit Types a b z : ndarray F.

Lemma length_tabulate (r c : nat) (f : nat → nat → F) :
  length (tabulate r c f) = r * c.
Proof.
  unfold tabulate.
  enough (∀ s, length (i ← seq s r; f i <$> seq 0 c) = r * c) as Hs by apply Hs.
  induction r as [|r IH]; intros s; [done|].
  cbn [seq]. rewrite bind_cons, length_app, IH, length_fmap, length_seq. lia.
Qed.

Lemma np_zip_same (f : F → F → F) a b :
  shp a = shp b →
  np_zip f a b = Ok (mk_ndarray (shp a) (zip_with f (data a) (data b))).
Proof. intros Hab. unfold np_zip. by rewrite decide_True. Qed.

Lemma np_dot_matrices a b (r k c : nat) :
  shp a = Sh2 r k → shp b = Sh2 k c →
  np_dot a b = Ok (mk_ndarray (Sh2 r c) (matmul r c a b)).
Proof. intros Ha Hb. unfold np_dot. rewrite Ha, Hb. by rewrite decide_True. Qed.

Lemma shp_np_T a (r c : nat) : shp a = Sh2 r c → shp (np_T a) = Sh2 c r.
Proof. intros Ha. unfold np_T. by rewrite Ha. Qed.

Lemma shp_sigmoid z : shp (sigmoid z) = shp z.
Proof. done. Qed.

Lemma valid_np_map (f : F → F) a : valid a → valid (np_map f a).
Proof. unfold valid. simpl. by rewrite length_fmap. Qed.

Lemma valid_sigmoid z : valid z → valid (sigmoid z).
Proof. intros Hz. unfold sigmoid. by do 4 apply valid_np_map. Qed.

Lemma valid_np_zeros (s : shape) : valid (np_zeros (F:=F) s).
Proof. unfold valid. simpl. by rewrite length_replicate. Qed.

Lemma D_sigmoid_ok z :
  ∃ d, D_sigmoid z = Ok d ∧ shp d = shp z.
Proof.
  unfold D_sigmoid, np_mul. rewrite np_zip_same by done. eauto.
Qed.

(** A layer transition on a column of the right size. *)
Lemma affine_ok (w b a : ndarray F) (m n : nat) :
  shp w = Sh2 m n → shp b = Sh2 m 1 → column n a →
  ∃ z, (wa ← np_dot w a; np_add wa b) = Ok z ∧ column m z ∧
       (valid b → valid z).
Proof.
  intros Hw Hb Ha. rewrite (np_dot_matrices w a m n 1) by done. mstep.
  unfold np_add. rewrite np_zip_same by (by rewrite Hb).
  eexists. split; [done|]. split; [done|].
  unfold valid. cbn [data shp size]. intros Hvb.
  unfold matmul. rewrite length_zip_with, length_tabulate, Hvb, Hb. cbn [size]. lia.
Qed.

Lemma affine_bind {B : Type} (w b a z : ndarray F) (k : ndarray F → result B) :
  (wa ← np_dot w a; np_add wa b) = Ok z →
  (wa ← np_dot w a; z ← np_add wa b; k z) = k z.
Proof.
  destruct (np_dot w a) as [wa|]; mstep; [|done]. by intros ->.
Qed.

End ArrayFacts.

(** ** The forward pass *)

Section Forward.
Context {F : Type} `{Scalar F}.
Implicit Types a b z : ndarray F.

Lemma last_size_cons (n m : nat) (sizes : list nat) :
  last_size n (m :: sizes) = last_size m sizes.
Proof. unfold last_size. rewrite last_cons. by destruct (last sizes). Qed.

Lemma feed_layer_eq a b w :
  feed_layer a (b, w) = (wa ← np_dot w a; z ← np_add wa b; Ok (sigmoid z)).
Proof. done. Qed.

Lemma foldM_feed_layer bs ws a :
  foldM feed_layer a (zip bs ws) = spec_feedforward bs ws a.
Proof.
  revert ws a. induction bs as [|b bs IH]; intros [|w ws] a; try done.
  cbn [zip zip_with foldM spec_feedforward]. rewrite feed_layer_eq.
  destruct (np_dot w a) as [wa|]; mstep; [|done].
  destruct (np_add wa b) as [z|]; mstep; [|done]. apply IH.
Qed.

Lemma spec_feedforward_ok (n : nat) (sizes : list nat) bs ws a :
  layered n sizes bs ws → column n a →
  ∃ out, spec_feedforward bs ws a = Ok out ∧
         column (last_size n sizes) out ∧
         (Forall valid bs → valid a → valid out) ∧
         (sizes ≠ [] → ∃ z, out = sigmoid z).
Proof.
  revert n bs ws a.
  induction sizes as [|m sizes IH]; intros n [|b bs] [|w ws] a Hl Ha;
    try done; cbn [spec_feedforward].
  { exists a. by repeat split. }
  destruct Hl as (Hb & Hw & Hl).
  destruct (affine_ok w b a m n Hw Hb Ha) as (z & Hz & Hzc & Hzv).
  rewrite (affine_bind _ _ _ _ _ Hz).
  destruct (IH m bs ws (sigmoid z) Hl Hzc) as (out & Hout & Hoc & Hov & Hsig).
  exists out. split; [done|]. split.
  { by rewrite last_size_cons. }
  split.
  { intros [Hvb Hvbs]%Forall_cons_1 Hva. apply Hov; [done|].
    apply valid_sigmoid; auto. }
  intros _. destruct sizes as [|m' sizes].
  - destruct bs, ws; try done. cbn in Hout. injection Hout as <-. eauto.
  - by apply Hsig.
Qed.

End Forward.

(** ** Backpropagation *)

Lemma bind_Ok_inv {A B : Type} (m : result A) (k : A → result B) (r : B) :
  m ≫= k = Ok r → ∃ a, m = Ok a ∧ k a = Ok r.
Proof. destruct m as [a|e]; mstep; [eauto|done]. Qed.

Lemma zipM_length {A B C : Type} (f : A → B → result C) l k r :
  zipM f l k = Ok r → length r = length l `min` length k.
Proof.
  revert k r. induction l as [|a l IH]; intros [|b k] r; cbn [zipM];
    try (by intros [= <-]).
  intros (c & _ & (cs & Hcs & [= <-])%bind_Ok_inv)%bind_Ok_inv.
  cbn [length]. by rewrite (IH _ _ Hcs).
Qed.

Lemma zipM_lookup {A B C : Type} (f : A → B → result C) l k r j a b :
  zipM f l k = Ok r → l !! j = Some a → k !! j = Some b →
  ∃ c, r !! j = Some c ∧ f a b = Ok c.
Proof.
  revert k r j. induction l as [|a' l IH]; intros [|b' k] r j; cbn [zipM];
    try done.
  intros (c & Hc & (cs & Hcs & [= <-])%bind_Ok_inv)%bind_Ok_inv.
  destruct j as [|j]; cbn [lookup list_lookup].
  - intros [= ->] [= ->]. eauto.
  - intros Ha Hb. by apply (IH _ _ _ Hcs).
Qed.

Section Backward.
Context {F : Type} `{Scalar F}.
Implicit Types a b z d x y : ndarray F.
Implicit Types ws bs zl acts ds gws : list (ndarray F).

Lemma spec_forward_ok (n : nat) (sizes : list nat) bs ws a :
  layered n sizes bs ws → column n a →
  ∃ zl acts, spec_forward ws bs a = Ok (zl, a :: acts) ∧
             columns zl sizes ∧ columns acts sizes.
Proof.
  revert n bs ws a.
  induction sizes as [|m sizes IH]; intros n [|b bs] [|w ws] a Hl Ha;
    try done; cbn [spec_forward].
  { exists [], []. split; [done|]. split; constructor. }
  destruct Hl as (Hb & Hw & Hl).
  destruct (affine_ok w b a m n Hw Hb Ha) as (z & Hz & Hzc & _).
  rewrite (affine_bind _ _ _ _ _ Hz).
  destruct (IH m bs ws (sigmoid z) Hl Hzc) as (zl & acts & -> & Hzs & Hacts).
  mstep. cbn [fst snd]. exists (z :: zl), (sigmoid z :: acts).
  split; [done|]. split; by constructor.
Qed.

Lemma forward_step_eq (t : trace F) w b :
  forward_step t (w, b) =
  (wa ← np_dot w (activation t); z ← np_add wa b;
   Ok {| activation := sigmoid z;
         activations := activations t ++ [sigmoid z];
         zs := zs t ++ [z] |}).
Proof. done. Qed.

Lemma foldM_forward_step ws bs a accA accZ zl acts :
  spec_forward ws bs a = Ok (zl, acts) →
  ∃ act, foldM forward_step
           {| activation := a; activations := accA ++ [a]; zs := accZ |}
           (zip ws bs)
         = Ok {| activation := act; activations := accA ++ acts;
                 zs := accZ ++ zl |}.
Proof.
  revert bs a accA accZ zl acts.
  induction ws as [|w ws IH]; intros [|b bs] a accA accZ zl acts;
    cbn [spec_forward zip zip_with foldM];
    try (intros [= <- <-]; rewrite app_nil_r; by eexists).
  intros (wa & Hwa & (z & Hz & (rest & Hrest & [= <- <-])%bind_Ok_inv)
            %bind_Ok_inv)%bind_Ok_inv.
  rewrite forward_step_eq. cbn [activation activations zs].
  rewrite Hwa. mstep. rewrite Hz. mstep.
  destruct rest as [zl' acts']. cbn [fst snd].
  destruct (IH bs (sigmoid z) (accA ++ [a]) (accZ ++ [z]) zl' acts' Hrest)
    as (act & Hact).
  assert (∃ acts'', acts' = sigmoid z :: acts'') as (acts'' & ->).
  { destruct ws, bs; cbn [spec_forward] in Hrest;
      try (injection Hrest as <- <-; by eexists).
    apply bind_Ok_inv in Hrest as (? & _ & (? & _ & (? & _ & [= <- <-])
        %bind_Ok_inv)%bind_Ok_inv). by eexists. }
  exists act. rewrite Hact. by rewrite <- !(assoc_L (++)).
Qed.

(** The recurrence that [spec_deltas] unfolds to, position by position. *)
Lemma spec_deltas_length wsn zl a_last y ds :
  spec_deltas wsn zl a_last y = Ok ds → length ds = length zl.
Proof.
  revert wsn ds. induction zl as [|z zl IH]; intros wsn ds; cbn [spec_deltas].
  { by intros [= <-]. }
  destruct zl as [|z' zl].
  { by intros (d & _ & [= <-])%bind_Ok_inv. }
  destruct wsn as [|w wsn]; [done|].
  intros (ds' & Hds' & (dn & _ & (d & _ & [= <-])%bind_Ok_inv)%bind_Ok_inv)
           %bind_Ok_inv.
  cbn [length]. f_equal. by apply (IH wsn).
Qed.

Lemma spec_deltas_last wsn zl a_last y ds z :
  spec_deltas wsn zl a_last y = Ok ds → zl !! (length zl - 1) = Some z →
  ∃ d, ds !! (length zl - 1) = Some d ∧ spec_output_delta a_last y z = Ok d.
Proof.
  revert wsn ds. induction zl as [|z0 zl IH]; intros wsn ds; cbn [spec_deltas].
  { done. }
  destruct zl as [|z' zl].
  { intros (d & Hd & [= <-])%bind_Ok_inv [= <-]. eauto. }
  destruct wsn as [|w wsn]; [done|].
  intros (ds' & Hds' & (dn & _ & (d & _ & [= <-])%bind_Ok_inv)%bind_Ok_inv)
           %bind_Ok_inv.
  cbn [length]. replace (S (S (length zl)) - 1) with (S (S (length zl) - 1)) by lia.
  cbn [lookup list_lookup]. intros Hz. by apply (IH wsn).
Qed.

Lemma spec_deltas_lookup wsn zl a_last y ds j :
  spec_deltas wsn zl a_last y = Ok ds → S j < length zl →
  ∃ w z d d', wsn !! j = Some w ∧ zl !! j = Some z ∧
              ds !! S j = Some d' ∧ ds !! j = Some d ∧
              spec_hidden_delta w d' z = Ok d.
Proof.
  revert wsn ds j. induction zl as [|z0 zl IH]; intros wsn ds j; cbn [spec_deltas].
  { cbn [length]. lia. }
  destruct zl as [|z' zl].
  { cbn [length]. lia. }
  destruct wsn as [|w wsn]; [done|].
  intros (ds' & Hds' & (dn & Hdn & (d & Hd & [= <-])%bind_Ok_inv)%bind_Ok_inv)
           %bind_Ok_inv Hj.
  destruct j as [|j].
  - exists w, z0, d, dn. repeat split; try done.
    cbn [lookup list_lookup]. destruct ds' as [|d0 ds']; [by rewrite py_index_empty in Hdn|].
    rewrite py_index_0 in Hdn. by injection Hdn as ->.
  - cbn [length] in Hj. cbn [lookup list_lookup].
    apply (IH wsn ds' j Hds'). cbn [length]. lia.
Qed.

Lemma spec_output_delta_ok a_last y z (m : nat) :
  column m a_last → column m y → column m z →
  ∃ d, spec_output_delta a_last y z = Ok d ∧ column m d.
Proof.
  unfold column. intros Ha Hy Hz. unfold spec_output_delta, D_cost, np_sub.
  rewrite np_zip_same by congruence. mstep.
  destruct (D_sigmoid_ok z) as (ds & -> & Hds). mstep.
  unfold np_mul. rewrite np_zip_same by (cbn [shp]; congruence).
  eexists. split; [done|]. done.
Qed.

Lemma spec_hidden_delta_ok w d' z (m m' : nat) :
  shp w = Sh2 m' m → column m' d' → column m z →
  ∃ d, spec_hidden_delta w d' z = Ok d ∧ column m d.
Proof.
  unfold column. intros Hw Hd' Hz. unfold spec_hidden_delta.
  rewrite (np_dot_matrices (np_T w) d' m m' 1) by (by try apply shp_np_T).
  mstep. destruct (D_sigmoid_ok z) as (ds & -> & Hds). mstep.
  unfold np_mul. rewrite np_zip_same by (cbn [shp]; congruence).
  eexists. split; [done|]. done.
Qed.

Lemma spec_deltas_cons w wsn z z' zl a_last y :
  spec_deltas (w :: wsn) (z :: z' :: zl) a_last y =
  (ds ← spec_deltas wsn (z' :: zl) a_last y;
   d_next ← py_index ds 0;
   d ← spec_hidden_delta w d_next z;
   Ok (d :: ds)).
Proof. done. Qed.

Lemma spec_deltas_ok (n : nat) (sizes : list nat) bs ws zl a_last y :
  layered n sizes bs ws → columns zl sizes →
  column (last_size n sizes) a_last → column (last_size n sizes) y →
  ∃ ds, spec_deltas (py_tail ws) zl a_last y = Ok ds ∧ columns ds sizes.
Proof.
  revert n bs ws zl.
  induction sizes as [|m sizes IH]; intros n [|b bs] [|w ws] zl Hl Hzl;
    try done; inversion Hzl as [|z ? zl' ? Hz Hzl']; subst.
  { intros _ _. exists []. split; [done|constructor]. }
  destruct Hl as (Hb & Hw & Hl). rewrite !last_size_cons. intros Ha Hy.
  destruct sizes as [|m' sizes].
  - inversion Hzl'; subst. cbn [spec_deltas].
    destruct (spec_output_delta_ok a_last y z m Ha Hy Hz) as (d & -> & Hd).
    mstep. exists [d]. split; [done|]. by repeat constructor.
  - destruct (IH m bs ws zl' Hl Hzl' Ha Hy) as (ds & Hds & Hcols).
    inversion Hzl' as [|z' ? zl'' ? Hz' Hzl'']; subst.
    destruct bs as [|b' bs], ws as [|w' ws]; try done.
    destruct Hl as (Hb' & Hw' & Hl). unfold py_tail in *.
    cbn [drop] in Hds |- *. rewrite drop_0 in Hds.
    rewrite spec_deltas_cons, Hds. mstep.
    inversion Hcols as [|d' ? ds' ? Hd' Hds']; subst.
    rewrite py_index_0. mstep.
    destruct (spec_hidden_delta_ok w' d' z m m' Hw' Hd' Hz) as (d & -> & Hd).
    mstep. exists (d :: d' :: ds'). split; [done|]. by constructor.
Qed.

Lemma spec_weight_gradients_ok (n : nat) (sizes : list nat) bs ws ds a acts :
  layered n sizes bs ws → columns ds sizes → column n a → columns acts sizes →
  ∃ gws, zipM (λ d a_prev, np_dot d (np_T a_prev)) ds (a :: acts) = Ok gws ∧
         Forall2 (λ g w, shp g = shp w) gws ws.
Proof.
  revert n bs ws ds a acts.
  induction sizes as [|m sizes IH]; intros n [|b bs] [|w ws] ds a acts Hl Hds Ha Hacts;
    try done; inversion Hds as [|d ? ds' ? Hd Hds']; subst.
  { exists []. split; [done|constructor]. }
  inversion Hacts as [|a' ? acts' ? Ha' Hacts']; subst.
  destruct Hl as (Hb & Hw & Hl).
  destruct (IH m bs ws ds' a' acts' Hl Hds' Ha' Hacts') as (gws & Hgws & Hshp).
  cbn [zipM]. rewrite (np_dot_matrices d (np_T a) m 1 n) by (by try apply shp_np_T).
  mstep. rewrite Hgws. mstep. eexists. split; [done|]. constructor; [|done].
  by rewrite Hw.
Qed.

Lemma bias_gradient_shapes (n : nat) (sizes : list nat) bs ws ds :
  layered n sizes bs ws → columns ds sizes →
  Forall2 (λ g b, shp g = shp b) ds bs.
Proof.
  revert n bs ws ds.
  induction sizes as [|m sizes IH]; intros n [|b bs] [|w ws] ds Hl Hds;
    try done; inversion Hds as [|d ? ds' ? Hd Hds']; subst; [constructor|].
  destruct Hl as (Hb & Hw & Hl). constructor; [by rewrite Hb|]. by eapply IH.
Qed.

Lemma layered_lengths (n : nat) (sizes : list nat) bs ws :
  layered n sizes bs ws → length bs = length sizes ∧ length ws = length sizes.
Proof.
  revert n bs ws. induction sizes as [|m sizes IH]; intros n [|b bs] [|w ws] Hl;
    try done.
  destruct Hl as (_ & _ & Hl). destruct (IH _ _ _ Hl). cbn [length]. lia.
Qed.

Lemma insert_take_drop {A : Type} (zeros l : list A) (j : nat) (x : A) :
  j < length zeros → l !! j = Some x →
  <[j := x]> (take (S j) zeros ++ drop (S j) l) = take j zeros ++ drop j l.
Proof.
  intros Hj Hx. destruct (lookup_lt_is_Some_2 zeros j Hj) as [z0 Hz0].
  rewrite insert_app_l by (rewrite length_take; lia).
  rewrite (take_S_r _ _ _ Hz0).
  rewrite insert_app_r_alt by (rewrite length_take; lia).
  rewrite length_take. replace (j - j `min` length zeros) with 0 by lia.
  cbn [insert list_insert]. rewrite <- (assoc_L (++)). cbn [app].
  by rewrite (drop_S _ _ _ Hx).
Qed.

Lemma backward_step_eq (self : Network F) (t : trace F) (g : grads F) (L : Z) :
  backward_step self t g L =
  (w ← py_index (weights self) (- L + 1);
   wd ← np_dot (np_T w) (delta g);
   z ← py_index (zs t) (- L);
   ds ← D_sigmoid z;
   d ← np_mul wd ds;
   db ← py_setitem (dC_dBias g) (- L) d;
   a ← py_index (activations t) (- L - 1);
   gw ← np_dot d (np_T a);
   dw ← py_setitem (dC_dWeight g) (- L) gw;
   Ok {| delta := d; dC_dBias := db; dC_dWeight := dw |}).
Proof. done. Qed.

(** One turn of the backward loop writes position [j] of both lists. *)
Lemma backward_step_ok (self : Network F) (t : trace F) (k j : nat)
    w z d d' a gw (B W : list (ndarray F)) :
  S j < k →
  length (weights self) = k → length (zs t) = k → length (activations t) = S k →
  length B = k → length W = k →
  weights self !! S j = Some w → zs t !! j = Some z →
  activations t !! j = Some a →
  spec_hidden_delta w d' z = Ok d →
  np_dot d (np_T a) = Ok gw →
  backward_step self t {| delta := d'; dC_dBias := B; dC_dWeight := W |}
    (Z.of_nat (k - j))
  = Ok {| delta := d; dC_dBias := <[j := d]> B; dC_dWeight := <[j := gw]> W |}.
Proof.
  intros Hj Hlw Hlz Hla HlB HlW Hw Hz Ha Hd Hgw.
  rewrite backward_step_eq. cbn [delta dC_dBias dC_dWeight].
  replace (- Z.of_nat (k - j) + 1)%Z with (- Z.of_nat (k - j - 1))%Z by lia.
  replace (- Z.of_nat (k - j) - 1)%Z with (- Z.of_nat (k - j + 1))%Z by lia.
  rewrite (py_index_neg _ (k - j - 1) w);
    [|rewrite Hlw; lia|rewrite Hlw; by replace (k - (k - j - 1)) with (S j) by lia].
  mstep.
  unfold spec_hidden_delta in Hd.
  apply bind_Ok_inv in Hd as (wd & -> & (ds & Hds & Hmul)%bind_Ok_inv). mstep.
  rewrite (py_index_neg _ (k - j) z);
    [|rewrite Hlz; lia|rewrite Hlz; by replace (k - (k - j)) with j by lia].
  mstep. rewrite Hds. mstep. rewrite Hmul. mstep.
  rewrite py_setitem_neg by lia. mstep.
  rewrite (py_index_neg _ (k - j + 1) a);
    [|rewrite Hla; lia|rewrite Hla; by replace (S k - (k - j + 1)) with j by lia].
  mstep. rewrite Hgw. mstep.
  rewrite py_setitem_neg by lia. mstep.
  rewrite HlB, HlW. by replace (k - (k - j)) with j by lia.
Qed.

Lemma backward_loop (self : Network F) (t : trace F) ds gws
    (ZB ZW : list (ndarray F)) (k : nat) :
  length (weights self) = k → length (zs t) = k → length (activations t) = S k →
  length ds = k → length gws = k → length ZB = k → length ZW = k →
  (∀ j, S j < k → ∃ w z d d',
      weights self !! S j = Some w ∧ zs t !! j = Some z ∧
      ds !! S j = Some d' ∧ ds !! j = Some d ∧
      spec_hidden_delta w d' z = Ok d) →
  (∀ j, j < k → ∃ d a g,
      ds !! j = Some d ∧ activations t !! j = Some a ∧
      gws !! j = Some g ∧ np_dot d (np_T a) = Ok g) →
  ∀ j d, j < k → ds !! j = Some d →
  ∃ d0, foldM (backward_step self t)
          {| delta := d; dC_dBias := take j ZB ++ drop j ds;
             dC_dWeight := take j ZW ++ drop j gws |}
          (py_range (Z.of_nat (k - j) + 1) (Z.of_nat k + 1))
        = Ok {| delta := d0; dC_dBias := ds; dC_dWeight := gws |}.
Proof.
  intros Hlw Hlz Hla Hlds Hlgws HlB HlW Hdelta Hgrad.
  induction j as [|j IH]; intros d' Hj Hd'.
  { rewrite py_range_empty by lia. cbn [foldM]. rewrite !take_0, !drop_0.
    by eexists. }
  destruct (Hdelta j Hj) as (w & z & d & d'' & Hw & Hz & Hd'' & Hd & Hstep).
  assert (d'' = d') as -> by congruence.
  destruct (Hgrad j) as (d1 & a & g & Hd1 & Ha & Hg & Hdot); [lia|].
  assert (d1 = d) as -> by congruence.
  rewrite py_range_cons by lia. cbn [foldM].
  replace (Z.of_nat (k - S j) + 1)%Z with (Z.of_nat (k - j)) by lia.
  rewrite (backward_step_ok self t k j w z d d' a g); try done.
  2, 3: rewrite length_app, length_take, length_drop; lia.
  mstep. rewrite !insert_take_drop by (done || lia).
  apply IH; [lia|done].
Qed.

Lemma py_index_layersz_first (n : nat) (sizes : list nat) :
  py_index (Z.of_nat <$> (n :: sizes)) 0 = Ok (Z.of_nat n).
Proof. done. Qed.

Lemma py_index_layersz_last (n : nat) (sizes : list nat) :
  py_index (Z.of_nat <$> (n :: sizes)) (-1) = Ok (Z.of_nat (last_size n sizes)).
Proof.
  apply (py_index_neg _ 1); [rewrite length_fmap; cbn [length]; lia|].
  rewrite length_fmap, list_lookup_fmap. cbn [length].
  replace (S (length sizes) - 1) with (length sizes) by lia.
  unfold last_size. rewrite last_lookup.
  destruct sizes as [|m sizes _] using rev_ind; [done|].
  rewrite length_app. cbn [length].
  replace (Init.Nat.pred (length sizes + 1)) with (length sizes) by lia.
  rewrite lookup_cons_ne_0 by lia.
  replace (Init.Nat.pred (length sizes + 1)) with (length sizes) by lia.
  by rewrite list_lookup_middle.
Qed.

Lemma shape_tuple_column (m : nat) a :
  column m a → shape_tuple (shp a) = [Z.of_nat m; 1%Z].
Proof. by intros ->. Qed.

Lemma columns_last (n : nat) (sizes : list nat) acts :
  columns acts sizes → sizes ≠ [] →
  ∃ a, acts !! (length sizes - 1) = Some a ∧ column (last_size n sizes) a.
Proof.
  intros Hcols Hne.
  destruct sizes as [|m sizes _] using rev_ind; [done|].
  apply Forall2_app_inv_r in Hcols as (acts' & al & Hcols' & Hal & ->).
  inversion Hal as [|a ? ? ? Ha Hnil]; subst. inversion Hnil; subst.
  exists a. rewrite length_app. cbn [length].
  replace (length sizes + 1 - 1) with (length acts')
    by (apply Forall2_length in Hcols'; lia).
  rewrite list_lookup_middle by done. split; [done|].
  unfold last_size. by rewrite last_snoc.
Qed.

(** [backpropagate] against the algorithm of the specification. *)
Lemma backpropagate_spec
    (net : Network F) (n : nat) (sizes : list nat) x y :
  wf_net net n sizes → column n x → column (last_size n sizes) y →
  ∃ gb gw,
    backpropagate net x y = Ok (gb, gw) ∧
    spec_backprop (weights net) (biases net) x y = Ok (gb, gw) ∧
    Forall2 (λ g b, shp g = shp b) gb (biases net) ∧
    Forall2 (λ g w, shp g = shp w) gw (weights net).
Proof.
  intros [Hnl Hlz Hne Hl] Hx Hy.
  destruct (layered_lengths _ _ _ _ Hl) as [Hlb Hlw].
  destruct (spec_forward_ok n sizes _ _ x Hl Hx) as (zl & acts & Hfwd & Hzl & Hacts).
  destruct (columns_last n sizes acts Hacts Hne) as (a_last & Ha_last & Hac).
  destruct (spec_deltas_ok n sizes _ _ zl a_last y Hl Hzl Hac Hy) as (ds & Hds & Hdc).
  destruct (spec_weight_gradients_ok n sizes _ _ ds x acts Hl Hdc Hx Hacts)
    as (gws & Hgws & Hgshp).
  pose proof (Forall2_length _ _ _ Hzl) as Hlzl.
  pose proof (Forall2_length _ _ _ Hacts) as Hlacts.
  pose proof (Forall2_length _ _ _ Hdc) as Hlds.
  pose proof (Forall2_length _ _ _ Hgshp) as Hlgws.
  assert (0 < length sizes) as Hk by (destruct sizes; [done|cbn; lia]).
  set (k := length sizes) in *.
  assert (py_index (x :: acts) (-1) = Ok a_last) as Hidx_last.
  { apply (py_index_neg _ 1); cbn [length]; [lia|].
    rewrite lookup_cons_ne_0 by lia.
    by replace (Init.Nat.pred (S (length acts) - 1)) with (k - 1) by lia. }
  exists ds, gws. split; [|split; [|split; [|done]]].
  - (* the code *)
    unfold backpropagate. rewrite Hlz, py_index_layersz_first. mstep.
    rewrite decide_False by (intros Hne'; apply Hne'; by apply shape_tuple_column).
    rewrite py_index_layersz_last. mstep.
    rewrite decide_False by (intros Hne'; apply Hne'; by apply shape_tuple_column).
    destruct (foldM_forward_step _ _ x [] [] zl (x :: acts) Hfwd) as (act & Ht).
    cbn [app] in Ht. rewrite Ht. mstep.
    set (t := {| activation := act; activations := x :: acts; zs := zl |}).
    change (activations t) with (x :: acts). change (zs t) with zl.
    rewrite Hidx_last. mstep.
    destruct (lookup_lt_is_Some_2 zl (k - 1)) as [z_last Hz_last]; [lia|].
    destruct (spec_deltas_last _ _ _ _ _ z_last Hds) as (d_last & Hd_last & Hout);
      [by rewrite Hlzl|].
    rewrite Hlzl in Hd_last.
    unfold spec_output_delta in Hout.
    apply bind_Ok_inv in Hout as (dc & -> & (dsg & Hdsg & Hmul)%bind_Ok_inv). mstep.
    rewrite (py_index_neg _ 1 z_last); [|lia|by rewrite Hlzl].
    mstep. rewrite Hdsg. mstep. rewrite Hmul. mstep.
    rewrite (py_setitem_neg _ 1) by (rewrite length_fmap; lia). mstep.
    destruct (lookup_lt_is_Some_2 (x :: acts) (k - 1)) as [a_prev Ha_prev];
      [cbn [length]; lia|].
    destruct (zipM_lookup _ _ _ _ (k - 1) d_last a_prev Hgws Hd_last Ha_prev)
      as (g_last & Hg_last & Hdot).
    rewrite (py_index_neg _ 2 a_prev);
      [|cbn [length]; lia|cbn [length]; by replace (S (length acts) - 2) with (k - 1) by lia].
    mstep. rewrite Hdot. mstep.
    rewrite (py_setitem_neg _ 1) by (rewrite length_fmap; lia). mstep.
    rewrite !length_fmap, Hlb, Hlw, Hnl, Hlz, length_fmap. cbn [length].
    fold k.
    opose proof* (backward_loop net t ds gws
                    ((λ b, np_zeros (shp b)) <$> biases net)
                    ((λ w, np_zeros (shp w)) <$> weights net) k
                    _ _ _ _ _ _ _ _ _ (k - 1) d_last)
      as (d0 & Hloop); try done; try (by rewrite length_fmap); try lia.
    + cbn [activations t length]. lia.
    + intros j Hj.
      destruct (spec_deltas_lookup _ _ _ _ _ j Hds) as (w & z & d & d' & Hw & Hz & Hd' & Hd & Hstep);
        [lia|].
      exists w, z, d, d'. repeat split; try done.
      unfold py_tail in Hw. by rewrite lookup_drop in Hw.
    + intros j Hj.
      destruct (lookup_lt_is_Some_2 ds j) as [d Hd]; [lia|].
      destruct (lookup_lt_is_Some_2 (x :: acts) j) as [a Ha]; [cbn [length]; lia|].
      destruct (zipM_lookup _ _ _ _ j d a Hgws Hd Ha) as (g & Hg & Hdot').
      by exists d, a, g.
    + replace (Z.of_nat (k - (k - 1)) + 1)%Z with 2%Z in Hloop by lia.
      replace (Z.of_nat (S k)) with (Z.of_nat k + 1)%Z by lia.
      assert (∀ (Z l : list (ndarray F)) (v : ndarray F),
                length Z = k → length l = k → l !! (k - 1) = Some v →
                <[k - 1 := v]> Z = take (k - 1) Z ++ drop (k - 1) l) as Hinit.
      { intros Z l v HZ Hll Hv.
        rewrite <- (insert_take_drop Z l (k - 1) v) by (done || lia).
        replace (S (k - 1)) with k by lia.
        rewrite take_ge, drop_ge by lia. by rewrite app_nil_r. }
      rewrite (Hinit _ ds d_last), (Hinit _ gws g_last)
        by first [done | by rewrite length_fmap | lia].
      rewrite Hloop. by mstep.
  - (* the specification *)
    unfold spec_backprop. rewrite Hfwd. mstep. cbn [fst snd].
    rewrite Hidx_last. mstep. rewrite Hds. mstep. rewrite Hgws. by mstep.
  - by eapply bias_gradient_shapes.
Qed.

(** C1. On a well-formed network, and on an input and a target that are
    columns of the sizes of the input and of the output layer,
    [backpropagate] returns the pair of gradient lists that the algorithm
    of the specification computes (forward pass keeping every [z] and every
    [a]; error of the output layer; errors of the earlier layers from the
    output back to the input; bias gradient the error, weight gradient the
    error times the transposed entering activation): the lists are ordered
    from input to output, with one entry per layer transition, each of the
    shape of its parameter. *)
Theorem backpropagate_computes_spec_gradients
    (net : Network F) (n : nat) (sizes : list nat) x y :
  wf_net net n sizes → column n x → column (last_size n sizes) y →
  ∃ gb gw,
    backpropagate net x y = Ok (gb, gw) ∧
    spec_backprop (weights net) (biases net) x y = Ok (gb, gw) ∧
    length gb = length sizes ∧ length gw = length sizes ∧
    same_shapes gb (biases net) ∧ same_shapes gw (weights net).
Proof.
  intros Hwf Hx Hy.
  destruct (backpropagate_spec net n sizes x y Hwf Hx Hy)
    as (gb & gw & Hcode & Hspec & Hgb & Hgw).
  destruct (layered_lengths _ _ _ _ (wf_layered _ _ _ Hwf)) as [Hlb Hlw].
  exists gb, gw. repeat split; try done.
  - by rewrite (Forall2_length _ _ _ Hgb).
  - by rewrite (Forall2_length _ _ _ Hgw).
Qed.

End Backward.

(** ** The checks at the head of the two methods *)

Section Checks.
Context {F : Type} `{Scalar F}.
Implicit Types a x y : ndarray F.

Lemma feedforward_checked (net : Network F) (n0 : Z) x :
  py_index (layersz net) 0 = Ok n0 → shape_tuple (shp x) = [n0; 1%Z] →
  feedforward net x = spec_feedforward (biases net) (weights net) x.
Proof.
  intros Hn0 Hx. unfold feedforward. rewrite Hn0. mstep.
  rewrite decide_False by (by intros ?). apply foldM_feed_layer.
Qed.

Lemma feedforward_rejects (net : Network F) (n0 : Z) x :
  py_index (layersz net) 0 = Ok n0 → shape_tuple (shp x) ≠ [n0; 1%Z] →
  feedforward net x
  = Raise (RuntimeError "Input array has wrong shape - must be (784, 1)").
Proof.
  intros Hn0 Hx. unfold feedforward. rewrite Hn0. mstep. by rewrite decide_True.
Qed.

Lemma backpropagate_rejects_input (net : Network F) (n0 : Z) x y :
  py_index (layersz net) 0 = Ok n0 → shape_tuple (shp x) ≠ [n0; 1%Z] →
  backpropagate net x y = Raise (RuntimeError "Input array has wrong shape").
Proof.
  intros Hn0 Hx. unfold backpropagate. rewrite Hn0. mstep. by rewrite decide_True.
Qed.

Lemma backpropagate_rejects_target (net : Network F) (n0 nL : Z) x y :
  py_index (layersz net) 0 = Ok n0 → shape_tuple (shp x) = [n0; 1%Z] →
  py_index (layersz net) (-1) = Ok nL → shape_tuple (shp y) ≠ [nL; 1%Z] →
  backpropagate net x y = Raise (RuntimeError "Output array has wrong shape").
Proof.
  intros Hn0 Hx HnL Hy. unfold backpropagate. rewrite Hn0. mstep.
  rewrite decide_False by (by intros ?). rewrite HnL. mstep.
  by rewrite decide_True.
Qed.

(** On a well-formed network a column of the size of the input layer goes
    through all the layers. *)
Lemma feedforward_ok (net : Network F) (n : nat) (sizes : list nat) x :
  wf_net net n sizes → column n x →
  ∃ out, feedforward net x = Ok out ∧
         spec_feedforward (biases net) (weights net) x = Ok out ∧
         column (last_size n sizes) out ∧
         (valid_net net → valid x → valid out) ∧
         ∃ z, out = sigmoid z.
Proof.
  intros [Hnl Hlz Hne Hl] Hx.
  destruct (spec_feedforward_ok n sizes _ _ x Hl Hx) as (out & Hout & Hc & Hv & Hs).
  exists out. rewrite (feedforward_checked net (Z.of_nat n)).
  - repeat split; try done; [|by apply Hs]. intros [Hvb _]. by apply Hv.
  - by rewrite Hlz.
  - by apply shape_tuple_column.
Qed.

End Checks.

(** ** The range of the sigmoid over the real numbers *)

Lemma sigmoid_entries (z : ndarray R) :
  data (sigmoid z) = (λ v, 1 / (1 + exp (- v)))%R <$> data z.
Proof.
  unfold sigmoid, np_map. cbn [data].
  rewrite <- !list_fmap_compose. by apply list_fmap_ext.
Qed.

Lemma sigmoid_in_unit_interval (v : R) : (0 < 1 / (1 + exp (- v)) < 1)%R.
Proof.
  pose proof (exp_pos (- v)) as Hexp.
  split.
  - apply Rdiv_lt_0_compat; lra.
  - apply (Rmult_lt_reg_r (1 + exp (- v))); [lra|]. field_simplify; lra.
Qed.

Lemma sigmoid_range (z : ndarray R) :
  Forall (λ v, 0 < v < 1)%R (data (sigmoid z)).
Proof.
  rewrite sigmoid_entries. apply Forall_fmap, Forall_true.
  intros v. apply sigmoid_in_unit_interval.
Qed.

(** In exact real arithmetic every component of the output is strictly
    between 0 and 1. *)
Lemma feedforward_range_exact
    (net : Network R) (n : nat) (sizes : list nat) (x : ndarray R) :
  wf_net net n sizes → valid_net net → column n x → valid x →
  ∃ out,
    feedforward net x = Ok out ∧
    spec_feedforward (biases net) (weights net) x = Ok out ∧
    shape_tuple (shp out) = [Z.of_nat (last_size n sizes); 1%Z] ∧
    length (data out) = last_size n sizes ∧
    Forall (λ v, 0 < v < 1)%R (data out) ∧
    call (λ self, feedforward self x) net = (Ok out, net).
Proof.
  intros Hwf Hvn Hx Hvx.
  destruct (feedforward_ok net n sizes x Hwf Hx) as (out & Hff & Hsp & Hc & Hv & z & Hz).
  exists out. split; [done|]. split; [done|]. split; [by apply shape_tuple_column|].
  split.
  { specialize (Hv Hvn Hvx). unfold valid in Hv. rewrite Hv, Hc. cbn [size]. lia. }
  split; [rewrite Hz; apply sigmoid_range|].
  unfold call. by rewrite Hff.
Qed.

(** ** The evaluator *)

Section Evaluate.
Context {F : Type} `{Scalar F}.
Implicit Types x : ndarray F.

Lemma mapM_result_cons {A B : Type} (f : A → result B) (a : A) (l : list A) :
  mapM f (a :: l) = (b ← f a; bs ← mapM f l; Ok (b :: bs)).
Proof. done. Qed.

Lemma foldl_indicators (rs : list (Z * Z)) (acc : Z) :
  foldl Z.add acc ((λ xy : Z * Z, if decide (xy.1 = xy.2) then 1 else 0)%Z <$> rs)
  = (acc + Z.of_nat (length (filter (λ xy : Z * Z, xy.1 = xy.2) rs)))%Z.
Proof.
  revert acc. induction rs as [|[p y] rs IH]; intros acc; cbn [fmap list_fmap foldl].
  { cbn. lia. }
  rewrite IH. cbn [fst snd]. rewrite filter_cons. cbn [fst snd].
  destruct (decide (p = y)); cbn [length]; lia.
Qed.

Lemma predicted_ok (net : Network F) (n : nat) (sizes : list nat) x :
  wf_net net n sizes → valid_net net → last_size n sizes ≠ 0 →
  column n x → valid x →
  ∃ p, predicted net x = Ok p.
Proof.
  intros Hwf Hvn Hpos Hx Hvx. unfold predicted.
  destruct (feedforward_ok net n sizes x Hwf Hx) as (out & -> & _ & Hc & Hv & _).
  mstep. specialize (Hv Hvn Hvx). unfold valid in Hv. rewrite Hc in Hv.
  cbn [size] in Hv. unfold np_argmax.
  destruct (data out) as [|v l]; [cbn [length] in Hv; lia|]. eauto.
Qed.

Lemma evaluate_counts (net : Network F) (test_data : list (ndarray F * Z)) :
  Forall (λ xy, ∃ p, predicted net xy.1 = Ok p) test_data →
  evaluate net test_data
  = Ok (Z.of_nat (length (filter (λ xy, is_correct net xy) test_data))).
Proof.
  intros Hok. unfold evaluate.
  enough (∃ rs, mapM (λ xy : ndarray F * Z,
                        out ← feedforward net xy.1; p ← np_argmax out; Ok (p, xy.2))
                  test_data = Ok rs ∧
                length (filter (λ xy : Z * Z, xy.1 = xy.2) rs)
                = length (filter (λ xy, is_correct net xy) test_data))
    as (rs & -> & Hlen).
  { mstep. by rewrite foldl_indicators, Hlen. }
  induction Hok as [|[x y] l (p & Hp) Hl (rs & IH & Hlen)].
  { by exists []. }
  rewrite mapM_result_cons. cbn [fst snd] in *.
  assert (is_correct net (x, y) = bool_decide (p = y)) as Hic.
  { unfold is_correct. cbn [fst snd]. by rewrite Hp. }
  unfold predicted in Hp.
  apply bind_Ok_inv in Hp as (out & Hout & Harg). rewrite Hout. mstep.
  rewrite Harg. mstep. rewrite IH. mstep.
  exists ((p, y) :: rs). split; [done|].
  rewrite !filter_cons. cbn [fst snd].
  destruct (decide (p = y)) as [Heq|Hne].
  - rewrite decide_True by (rewrite Hic; by apply bool_decide_pack).
    cbn [length]. by rewrite Hlen.
  - rewrite decide_False by (rewrite Hic; by intros ?%bool_decide_unpack). done.
Qed.

(** C4. On a well-formed network whose output layer is not empty and on
    valid images that are columns of the size of the input layer,
    [evaluate] returns the number of examples whose label is the index of
    the largest component of the output of [feedforward]; that number lies
    between 0 and the size of the data set, and it is 0 on the empty data
    set, whatever the network. *)
Theorem evaluate_counts_correct_predictions
    (net : Network F) (n : nat) (sizes : list nat)
    (test_data : list (ndarray F * Z)) :
  wf_net net n sizes → valid_net net → last_size n sizes ≠ 0 →
  Forall (λ xy, column n xy.1 ∧ valid xy.1) test_data →
  ∃ r,
    evaluate net test_data = Ok r ∧
    r = Z.of_nat (length (filter (λ xy, is_correct net xy) test_data)) ∧
    (0 ≤ r ≤ Z.of_nat (length test_data))%Z ∧
    ∀ net' : Network F, evaluate net' [] = Ok 0%Z.
Proof.
  intros Hwf Hvn Hpos Hdata. eexists. split; [|split; [done|split]].
  - apply evaluate_counts. eapply Forall_impl; [exact Hdata|].
    intros [x y] [Hx Hvx]. by eapply predicted_ok.
  - pose proof (length_filter (λ xy, is_correct net xy) test_data). lia.
  - done.
Qed.

End Evaluate.

(** Over the real numbers [np.argmax] does return the position of a largest
    entry. *)
Lemma argmax_from_max (pre l : list R) (best_i : nat) (best : R) :
  pre !! best_i = Some best → Forall (λ v, v <= best)%R pre →
  ∃ m, (pre ++ l) !! argmax_from best_i best (length pre) l = Some m ∧
       Forall (λ v, v <= m)%R (pre ++ l).
Proof.
  revert pre best_i best. induction l as [|v l IH]; intros pre best_i best Hb Hle.
  { exists best. rewrite app_nil_r. by split. }
  cbn [argmax_from].
  change (negb (fisnan best) && (fisnan v || fltb best v))
    with (bool_decide (best < v)%R).
  replace (pre ++ v :: l) with ((pre ++ [v]) ++ l) by (by rewrite <- (assoc_L (++))).
  replace (S (length pre)) with (length (pre ++ [v]))
    by (rewrite length_app; cbn; lia).
  case_bool_decide as Hlt.
  - apply IH.
    + by rewrite list_lookup_middle.
    + apply Forall_app. split; [|apply Forall_singleton; lra].
      eapply Forall_impl; [exact Hle|]. cbn. intros; lra.
  - apply IH.
    + by apply lookup_app_l_Some.
    + apply Forall_app. split; [done|]. apply Forall_singleton. lra.
Qed.

Lemma np_argmax_is_max (a : ndarray R) (p : Z) :
  np_argmax a = Ok p →
  ∃ m, data a !! Z.to_nat p = Some m ∧ Forall (λ v, v <= m)%R (data a).
Proof.
  unfold np_argmax. destruct (data a) as [|v l]; [done|]. intros [= <-].
  rewrite Nat2Z.id.
  apply (argmax_from_max [v] l 0 v); [done|]. apply Forall_singleton. lra.
Qed.

(** ** Shape errors *)

Section ShapeErrors.
Context {F : Type} `{Scalar F}.
Implicit Types x y : ndarray F.

Lemma column_tuple_inj (m k : nat) x :
  column m x → shape_tuple (shp x) = [Z.of_nat k; 1%Z] → m = k.
Proof. intros ->. cbn. intros [= Hk]. lia. Qed.

Lemma not_RuntimeError_Ok {A : Type} (a : A) : ¬ raises_RuntimeError (Ok a).
Proof. by intros [msg Hmsg]. Qed.

(** C5. For a well-formed network, a column input and a column target:
    [feedforward] raises the shape error exactly when the length of the input
    is not the size of the input layer, [backpropagate] exactly when that
    holds or the length of the target is not the size of the output layer.
    The error falls before any computation: with the same layer sizes it is
    raised whatever the weights and biases are.  The object is the same
    after the call, and an error carries no partial result. *)
Theorem shape_mismatch_raised_exactly_on_wrong_length
    (net : Network F) (n : nat) (sizes : list nat) (nx ny : nat) x y :
  wf_net net n sizes → column nx x → column ny y →
  (raises_RuntimeError (feedforward net x) ↔ nx ≠ n) ∧
  (raises_RuntimeError (backpropagate net x y) ↔ nx ≠ n ∨ ny ≠ last_size n sizes) ∧
  (nx ≠ n → ∀ net' : Network F, layersz net' = layersz net →
     feedforward net' x = feedforward net x) ∧
  (nx ≠ n ∨ ny ≠ last_size n sizes →
     ∀ net' : Network F, layersz net' = layersz net →
     backpropagate net' x y = backpropagate net x y) ∧
  (call (λ self, feedforward self x) net).2 = net ∧
  (call (λ self, backpropagate self x y) net).2 = net.
Proof.
  intros Hwf Hx Hy.
  assert (py_index (layersz net) 0 = Ok (Z.of_nat n)) as Hfirst
    by (by rewrite (wf_layersz _ _ _ Hwf)).
  assert (py_index (layersz net) (-1) = Ok (Z.of_nat (last_size n sizes))) as Hlast
    by (rewrite (wf_layersz _ _ _ Hwf); apply py_index_layersz_last).
  assert (nx ≠ n → shape_tuple (shp x) ≠ [Z.of_nat n; 1%Z]) as Hbadx
    by (intros Hne Heq; by apply Hne, (column_tuple_inj nx n x)).
  assert (ny ≠ last_size n sizes →
          shape_tuple (shp y) ≠ [Z.of_nat (last_size n sizes); 1%Z]) as Hbady
    by (intros Hne Heq; by apply Hne, (column_tuple_inj ny _ y)).
  assert (nx ≠ n ∨ ny ≠ last_size n sizes →
          ∀ net' : Network F, layersz net' = layersz net →
          raises_RuntimeError (backpropagate net' x y) ∧
          backpropagate net' x y = backpropagate net x y) as Hbp.
  { intros Hbad net' Hsame. destruct (decide (nx = n)) as [->|Hnx].
    - destruct Hbad as [?|Hny]; [done|].
      rewrite !(backpropagate_rejects_target _ (Z.of_nat n) (Z.of_nat (last_size n sizes)));
        rewrite ?Hsame; try done; try (by apply shape_tuple_column); try (by apply Hbady).
      split; [by eexists|done].
    - rewrite !(backpropagate_rejects_input _ (Z.of_nat n));
        rewrite ?Hsame; try done; try (by apply Hbadx).
      split; [by eexists|done]. }
  split; [|split; [|split; [|split; [|done]]]].
  - split.
    + intros Herr ->.
      destruct (feedforward_ok net n sizes x Hwf Hx) as (out & Hout & _).
      rewrite Hout in Herr. by apply not_RuntimeError_Ok in Herr.
    + intros Hne. rewrite (feedforward_rejects net (Z.of_nat n)) by auto.
      by eexists.
  - split.
    + intros Herr.
      destruct (decide (nx = n)) as [->|]; [|by left].
      destruct (decide (ny = last_size n sizes)) as [->|]; [|by right].
      destruct (backpropagate_spec net n sizes x y Hwf Hx Hy) as (gb & gw & Hbp' & _).
      rewrite Hbp' in Herr. by apply not_RuntimeError_Ok in Herr.
    + intros Hbad. by apply (Hbp Hbad net).
  - intros Hne net' Hsame.
    rewrite !(feedforward_rejects _ (Z.of_nat n)); rewrite ?Hsame; auto.
  - intros Hbad net' Hsame. by apply Hbp.
Qed.

(** C10. Both methods compare the whole shape of the input with
    [(layersz[0], 1)]: an input of any other shape is rejected with the
    error of the method, and so is every one-dimensional array, however many
    entries it has; a flat array of the right length gets the same error as
    a column of a wrong length. *)
Theorem only_column_inputs_accepted (net : Network F) (n0 : Z) :
  py_index (layersz net) 0 = Ok n0 →
  (∀ x y, shape_tuple (shp x) ≠ [n0; 1%Z] →
     feedforward net x
     = Raise (RuntimeError "Input array has wrong shape - must be (784, 1)") ∧
     backpropagate net x y = Raise (RuntimeError "Input array has wrong shape")) ∧
  (∀ x y (k : nat), shp x = Sh1 k →
     feedforward net x
     = Raise (RuntimeError "Input array has wrong shape - must be (784, 1)") ∧
     backpropagate net x y = Raise (RuntimeError "Input array has wrong shape")).
Proof.
  intros Hn0.
  assert (∀ x y, shape_tuple (shp x) ≠ [n0; 1%Z] →
     feedforward net x
     = Raise (RuntimeError "Input array has wrong shape - must be (784, 1)") ∧
     backpropagate net x y = Raise (RuntimeError "Input array has wrong shape"))
    as Hreject.
  { intros x y Hx. split.
    - by apply (feedforward_rejects net n0).
    - by apply (backpropagate_rejects_input net n0). }
  split; [done|]. intros x y k Hk. apply Hreject. by rewrite Hk.
Qed.

End ShapeErrors.

(** ** Construction *)

Section Construction.
Context {F G : Type} `{Scalar F} `{RandomState F G}.

Lemma length_draws (n : nat) (g : G) : length (draws n g).1 = n.
Proof.
  revert g. induction n as [|n IH]; intros g; cbn [draws]; [done|].
  destruct (rs_normal g) as [v g']. specialize (IH g').
  destruct (draws n g') as [vs g'']. cbn [fst length] in *. by rewrite IH.
Qed.

Lemma np_random_randn_inv (i j : Z) (g g' : G) (a : ndarray F) :
  np_random_randn i j g = (Ok a, g') →
  (0 ≤ i)%Z ∧ (0 ≤ j)%Z ∧ shp a = Sh2 (Z.to_nat i) (Z.to_nat j) ∧ valid a.
Proof.
  unfold np_random_randn. destruct (decide (i < 0 ∨ j < 0)%Z) as [|Hij]; [done|].
  pose proof (length_draws (Z.to_nat i * Z.to_nat j) g) as Hlen.
  destruct (draws _ g) as [vs g'']. intros [= <- <-].
  repeat split; try lia. done.
Qed.

Lemma mapM_state_cons {A B : Type} (f : A → M G B) (a : A) (l : list A) :
  mapM f (a :: l) = (b ← f a; bs ← mapM f l; mret (b :: bs)).
Proof. done. Qed.

Lemma M_bind_Ok_inv {A B : Type} (m : M G A) (k : A → M G B) (g g' : G) (r : B) :
  (m ≫= k) g = (Ok r, g') → ∃ a g1, m g = (Ok a, g1) ∧ k a g1 = (Ok r, g').
Proof.
  unfold mbind, M_bind. destruct (m g) as [[a|e] g1]; [eauto|done].
Qed.

Lemma mapM_randn_inv {A : Type} (dims : A → Z * Z) (l : list A) (g g' : G)
    (arrays : list (ndarray F)) :
  mapM (λ x, np_random_randn (dims x).1 (dims x).2) l g = (Ok arrays, g') →
  Forall2 (λ a x, (0 ≤ (dims x).1)%Z ∧ (0 ≤ (dims x).2)%Z ∧
                  shp a = Sh2 (Z.to_nat (dims x).1) (Z.to_nat (dims x).2) ∧
                  valid a) arrays l.
Proof.
  revert g g' arrays. induction l as [|x l IH]; intros g g' arrays.
  { intros [= <- <-]. constructor. }
  rewrite mapM_state_cons.
  intros (a & g1 & Ha & (rest & g2 & Hrest & [= <- <-])%M_bind_Ok_inv)%M_bind_Ok_inv.
  constructor; [by eapply np_random_randn_inv|by eapply IH].
Qed.

Lemma nonneg_of_nat (l : list Z) :
  Forall (λ z, 0 ≤ z)%Z l → l = Z.of_nat <$> (Z.to_nat <$> l).
Proof.
  induction 1 as [|z l Hz _ IH]; [done|].
  cbn [fmap list_fmap]. f_equal; [lia|done].
Qed.

Lemma layered_of_Forall2 (n : nat) (ns : list nat) (bs ws : list (ndarray F)) :
  Forall2 (λ b m, shp b = Sh2 m 1) bs ns →
  Forall2 (λ w mn, shp w = Sh2 mn.1 mn.2) ws (zip ns (n :: ns)) →
  layered n ns bs ws.
Proof.
  revert n bs ws. induction ns as [|m ns IH]; intros n bs ws Hb Hw.
  { inversion Hb; subst. inversion Hw; subst. done. }
  inversion Hb as [|b ? bs' ? Hb1 Hbs]; subst.
  cbn [zip zip_with] in Hw. inversion Hw as [|w ? ws' ? Hw1 Hws]; subst.
  cbn [layered]. split; [done|]. split; [done|]. by apply IH.
Qed.

Lemma layered_lookup (n : nat) (ns : list nat) (bs ws : list (ndarray F)) (i : nat) :
  layered n ns bs ws → i < length ns →
  ∃ w b (r c : nat),
    (n :: ns) !! S i = Some r ∧ (n :: ns) !! i = Some c ∧
    ws !! i = Some w ∧ bs !! i = Some b ∧
    shp w = Sh2 r c ∧ shp b = Sh2 r 1.
Proof.
  revert n bs ws i. induction ns as [|m ns IH]; intros n [|b bs] [|w ws] i Hl Hi;
    try done; cbn [length] in Hi; [lia|].
  destruct Hl as (Hb & Hw & Hl). destruct i as [|i].
  - by exists w, b, m, n.
  - destruct (IH m bs ws i Hl) as (w' & b' & r & c & ?); [lia|].
    by exists w', b', r, c.
Qed.

Lemma M_bind_lift_Ok {A B : Type} (a : A) (k : A → M G B) (g : G) :
  (lift (Ok a) ≫= k) g = k a g.
Proof. done. Qed.

Lemma np_random_randn_raises (i j : Z) (g g' : G) (e : exn) :
  np_random_randn i j g = (Raise e, g') → e = ValueError.
Proof.
  unfold np_random_randn. destruct (decide _); [by intros [= <- _]|].
  by destruct (draws _ g).
Qed.

Lemma mapM_randn_raises {A : Type} (dims : A → Z * Z) (l : list A) (g g' : G)
    (e : exn) :
  mapM (λ x, np_random_randn (dims x).1 (dims x).2) l g = (Raise e, g') →
  e = ValueError.
Proof.
  revert g g'. induction l as [|x l IH]; intros g g'; [done|].
  rewrite mapM_state_cons. unfold mbind at 1, M_bind at 1.
  destruct (np_random_randn _ _ g) as [[a|e'] g1] eqn:Ha.
  - unfold mbind at 1, M_bind at 1.
    destruct (mapM (M:=M G) _ l g1) as [[rest|e''] g2] eqn:Hrest; [done|].
    intros [= <- _]. by eapply IH.
  - intros [= <- _]. by eapply np_random_randn_raises.
Qed.

Lemma mapM_randn_ok {A : Type} (dims : A → Z * Z) (l : list A) (g : G) :
  Forall (λ x, 0 ≤ (dims x).1 ∧ 0 ≤ (dims x).2)%Z l →
  ∃ arrays g', mapM (λ x, np_random_randn (dims x).1 (dims x).2) l g
               = (Ok arrays, g').
Proof.
  intros Hl. revert g. induction Hl as [|x l [Hi Hj] _ IH]; intros g.
  { by exists [], g. }
  rewrite mapM_state_cons. unfold mbind at 1, M_bind at 1.
  unfold np_random_randn at 1. rewrite decide_False by lia.
  destruct (draws _ g) as [vs g1]. destruct (IH g1) as (arrays & g2 & Hrest).
  unfold mbind at 1, M_bind at 1. rewrite Hrest. by eexists _, _.
Qed.

Lemma py_index_last {A : Type} (x : A) (l : list A) :
  py_index (x :: l) (-1) = Ok (default x (last l)).
Proof.
  apply (py_index_neg _ 1); cbn [length]; [lia|].
  replace (S (length l) - 1) with (length l) by lia.
  destruct l as [|y l _] using rev_ind; [done|].
  rewrite last_snoc, length_app. cbn [length default].
  rewrite lookup_cons_ne_0 by lia.
  replace (Init.Nat.pred (length l + 1)) with (length l) by lia.
  by rewrite list_lookup_middle.
Qed.

Lemma zip_layer_dims (n : nat) (ns : list nat) :
  zip (Z.of_nat <$> ns) (py_init (Z.of_nat <$> (n :: ns)))
  = prod_map Z.of_nat Z.of_nat <$> zip ns (n :: ns).
Proof.
  unfold py_init. rewrite length_fmap. cbn [length].
  replace (S (length ns) - 1) with (length (Z.of_nat <$> ns))
    by (rewrite length_fmap; lia).
  rewrite (zip_with_take_r pair). symmetry. apply prod_map_zip.
Qed.

(** What a successful construction leaves. *)
Lemma init_inv (sizes : list Z) (g g' : G) (net : Network F) :
  init sizes g = (Ok net, g') →
  ∃ (n : nat) (ns : list nat),
    sizes = Z.of_nat <$> (n :: ns) ∧ n = 784 ∧ last_size n ns = 10 ∧
    wf_net net n ns ∧ valid_net net.
Proof.
  destruct sizes as [|s0 rest].
  { unfold init. by rewrite py_index_empty. }
  unfold init. rewrite py_index_0, M_bind_lift_Ok.
  destruct (decide (s0 ≠ 784%Z)) as [|Hs0%dec_stable]; [done|].
  rewrite py_index_last, M_bind_lift_Ok.
  destruct (decide (default s0 (last rest) ≠ 10%Z)) as [|Hlast%dec_stable]; [done|].
  intros (bs & g1 & Hbs & (ws & g2 & Hws & [= <- <-])%M_bind_Ok_inv)%M_bind_Ok_inv.
  apply (mapM_randn_inv (λ i, (i, 1%Z))) in Hbs.
  apply (mapM_randn_inv (λ ij, ij)) in Hws.
  unfold py_tail in *. cbn [drop] in *. rewrite drop_0 in *.
  assert (Forall (λ z, 0 ≤ z)%Z rest) as Hnonneg.
  { apply Forall_forall. intros z Hz.
    apply list_elem_of_lookup in Hz as [i Hi].
    destruct (Forall2_lookup_r _ _ _ _ _ Hbs Hi) as (b & _ & Hb). tauto. }
  set (ns := Z.to_nat <$> rest).
  assert (rest = Z.of_nat <$> ns) as Hrest by (by apply nonneg_of_nat).
  exists 784, ns.
  assert (s0 :: rest = Z.of_nat <$> (784 :: ns)) as Hsizes.
  { cbn [fmap list_fmap]. by rewrite <- Hrest, Hs0. }
  assert (ns ≠ []) as Hne.
  { intros Hnil. rewrite Hnil in Hrest. subst rest. cbn in Hlast. lia. }
  split; [done|]. split; [done|]. split.
  { unfold last_size. rewrite Hrest in Hlast. rewrite fmap_last in Hlast.
    destruct (last ns) as [m|]; cbn in Hlast |- *; lia. }
  split.
  - split; cbn [nlayers layersz biases weights]; try done.
    apply layered_of_Forall2.
    + rewrite Hrest in Hbs. apply Forall2_fmap_r in Hbs.
      eapply Forall2_impl; [exact Hbs|]. cbn. intros b m (_ & _ & Hb & _).
      by rewrite Nat2Z.id in Hb.
    + rewrite Hsizes, Hrest, zip_layer_dims in Hws. apply Forall2_fmap_r in Hws.
      eapply Forall2_impl; [exact Hws|]. intros w [m n] (_ & _ & Hw & _).
      cbn [prod_map fst snd] in Hw. by rewrite !Nat2Z.id in Hw.
  - split; cbn [biases weights].
    + eapply Forall2_Forall_l; [exact Hbs|]. apply Forall_true. tauto.
    + eapply Forall2_Forall_l; [exact Hws|]. apply Forall_true. tauto.
Qed.

Lemma init_raises (sizes : list Z) (g g' : G) (msg : string) :
  init sizes g = (Raise (RuntimeError msg), g') →
  head sizes ≠ Some 784%Z ∨ last sizes ≠ Some 10%Z.
Proof.
  destruct sizes as [|s0 rest].
  { unfold init. by rewrite py_index_empty. }
  unfold init. rewrite py_index_0, M_bind_lift_Ok.
  destruct (decide (s0 ≠ 784%Z)) as [Hs0|_].
  { intros _. left. cbn. congruence. }
  rewrite py_index_last, M_bind_lift_Ok.
  destruct (decide (default s0 (last rest) ≠ 10%Z)) as [Hlast|_].
  { intros _. right. rewrite last_cons. destruct (last rest); cbn in *; congruence. }
  unfold mbind at 1, M_bind at 1.
  destruct (mapM (M:=M G) _ _ g) as [[bs|e] g1] eqn:Hbs.
  - unfold mbind at 1, M_bind at 1.
    destruct (mapM (M:=M G) _ _ g1) as [[ws|e] g2] eqn:Hws; [done|].
    by apply (mapM_randn_raises (λ ij, ij)) in Hws as ->.
  - by apply (mapM_randn_raises (λ i, (i, 1%Z))) in Hbs as ->.
Qed.

Lemma init_rejects (sizes : list Z) (g : G) :
  sizes ≠ [] → head sizes ≠ Some 784%Z ∨ last sizes ≠ Some 10%Z →
  raises_RuntimeError (init sizes g).1.
Proof.
  destruct sizes as [|s0 rest]; [done|]. intros _ Hbad.
  unfold init. rewrite py_index_0, M_bind_lift_Ok.
  destruct (decide (s0 ≠ 784%Z)) as [Hs0|Hs0%dec_stable]; [by eexists|].
  rewrite py_index_last, M_bind_lift_Ok.
  destruct (decide (default s0 (last rest) ≠ 10%Z)) as [Hlast|Hlast%dec_stable];
    [by eexists|].
  exfalso. destruct Hbad as [Hbad|Hbad]; apply Hbad.
  - cbn. by rewrite Hs0.
  - rewrite last_cons. destruct (last rest); cbn in *; by rewrite Hlast.
Qed.

Lemma init_ok (sizes : list Z) (g : G) :
  head sizes = Some 784%Z → last sizes = Some 10%Z →
  Forall (λ z, 0 ≤ z)%Z sizes →
  ∃ net g', init sizes g = (Ok net, g').
Proof.
  destruct sizes as [|s0 rest]; [done|]. intros [= ->] Hlast Hnonneg.
  unfold init. rewrite py_index_0, M_bind_lift_Ok.
  rewrite decide_False by (by intros ?).
  rewrite py_index_last, M_bind_lift_Ok.
  rewrite decide_False.
  2: { rewrite last_cons in Hlast. intros Hne. apply Hne.
       destruct (last rest); cbn in *; congruence. }
  destruct (mapM_randn_ok (λ i, (i, 1%Z)) (py_tail (784%Z :: rest)) g)
    as (bs & g1 & Hbs).
  { unfold py_tail. cbn [drop]. rewrite drop_0.
    apply Forall_cons_1 in Hnonneg as [_ Hrest].
    eapply Forall_impl; [exact Hrest|]. cbn. lia. }
  destruct (mapM_randn_ok (λ ij, ij)
              (zip (py_tail (784%Z :: rest)) (py_init (784%Z :: rest))) g1)
    as (ws & g2 & Hws).
  { apply Forall_forall. intros [i j] Hij.
    apply list_elem_of_lookup in Hij as [k Hk].
    apply lookup_zip_with_Some in Hk as (i' & j' & [= <- <-] & Hi & Hj).
    apply list_elem_of_lookup_2 in Hi, Hj.
    apply (elem_of_sublist _ (784%Z :: rest)) in Hi; [|apply sublist_drop].
    apply (elem_of_sublist _ (784%Z :: rest)) in Hj; [|apply sublist_take].
    rewrite Forall_forall in Hnonneg. cbn [fst snd]. split; by apply Hnonneg. }
  unfold mbind at 1, M_bind at 1. cbn [fst snd] in Hbs. rewrite Hbs.
  unfold mbind at 1, M_bind at 1. cbn [fst snd] in Hws. rewrite Hws.
  by eexists _, _.
Qed.

(** C6. For a non-empty sequence of layer sizes: the constructor raises its
    [RuntimeError] exactly when the first size is not 784 or the last one is
    not 10; when it returns a network, that network has one weight matrix
    and one bias vector per layer transition, weight matrix [i] of shape
    [(layersz[i+1], layersz[i])] and bias vector [i] of shape
    [(layersz[i+1], 1)], each holding as many entries as its shape says;
    and it does return a network when the two constraints hold and no size
    is negative. *)
Theorem init_configuration_error_and_shapes (sizes : list Z) (g : G) :
  sizes ≠ [] →
  (raises_RuntimeError (init sizes g).1
   ↔ head sizes ≠ Some 784%Z ∨ last sizes ≠ Some 10%Z) ∧
  (∀ (net : Network F) (g' : G), init sizes g = (Ok net, g') →
     layersz net = sizes ∧
     nlayers net = Z.of_nat (length sizes) ∧
     length (weights net) = length sizes - 1 ∧
     length (biases net) = length sizes - 1 ∧
     ∀ i, S i < length sizes →
       ∃ (w b : ndarray F) (r c : Z),
         sizes !! S i = Some r ∧ sizes !! i = Some c ∧
         weights net !! i = Some w ∧ biases net !! i = Some b ∧
         shape_tuple (shp w) = [r; c] ∧ shape_tuple (shp b) = [r; 1%Z] ∧
         valid w ∧ valid b) ∧
  (head sizes = Some 784%Z → last sizes = Some 10%Z →
   Forall (λ z, 0 ≤ z)%Z sizes →
   ∃ (net : Network F) (g' : G), init sizes g = (Ok net, g')).
Proof.
  intros Hne. split; [|split].
  - split; [|by apply init_rejects].
    intros [msg Hmsg]. destruct (init sizes g) as [r g'] eqn:Hinit.
    cbn [fst] in Hmsg. subst r. by eapply init_raises.
  - intros net g' Hinit.
    destruct (init_inv sizes g g' net Hinit)
      as (n & ns & -> & _ & _ & [Hnl Hlz _ Hl] & [Hvb Hvw]).
    destruct (layered_lengths _ _ _ _ Hl) as [Hlb Hlw].
    rewrite length_fmap in *. cbn [length] in *.
    split; [done|]. split; [by rewrite Hnl, Hlz, length_fmap|].
    split; [lia|]. split; [lia|]. intros i Hi.
    destruct (layered_lookup n ns _ _ i Hl) as (w & b & r & c & Hr & Hc & Hw & Hb & Hsw & Hsb);
      [lia|].
    exists w, b, (Z.of_nat r), (Z.of_nat c).
    rewrite !list_lookup_fmap, Hr, Hc, Hsw, Hsb.
    repeat split; try done.
    + rewrite Forall_forall in Hvw. by apply Hvw, list_elem_of_lookup_2 with i.
    + rewrite Forall_forall in Hvb. by apply Hvb, list_elem_of_lookup_2 with i.
  - apply init_ok.
Qed.

End Construction.

(** ** Training *)

Section TrainingFacts.
Context {F G : Type} `{Scalar F} `{RandomState F G}.
Implicit Types s : sgd_state F G.
Implicit Types td : list (example F).

(** C7. With an epoch count of zero the loop of [SGD] has no turn: the call
    returns with the state it started from, so every weight matrix and
    every bias vector is unchanged, whatever the training set, the batch
    size, the learning rate and the test data. *)
Theorem SGD_zero_epochs_changes_nothing
    (batchsz : Z) (eta : F) (test_data : option (list (labelled F))) s :
  SGD 0 batchsz eta test_data s = (Ok tt, s) ∧
  weights (self (SGD 0 batchsz eta test_data s).2) = weights (self s) ∧
  biases (self (SGD 0 batchsz eta test_data s).2) = biases (self s).
Proof. done. Qed.

(** *** Batches *)

Lemma batches_from_S td (b fuel k : nat) :
  batches_from td b (S fuel) k
  = if decide (k < length td)
    then py_slice td k b :: batches_from td b fuel (k + b)
    else [].
Proof. unfold batches_from. cbn [offsets]. by destruct (decide _). Qed.

Lemma batches_from_partition td (b fuel k : nat) :
  0 < b → length td ≤ fuel + k →
  concat (batches_from td b fuel k) = drop k td ∧
  Forall (λ batch, 0 < length batch ≤ b) (batches_from td b fuel k) ∧
  (∀ i batch, batches_from td b fuel k !! i = Some batch →
     S i < length (batches_from td b fuel k) → length batch = b).
Proof.
  intros Hb. revert k. induction fuel as [|fuel IH]; intros k Hfuel.
  { unfold batches_from. cbn [offsets fmap list_fmap concat].
    rewrite drop_ge by lia. split; [done|]. split; [constructor|]. by intros []. }
  rewrite batches_from_S. destruct (decide (k < length td)) as [Hk|Hk].
  2: { rewrite drop_ge by lia. split; [done|]. split; [constructor|]. by intros []. }
  destruct (IH (k + b)) as (Hcat & Hlen & Hfull); [lia|].
  assert (length (py_slice td k b) = b `min` (length td - k)) as Hslice
    by (unfold py_slice; by rewrite length_take, length_drop).
  split; [|split].
  - cbn [concat]. rewrite Hcat. unfold py_slice.
    rewrite <- (take_drop b (drop k td)) at 2. by rewrite drop_drop.
  - constructor; [lia|done].
  - intros [|i] batch; cbn [lookup list_lookup length].
    + intros [= <-] Hmore. rewrite Hslice.
      destruct fuel as [|fuel']; [cbn in Hmore; lia|].
      rewrite batches_from_S in Hmore.
      destruct (decide (k + b < length td)); [lia|cbn in Hmore; lia].
    + intros Hi Hmore. apply (Hfull i batch Hi). lia.
Qed.

Lemma concat_length_full_batches {A : Type} (batches : list (list A)) (b : nat)
    (lastb : list A) :
  (∀ i batch, batches !! i = Some batch → S i < length batches →
     length batch = b) →
  last batches = Some lastb →
  length (concat batches) = b * (length batches - 1) + length lastb.
Proof.
  induction batches as [|x batches IH]; [done|]. intros Hfull Hlast.
  destruct batches as [|y batches].
  { injection Hlast as <-. cbn. rewrite length_app. cbn. lia. }
  cbn [concat]. rewrite length_app. cbn [concat] in IH. rewrite IH.
  - rewrite (Hfull 0 x) by (done || cbn; lia). cbn [length]. lia.
  - intros i batch Hi Hmore. apply (Hfull (S i) batch Hi). cbn [length] in *. lia.
  - by rewrite last_cons_cons in Hlast.
Qed.

Lemma make_batches_ok td (batchsz : Z) :
  (0 < batchsz)%Z →
  make_batches td batchsz
  = Ok (batches_from td (Z.to_nat batchsz) (length td) 0).
Proof.
  intros Hb. unfold make_batches, py_range_step.
  rewrite decide_False by lia. rewrite decide_False by lia. done.
Qed.

(** An epoch with a positive batch size, when the shuffle has left the
    training set as [td] and the generator as [g']: the batches are
    consecutive slices of [td]. *)
Lemma epoch_partition
    (batchsz : Z) (eta : F) (test_data : option (list (labelled F)))
    (j : Z) s td (g' : G) :
  (0 < batchsz)%Z →
  rs_shuffle (training_data s) (rng s) = (td, g') →
  ∃ batches,
    make_batches td batchsz = Ok batches ∧
    epoch batchsz eta test_data j s
    = (_ ← for_each batches (update_batch eta); end_of_epoch j test_data)
        {| self := self s; rng := g'; training_data := td; stdout := stdout s |} ∧
    concat batches = td ∧
    Forall (λ batch, 0 < length batch ≤ Z.to_nat batchsz) batches ∧
    (∀ i batch, batches !! i = Some batch → S i < length batches →
       length batch = Z.to_nat batchsz) ∧
    (∀ lastb, last batches = Some lastb →
       length (training_data s)
       = Z.to_nat batchsz * (length batches - 1) + length lastb).
Proof.
  intros Hb Hsh.
  assert (td ≡ₚ training_data s) as Hperm.
  { pose proof (rs_shuffle_perm _ (training_data s) (rng s)) as Hp.
    by rewrite Hsh in Hp. }
  exists (batches_from td (Z.to_nat batchsz) (length td) 0).
  destruct (batches_from_partition td (Z.to_nat batchsz) (length td) 0)
    as (Hcat & Hlen & Hfull); [lia|lia|].
  rewrite drop_0 in Hcat.
  split; [by apply make_batches_ok|]. split.
  { unfold epoch. unfold mbind at 1, M_bind at 1.
    unfold shuffle_training_data at 1. rewrite Hsh.
    unfold mbind at 1, M_bind at 1, get at 1.
    unfold mbind at 1, M_bind at 1, lift at 1.
    cbn [training_data]. by rewrite make_batches_ok. }
  split; [done|]. split; [done|]. split; [done|].
  intros lastb Hlast.
  rewrite <- (Permutation_length Hperm), <- Hcat at 1.
  by apply concat_length_full_batches.
Qed.

(** *** The update of a batch *)

Lemma zipM_np_zip (f : F → F → F) (l k : list (ndarray F)) :
  same_shapes l k →
  zipM (np_zip f) l k
  = Ok (zip_with (λ a b, mk_ndarray (shp a) (zip_with f (data a) (data b))) l k).
Proof.
  induction 1 as [|a b l k Hab _ IH]; [done|].
  cbn [zipM zip_with]. rewrite np_zip_same by done. mstep. rewrite IH. by mstep.
Qed.

Lemma same_shapes_zip_with (f : ndarray F → ndarray F → ndarray F)
    (l k : list (ndarray F)) :
  (∀ a b, shp (f a b) = shp a) → same_shapes l k →
  same_shapes (zip_with f l k) l.
Proof.
  intros Hf. induction 1 as [|a b l k Hab _ IH]; [constructor|].
  cbn [zip_with]. by constructor.
Qed.

Lemma same_shapes_sym (l k : list (ndarray F)) : same_shapes l k → same_shapes k l.
Proof. induction 1; by constructor. Qed.

Lemma same_shapes_trans (l k m : list (ndarray F)) :
  same_shapes l k → same_shapes k m → same_shapes l m.
Proof. apply Forall2_trans. congruence. Qed.

Lemma same_shapes_zeros (l : list (ndarray F)) :
  same_shapes ((λ a, np_zeros (shp a)) <$> l) l.
Proof. induction l; by constructor. Qed.

Lemma descend_eq (e : F) (p g : ndarray F) :
  descend e p g = np_zip fsub p (np_map (fmul e) g).
Proof. done. Qed.

Lemma zipM_descend (eta : F) (count : nat) (ps gs : list (ndarray F)) :
  same_shapes ps gs →
  zipM (descend (fdiv eta (fofZ (Z.of_nat count)))) ps gs
  = Ok (zip_with (spec_updated eta count) ps gs).
Proof.
  induction 1 as [|p g ps gs Hpg _ IH]; [done|].
  cbn [zipM zip_with]. rewrite descend_eq.
  rewrite np_zip_same by done. mstep. rewrite IH. mstep.
  unfold spec_updated at 2. cbn [np_map data]. by rewrite zip_with_fmap_r.
Qed.

Lemma layered_same_shapes (n : nat) (sizes : list nat) (bs ws bs' ws' : list (ndarray F)) :
  layered n sizes bs ws → same_shapes bs' bs → same_shapes ws' ws →
  layered n sizes bs' ws'.
Proof.
  revert n bs ws bs' ws'.
  induction sizes as [|m sizes IH]; intros n [|b bs] [|w ws] bs' ws' Hl Hb Hw;
    try done; inversion Hb; inversion Hw; subst; [done|].
  destruct Hl as (Hsb & Hsw & Hl). cbn [layered].
  split; [congruence|]. split; [congruence|]. by eapply IH.
Qed.

Lemma accumulate_eq (net : Network F) (acc : list (ndarray F) * list (ndarray F))
    (xy : example F) :
  accumulate net acc xy
  = (g ← backpropagate net xy.1 xy.2; spec_add_gradients acc g).
Proof. done. Qed.

Lemma spec_add_gradients_ok (acc g : list (ndarray F) * list (ndarray F)) :
  same_shapes acc.1 g.1 → same_shapes acc.2 g.2 →
  spec_add_gradients acc g
  = Ok (zip_with (λ a b, mk_ndarray (shp a) (zip_with fadd (data a) (data b)))
          acc.1 g.1,
        zip_with (λ a b, mk_ndarray (shp a) (zip_with fadd (data a) (data b)))
          acc.2 g.2).
Proof.
  intros Hb Hw. unfold spec_add_gradients, np_add.
  rewrite !zipM_np_zip by done. by mstep.
Qed.

(** The sums of a batch, by the code and by the specification. *)
Lemma foldM_accumulate (net : Network F) (n : nat) (sizes : list nat)
    (batch : list (example F)) (acc : list (ndarray F) * list (ndarray F)) :
  wf_net net n sizes →
  Forall (λ xy, column n xy.1 ∧ column (last_size n sizes) xy.2) batch →
  same_shapes acc.1 (biases net) → same_shapes acc.2 (weights net) →
  ∃ sums,
    foldM (accumulate net) acc batch = Ok sums ∧
    foldM (λ acc xy, g ← spec_backprop (weights net) (biases net) xy.1 xy.2;
                     spec_add_gradients acc g) acc batch = Ok sums ∧
    same_shapes sums.1 (biases net) ∧ same_shapes sums.2 (weights net).
Proof.
  intros Hwf Hbatch. revert acc.
  induction Hbatch as [|[x y] batch [Hx Hy] _ IH]; intros [bsum wsum] Hbs Hws.
  { exists (bsum, wsum). by repeat split. }
  cbn [fst snd] in *.
  destruct (backpropagate_spec net n sizes x y Hwf Hx Hy)
    as (gb & gw & Hcode & Hspec & Hgb & Hgw).
  assert (same_shapes bsum gb) as Hbg
    by (eapply same_shapes_trans; [done|by apply same_shapes_sym]).
  assert (same_shapes wsum gw) as Hwg
    by (eapply same_shapes_trans; [done|by apply same_shapes_sym]).
  cbn [foldM]. rewrite accumulate_eq. cbn [fst snd].
  rewrite Hcode, Hspec. mstep.
  rewrite (spec_add_gradients_ok (bsum, wsum) (gb, gw)) by done. mstep.
  apply IH; cbn [fst snd].
  - eapply same_shapes_trans; [|exact Hbs]. by apply same_shapes_zip_with.
  - eapply same_shapes_trans; [|exact Hws]. by apply same_shapes_zip_with.
Qed.

(** The update of one batch against the specification. *)
Lemma update_batch_spec
    (eta : F) (batch : list (example F)) (n : nat) (sizes : list nat) s :
  wf_net (self s) n sizes → batch ≠ [] →
  Forall (λ xy, column n xy.1 ∧ column (last_size n sizes) xy.2) batch →
  ∃ gb gw,
    spec_gradient_sum (self s) batch = Ok (gb, gw) ∧
    update_batch eta batch s
    = (Ok tt,
       {| self := {| nlayers := nlayers (self s);
                     layersz := layersz (self s);
                     biases := zip_with (spec_updated eta (length batch))
                                 (biases (self s)) gb;
                     weights := zip_with (spec_updated eta (length batch))
                                  (weights (self s)) gw |};
          rng := rng s;
          training_data := training_data s;
          stdout := stdout s |}) ∧
    wf_net (self (update_batch eta batch s).2) n sizes.
Proof.
  intros Hwf Hne Hbatch.
  destruct (foldM_accumulate (self s) n sizes batch
              ((λ b, np_zeros (shp b)) <$> biases (self s),
               (λ w, np_zeros (shp w)) <$> weights (self s)) Hwf Hbatch)
    as ([gb gw] & Hcode & Hspec & Hgb & Hgw); try apply same_shapes_zeros.
  cbn [fst snd] in *. exists gb, gw. split; [exact Hspec|].
  assert (update_batch eta batch s
    = (Ok tt,
       {| self := {| nlayers := nlayers (self s);
                     layersz := layersz (self s);
                     biases := zip_with (spec_updated eta (length batch))
                                 (biases (self s)) gb;
                     weights := zip_with (spec_updated eta (length batch))
                                  (weights (self s)) gw |};
          rng := rng s;
          training_data := training_data s;
          stdout := stdout s |})) as Hupd.
  { unfold update_batch. unfold mbind at 1, M_bind at 1, get at 1.
    unfold mbind at 1, M_bind at 1, lift at 1. rewrite Hcode.
    unfold mbind at 1, M_bind at 1, lift at 1, scale_eta.
    rewrite decide_False by (by destruct batch).
    unfold mbind at 1, M_bind at 1, lift at 1. cbn [fst snd].
    rewrite zipM_descend by (by apply same_shapes_sym).
    unfold mbind at 1, M_bind at 1, put at 1.
    unfold mbind at 1, M_bind at 1, get at 1.
    unfold mbind at 1, M_bind at 1, lift at 1.
    cbn [set_weights self biases].
    rewrite zipM_descend by (by apply same_shapes_sym).
    done. }
  split; [exact Hupd|]. rewrite Hupd. cbn [snd self].
  destruct Hwf as [Hnl Hlz Hsz Hl]. split; cbn [nlayers layersz biases weights]; try done.
  eapply layered_same_shapes; [exact Hl|..];
    apply same_shapes_zip_with; by try apply same_shapes_sym.
Qed.

Lemma spec_batch_step_ok (eta : F) (net : Network F) (batch : list (example F))
    (gb gw : list (ndarray F)) :
  spec_gradient_sum net batch = Ok (gb, gw) →
  spec_batch_step eta net batch
  = Ok {| nlayers := nlayers net;
          layersz := layersz net;
          biases := zip_with (spec_updated eta (length batch)) (biases net) gb;
          weights := zip_with (spec_updated eta (length batch)) (weights net) gw |}.
Proof. intros Hsum. unfold spec_batch_step. by rewrite Hsum. Qed.

(** The batches of an epoch, one after the other. *)
Lemma for_each_update_batch
    (eta : F) (batches : list (list (example F))) (n : nat) (sizes : list nat) s :
  wf_net (self s) n sizes →
  Forall (λ batch, batch ≠ [] ∧
            Forall (λ xy, column n xy.1 ∧ column (last_size n sizes) xy.2) batch)
    batches →
  ∃ net',
    foldM (spec_batch_step eta) (self s) batches = Ok net' ∧
    for_each batches (update_batch eta) s = (Ok tt, with_self s net') ∧
    wf_net net' n sizes.
Proof.
  intros Hwf Hbatches. revert s Hwf.
  induction Hbatches as [|batch batches [Hne Hshaped] _ IH]; intros s Hwf.
  { exists (self s). split; [done|]. split; [by destruct s|done]. }
  destruct (update_batch_spec eta batch n sizes s Hwf Hne Hshaped)
    as (gb & gw & Hsum & Hupd & Hwf').
  rewrite Hupd in Hwf'. cbn [snd] in Hwf'.
  cbn [foldM for_each]. rewrite (spec_batch_step_ok _ _ _ _ _ Hsum). mstep.
  unfold mbind at 1, M_bind at 1. rewrite Hupd.
  match goal with |- context [for_each batches _ ?s1] =>
    destruct (IH s1 Hwf') as (net' & Hspec & Hloop & Hwfn) end.
  exists net'. split; [exact Hspec|]. split; [|exact Hwfn].
  rewrite Hloop. done.
Qed.

(** The training part of an epoch: on a well-formed network, with a positive
    batch size and well-shaped examples, every batch of the epoch, the short
    last one included, is applied as the specification says. *)
Lemma epoch_updates_follow_spec
    (batchsz : Z) (eta : F) (n : nat) (sizes : list nat) s :
  (0 < batchsz)%Z → wf_net (self s) n sizes →
  Forall (λ xy, column n xy.1 ∧ column (last_size n sizes) xy.2) (training_data s) →
  ∃ batches net',
    make_batches (training_data (shuffle_training_data s).2) batchsz = Ok batches ∧
    foldM (spec_batch_step eta) (self s) batches = Ok net' ∧
    for_each batches (update_batch eta) (shuffle_training_data s).2
    = (Ok tt, with_self (shuffle_training_data s).2 net') ∧
    wf_net net' n sizes.
Proof.
  intros Hb Hwf Hshaped.
  assert (self (shuffle_training_data s).2 = self s ∧
          training_data (shuffle_training_data s).2 ≡ₚ training_data s)
    as [Hself Hperm].
  { unfold shuffle_training_data.
    pose proof (rs_shuffle_perm _ (training_data s) (rng s)) as Hp.
    by destruct (rs_shuffle (training_data s) (rng s)). }
  set (s1 := (shuffle_training_data s).2) in *.
  rewrite <- Hperm in Hshaped. rewrite <- Hself in Hwf |- *.
  destruct (batches_from_partition (training_data s1) (Z.to_nat batchsz)
              (length (training_data s1)) 0) as (_ & Hlen & _); [lia|lia|].
  destruct (for_each_update_batch eta
              (batches_from (training_data s1) (Z.to_nat batchsz)
                 (length (training_data s1)) 0) n sizes s1 Hwf)
    as (net' & Hspec & Hloop & Hwf').
  { apply Forall_forall. intros batch Hin. split.
    - rewrite Forall_forall in Hlen. specialize (Hlen batch Hin).
      intros ->. cbn in Hlen. lia.
    - unfold batches_from in Hin. apply list_elem_of_fmap in Hin as (k & -> & _).
      unfold py_slice. by apply Forall_take, Forall_drop. }
  eexists _, net'. split; [by apply make_batches_ok|]. by split.
Qed.

(** C2. On a well-formed network and a batch that is not empty and whose
    examples have the right shapes, the update of the batch goes through
    and replaces every weight and every bias by itself less
    [eta / len(batch)] times the sum of the gradients of the examples of the
    batch: the divisor is the number of examples of that very batch, also
    when the batch is the short last one (the configured batch size is not
    an input of the update); nothing else of the state changes, and the
    network is still well-formed for the next batch. *)
Theorem batch_update_divides_by_actual_batch_size
    (eta : F) (batch : list (example F)) (n : nat) (sizes : list nat) s :
  wf_net (self s) n sizes → batch ≠ [] →
  Forall (λ xy, column n xy.1 ∧ column (last_size n sizes) xy.2) batch →
  ∃ gb gw,
    spec_gradient_sum (self s) batch = Ok (gb, gw) ∧
    update_batch eta batch s
    = (Ok tt,
       {| self := {| nlayers := nlayers (self s);
                     layersz := layersz (self s);
                     biases := zip_with (spec_updated eta (length batch))
                                 (biases (self s)) gb;
                     weights := zip_with (spec_updated eta (length batch))
                                  (weights (self s)) gw |};
          rng := rng s;
          training_data := training_data s;
          stdout := stdout s |}) ∧
    wf_net (self (update_batch eta batch s).2) n sizes.
Proof. apply update_batch_spec. Qed.

End TrainingFacts.

(** ** The shuffle of numpy *)

Section Shuffle.
Context {A : Type}.
Implicit Types x y p t : list A.
Implicit Types js : list nat.

Lemma length_swap x (i j : nat) : length (swap x i j) = length x.
Proof.
  unfold swap. destruct (x !! i), (x !! j); try done.
  by rewrite !length_insert.
Qed.

Lemma swap_Permutation x (i j : nat) : swap x i j ≡ₚ x.
Proof.
  unfold swap. destruct (x !! i) eqn:Hi; [|done]. destruct (x !! j) eqn:Hj; [|done].
  by apply Permutation_insert_swap.
Qed.

Lemma swap_app x t (i j : nat) :
  i < length x → j < length x → swap (x ++ t) i j = swap x i j ++ t.
Proof.
  intros Hi Hj. unfold swap. rewrite !lookup_app_l by done.
  destruct (x !! i), (x !! j); try done.
  rewrite (insert_app_l x t i) by done.
  by rewrite insert_app_l by (by rewrite length_insert).
Qed.

(** With [j ≤ i] and [i] the last index, the swap puts entry [j] last. *)
Lemma swap_last x (i j : nat) b :
  length x = S i → x !! j = Some b →
  ∃ p, swap x i j = p ++ [b] ∧ length p = i.
Proof.
  intros Hlen Hj.
  assert (swap x i j !! i = Some b) as Hlast.
  { unfold swap. destruct (lookup_lt_is_Some_2 x i) as [a Hi]; [lia|].
    rewrite Hi, Hj. destruct (decide (j = i)) as [->|Hne].
    - rewrite list_lookup_insert_eq by (rewrite length_insert; lia). congruence.
    - rewrite list_lookup_insert_ne by done.
      by rewrite list_lookup_insert_eq by lia. }
  exists (take i (swap x i j)). split.
  - rewrite <- (take_drop_middle _ _ _ Hlast) at 1.
    by rewrite (drop_ge _ (S i)) by (rewrite length_swap; lia).
  - rewrite length_take_le; [done|]. rewrite length_swap. lia.
Qed.

Lemma length_shuffle_with (i : nat) js x : length (shuffle_with i js x) = length x.
Proof.
  revert js x. induction i as [|i IH]; intros [|j js] x; try done.
  cbn [shuffle_with]. by rewrite IH, length_swap.
Qed.

Lemma shuffle_with_Permutation (i : nat) js x : shuffle_with i js x ≡ₚ x.
Proof.
  revert js x. induction i as [|i IH]; intros [|j js] x; try done.
  cbn [shuffle_with]. by rewrite IH, swap_Permutation.
Qed.

(** The loop from index [i] down leaves the entries after [i] alone. *)
Lemma shuffle_with_app (i : nat) js x t :
  draws_in_range i js → i < length x →
  shuffle_with i js (x ++ t) = shuffle_with i js x ++ t.
Proof.
  revert js x. induction i as [|i IH]; intros [|j js] x Hjs Hi; try done.
  destruct Hjs as [Hj Hjs]. cbn [shuffle_with].
  rewrite swap_app by lia. apply IH; [done|]. rewrite length_swap. lia.
Qed.

(** The loop with the generator is the loop with the integers that the
    generator draws. *)
Lemma shuffle_loop_draws {G : Type} (ri : nat → G → nat * G) (i : nat) x (g : G) :
  shuffle_loop ri i x g
  = (shuffle_with i (interval_draws ri i g).1 x, (interval_draws ri i g).2).
Proof.
  revert x g. induction i as [|i IH]; intros x g; [done|].
  cbn [shuffle_loop interval_draws]. destruct (ri (S i) g) as [j g'].
  rewrite IH. by destruct (interval_draws ri i g') as [js g''].
Qed.

Lemma interval_draws_in_range {G : Type} (ri : nat → G → nat * G) (i : nat) (g : G) :
  (∀ k g, (ri k g).1 ≤ k) → draws_in_range i (interval_draws ri i g).1.
Proof.
  intros Hle. revert g. induction i as [|i IH]; intros g; [done|].
  cbn [interval_draws]. pose proof (Hle (S i) g) as Hj.
  destruct (ri (S i) g) as [j g']. specialize (IH g').
  by destruct (interval_draws ri i g') as [js g''].
Qed.

(** Every order of a list without repetition comes from one sequence of
    draws, and from one only. *)
Lemma shuffle_with_unique (i : nat) x y :
  NoDup x → length x = S i → y ≡ₚ x →
  ∃ js, draws_in_range i js ∧ shuffle_with i js x = y ∧
        ∀ js', draws_in_range i js' → shuffle_with i js' x = y → js' = js.
Proof.
  revert x y. induction i as [|i IH]; intros x y Hnd Hlen Hperm.
  { destruct x as [|a [|? ?]]; try done. apply Permutation_singleton_r in Hperm.
    exists []. split; [done|]. split; [done|]. by intros [|? ?]. }
  assert (length y = S (S i)) as Hleny by (by rewrite Hperm).
  destruct (lookup_lt_is_Some_2 y (S i)) as [b Hb]; [lia|].
  assert (y = take (S i) y ++ [b]) as Hy.
  { rewrite <- (take_drop_middle _ _ _ Hb) at 1. by rewrite (drop_ge _ (S (S i))) by lia. }
  assert (∃ j, x !! j = Some b) as [j Hj].
  { apply list_elem_of_lookup. rewrite <- Hperm. by eapply list_elem_of_lookup_2. }
  pose proof (lookup_lt_Some _ _ _ Hj) as Hjlt.
  destruct (swap_last x (S i) j b Hlen Hj) as (p & Hp & Hlenp).
  assert (NoDup p) as Hndp.
  { assert (NoDup (p ++ [b])) as Hnd' by (by rewrite <- Hp, swap_Permutation).
    by apply NoDup_app in Hnd' as [? _]. }
  assert (take (S i) y ≡ₚ p) as Hperm'.
  { apply (Permutation_app_inv_r [b]). by rewrite <- Hy, <- Hp, swap_Permutation. }
  destruct (IH p (take (S i) y) Hndp Hlenp Hperm') as (js0 & Hjs0 & Hsh & Huniq).
  exists (j :: js0). split; [split; [lia|done]|]. split.
  { cbn [shuffle_with]. rewrite Hp, shuffle_with_app by (done || lia).
    by rewrite Hsh. }
  intros [|j' js1] Hjs' Hsh'; [done|]. destruct Hjs' as [Hj' Hjs1].
  cbn [shuffle_with] in Hsh'.
  destruct (lookup_lt_is_Some_2 x j') as [b' Hb']; [lia|].
  destruct (swap_last x (S i) j' b' Hlen Hb') as (p' & Hp' & Hlenp').
  rewrite Hp', shuffle_with_app in Hsh' by (done || lia).
  rewrite Hy in Hsh'. apply app_inj_tail in Hsh' as [Hsh' ->].
  assert (j' = j) as -> by exact (NoDup_lookup x j' j _ Hnd Hb' Hj).
  rewrite Hp in Hp'. apply app_inj_tail in Hp' as [-> _].
  f_equal. by apply Huniq.
Qed.

End Shuffle.

Lemma swap_fmap {A B : Type} (f : A → B) (x : list A) (i j : nat) :
  f <$> swap x i j = swap (f <$> x) i j.
Proof.
  unfold swap. rewrite !list_lookup_fmap.
  destruct (x !! i), (x !! j); try done. cbn [fmap option_fmap option_map].
  by rewrite !list_fmap_insert.
Qed.

Lemma shuffle_with_fmap {A B : Type} (f : A → B) (i : nat) (js : list nat) (x : list A) :
  f <$> shuffle_with i js x = shuffle_with i js (f <$> x).
Proof.
  revert js x. induction i as [|i IH]; intros [|j js] x; try done.
  cbn [shuffle_with]. by rewrite IH, swap_fmap.
Qed.

(** The shuffled list holds, at each position, the entry of the list at
    the position that the shuffle of the positions holds there. *)
Lemma shuffle_with_positions {A : Type} (i : nat) (js : list nat) (x : list A) :
  Some <$> shuffle_with i js x
  = (λ k, x !! k) <$> shuffle_with i js (seq 0 (length x)).
Proof.
  rewrite !shuffle_with_fmap. f_equal.
  apply list_eq. intros k. rewrite !list_lookup_fmap.
  destruct (decide (k < length x)) as [Hk|Hk].
  - rewrite lookup_seq_lt by done. destruct (lookup_lt_is_Some_2 x k Hk) as [a Ha].
    cbn. by rewrite Ha.
  - rewrite (lookup_ge_None_2 x), (lookup_ge_None_2 (seq _ _)); [done| |lia].
    rewrite length_seq. lia.
Qed.

Lemma elem_of_all_draws (i : nat) (js : list nat) :
  js ∈ all_draws i ↔ draws_in_range i js.
Proof.
  revert js. induction i as [|i IH]; intros js.
  { cbn [all_draws]. rewrite list_elem_of_singleton. by destruct js. }
  cbn [all_draws]. rewrite list_elem_of_bind. split.
  - intros (j & (js' & -> & Hjs')%list_elem_of_fmap & Hj%elem_of_seq).
    split; [lia|by apply IH].
  - destruct js as [|j js']; [done|]. intros [Hj Hjs']. exists j. split.
    + apply list_elem_of_fmap. exists js'. split; [done|by apply IH].
    + apply elem_of_seq. lia.
Qed.

Lemma NoDup_all_draws (i : nat) : NoDup (all_draws i).
Proof.
  induction i as [|i IH]; [apply NoDup_singleton|].
  cbn [all_draws]. apply NoDup_bind; [| |apply NoDup_seq].
  - intros j1 j2 js _ _ (js1 & -> & _)%list_elem_of_fmap (js2 & [= -> _] & _)%list_elem_of_fmap.
    done.
  - intros j _. apply NoDup_fmap_2; [|done]. by intros ?? [=].
Qed.

Lemma length_bind_const {A B : Type} (f : A → list B) (m : nat) (l : list A) :
  (∀ a, length (f a) = m) → length (l ≫= f) = length l * m.
Proof.
  intros Hf. induction l as [|a l IH]; [done|].
  rewrite bind_cons, length_app, Hf, IH. cbn [length]. lia.
Qed.

Lemma length_all_draws (i : nat) : length (all_draws i) = fact (S i).
Proof.
  induction i as [|i IH]; [done|].
  cbn [all_draws]. rewrite (length_bind_const _ (fact (S i))).
  - rewrite length_seq. change (fact (S (S i))) with (S (S i) * fact (S i)). done.
  - intros j. by rewrite length_fmap.
Qed.

(** Each order of the positions is given by exactly one of the sequences
    of draws. *)
Lemma draws_giving_one (n : nat) (order : list nat) :
  order ≡ₚ seq 0 n → draws_giving n order = 1.
Proof.
  intros Hperm. unfold draws_giving.
  destruct n as [|i].
  { apply Permutation_nil_r in Hperm as ->. done. }
  replace (S i - 1) with i by lia.
  destruct (shuffle_with_unique i (seq 0 (S i)) order (NoDup_seq _ _))
    as (js0 & Hjs0 & Hsh & Huniq); [by rewrite length_seq|done|].
  set (hits := filter _ _).
  assert (NoDup hits) as Hnd by apply NoDup_filter, NoDup_all_draws.
  assert (∀ js, js ∈ hits ↔ js = js0) as Hhits.
  { intros js. unfold hits. rewrite list_elem_of_filter, elem_of_all_draws. split.
    - intros [Hjs Hin]. by apply Huniq.
    - by intros ->. }
  destruct hits as [|a [|b rest]].
  - by pose proof (proj2 (Hhits js0) eq_refl) as ?%elem_of_nil.
  - done.
  - assert (a = js0) as -> by (apply Hhits; left).
    assert (b = js0) as -> by (apply Hhits; right; left).
    apply NoDup_cons in Hnd as [Hnotin _]. destruct Hnotin. left.
Qed.

Section EpochShuffle.
Context {F G : Type} `{Scalar F} `{RandomState F G} `{!NumpyShuffle F G}.
Implicit Types s : sgd_state F G.

(** C8. An epoch with a positive batch size first shuffles the training
    set, of [n] examples, with numpy's loop: it draws one integer per index
    from [n - 1] down to 1, each from 0 to its index, and the shuffled set
    is the set rearranged by these draws, a permutation of it.  The
    permutation is uniform when the draws are: each of the [n!] orders of
    the positions is given by exactly one of the [n!] sequences of draws
    that the generator can make.  The shuffled set is then cut into
    consecutive batches that the loop visits in order: put end to end the
    batches give back the shuffled set, so that every example lies in
    exactly one batch; every batch but the last has the configured size,
    and the last one has the remaining examples, at least one and at most
    the configured size. *)
Theorem epoch_shuffles_then_partitions
    (batchsz : Z) (eta : F) (test_data : option (list (labelled F)))
    (j : Z) s :
  (0 < batchsz)%Z →
  ∃ (n : nat) (js : list nat) (g' : G) (td : list (example F)) batches,
    n = length (training_data s) ∧
    interval_draws random_interval (n - 1) (rng s) = (js, g') ∧
    draws_in_range (n - 1) js ∧
    td = shuffle_with (n - 1) js (training_data s) ∧
    Some <$> td = (λ k, training_data s !! k) <$> shuffle_with (n - 1) js (seq 0 n) ∧
    shuffle_with (n - 1) js (seq 0 n) ≡ₚ seq 0 n ∧
    (∀ order, order ≡ₚ seq 0 n → draws_giving n order = 1) ∧
    length (all_draws (n - 1)) = fact n ∧
    td ≡ₚ training_data s ∧
    make_batches td batchsz = Ok batches ∧
    epoch batchsz eta test_data j s
    = (_ ← for_each batches (update_batch eta); end_of_epoch j test_data)
        {| self := self s; rng := g'; training_data := td; stdout := stdout s |} ∧
    concat batches = td ∧
    Forall (λ batch, 0 < length batch ≤ Z.to_nat batchsz) batches ∧
    (∀ i batch, batches !! i = Some batch → S i < length batches →
       length batch = Z.to_nat batchsz) ∧
    (∀ lastb, last batches = Some lastb →
       length (training_data s)
       = Z.to_nat batchsz * (length batches - 1) + length lastb).
Proof.
  intros Hb.
  set (n := length (training_data s)).
  destruct (interval_draws random_interval (n - 1) (rng s)) as [js g'] eqn:Hdraws.
  assert (draws_in_range (n - 1) js) as Hrange.
  { pose proof (interval_draws_in_range random_interval (n - 1) (rng s)
                  random_interval_le) as Hr.
    by rewrite Hdraws in Hr. }
  assert (rs_shuffle (training_data s) (rng s)
          = (shuffle_with (n - 1) js (training_data s), g')) as Hsh.
  { rewrite rs_shuffle_numpy. unfold np_random_shuffle.
    fold n. by rewrite shuffle_loop_draws, Hdraws. }
  destruct (epoch_partition batchsz eta test_data j s _ _ Hb Hsh)
    as (batches & Hmk & Hepoch & Hcat & Hlen & Hfull & Hlast).
  exists n, js, g', (shuffle_with (n - 1) js (training_data s)), batches.
  split; [done|]. split; [done|]. split; [done|]. split; [done|].
  split; [apply shuffle_with_positions|].
  split; [apply shuffle_with_Permutation|].
  split; [apply draws_giving_one|].
  split.
  { destruct n as [|i]; [done|]. replace (S i - 1) with i by lia.
    apply length_all_draws. }
  split; [apply shuffle_with_Permutation|].
  done.
Qed.

End EpochShuffle.

(** ** The exponential of the sigmoid and the range of binary64 *)

Section ExpBounds.
Local Open Scope R_scope.

Lemma exp_mult_nat (x : R) (n : nat) : exp (INR n * x) = exp x ^ n.
Proof.
  induction n as [|n IH].
  - rewrite Rmult_0_l. apply exp_0.
  - rewrite S_INR, Rmult_plus_distr_r, Rmult_1_l, exp_plus, IH. simpl. ring.
Qed.

Lemma exp_le_mono (x y : R) : x <= y → exp x <= exp y.
Proof.
  intros [Hlt| ->]; [|apply Rle_refl]. left. by apply exp_increasing.
Qed.

Lemma exp_upper (h : R) : 0 <= h < 1 → exp h <= / (1 - h).
Proof.
  intros [Hh0 Hh1]. pose proof (exp_ineq1_le (- h)) as Hlow.
  pose proof (exp_pos (- h)) as Hpos.
  replace (exp h) with (/ exp (- h)) by (rewrite exp_Ropp, Rinv_inv; done).
  apply Rinv_le_contravar; lra.
Qed.

(** Bounds on [exp (2^n * x)] from a bound on [exp x], by [n] squarings of a
    numerator over [2^60] that is rounded down, or up, after each of them. *)
Lemma squared_lower_sound (n : nat) (a : Z) (x : R) :
  (0 <= a)%Z → IZR a / IZR (2 ^ 60) <= exp x →
  IZR (squared_lower n a) / IZR (2 ^ 60) <= exp (2 ^ n * x).
Proof.
  revert a x. induction n as [|n IH]; intros a x Ha Hx.
  { cbn [squared_lower pow]. by rewrite Rmult_1_l. }
  cbn [squared_lower]. replace (2 ^ S n * x) with (2 ^ n * (2 * x)) by (simpl; ring).
  assert (0 < IZR (2 ^ 60)) as HD by (by apply IZR_lt).
  apply IH; [apply Z.div_pos; lia|].
  replace (2 * x) with (x + x) by ring. rewrite exp_plus.
  apply Rle_trans with (IZR a / IZR (2 ^ 60) * (IZR a / IZR (2 ^ 60))).
  - apply (Rmult_le_reg_r (IZR (2 ^ 60))); [done|].
    replace (IZR (a * a / 2 ^ 60) / IZR (2 ^ 60) * IZR (2 ^ 60))
      with (IZR (a * a / 2 ^ 60)) by (field; lra).
    replace (IZR a / IZR (2 ^ 60) * (IZR a / IZR (2 ^ 60)) * IZR (2 ^ 60))
      with (IZR (a * a) / IZR (2 ^ 60)) by (rewrite mult_IZR; field; lra).
    apply (Rmult_le_reg_r (IZR (2 ^ 60))); [done|].
    replace (IZR (a * a) / IZR (2 ^ 60) * IZR (2 ^ 60)) with (IZR (a * a))
      by (field; lra).
    rewrite <- mult_IZR. apply IZR_le. rewrite Z.mul_comm.
    apply Z.mul_div_le. lia.
  - assert (0 <= IZR a / IZR (2 ^ 60)) as Hpos.
    { apply Rmult_le_pos; [by apply IZR_le|]. left. by apply Rinv_0_lt_compat. }
    by apply Rmult_le_compat.
Qed.

Lemma squared_upper_sound (n : nat) (a : Z) (x : R) :
  (0 <= a)%Z → exp x <= IZR a / IZR (2 ^ 60) →
  exp (2 ^ n * x) <= IZR (squared_upper n a) / IZR (2 ^ 60).
Proof.
  revert a x. induction n as [|n IH]; intros a x Ha Hx.
  { cbn [squared_upper pow]. by rewrite Rmult_1_l. }
  cbn [squared_upper]. replace (2 ^ S n * x) with (2 ^ n * (2 * x)) by (simpl; ring).
  assert (0 < IZR (2 ^ 60)) as HD by (by apply IZR_lt).
  assert (0 <= a * a / 2 ^ 60)%Z as Hq by (apply Z.div_pos; lia).
  apply IH; [lia|].
  replace (2 * x) with (x + x) by ring. rewrite exp_plus.
  apply Rle_trans with (IZR a / IZR (2 ^ 60) * (IZR a / IZR (2 ^ 60))).
  - pose proof (exp_pos x). apply Rmult_le_compat; lra.
  - apply (Rmult_le_reg_r (IZR (2 ^ 60))); [done|].
    replace (IZR (a * a / 2 ^ 60 + 1) / IZR (2 ^ 60) * IZR (2 ^ 60))
      with (IZR (a * a / 2 ^ 60 + 1)) by (field; lra).
    replace (IZR a / IZR (2 ^ 60) * (IZR a / IZR (2 ^ 60)) * IZR (2 ^ 60))
      with (IZR (a * a) / IZR (2 ^ 60)) by (rewrite mult_IZR; field; lra).
    apply (Rmult_le_reg_r (IZR (2 ^ 60))); [done|].
    replace (IZR (a * a) / IZR (2 ^ 60) * IZR (2 ^ 60)) with (IZR (a * a))
      by (field; lra).
    rewrite <- mult_IZR. apply IZR_le.
    pose proof (Z.mul_succ_div_gt (a * a) (2 ^ 60) ltac:(lia)). lia.
Qed.

(** [exp (708/1022) <= 2], hence [exp 708 <= 2^1022] and, with [exp 1 <= 3],
    [exp 709 <= 3 * 2^1022]. *)
Lemma exp_708_1022 : exp (708 / 1022) <= 2.
Proof.
  replace (708 / 1022) with (2 ^ 10 * (708 / 1046528)) by (simpl; field).
  set (a0 := (2 ^ 60 * 1046528 / 1045820 + 1)%Z).
  apply Rle_trans with (IZR (squared_upper 10 a0) / IZR (2 ^ 60)).
  - apply squared_upper_sound; [by vm_compute|].
    apply Rle_trans with (/ (1 - 708 / 1046528)); [apply exp_upper; lra|].
    replace (/ (1 - 708 / 1046528)) with (IZR 1046528 / IZR 1045820) by (field; lra).
    assert (0 < IZR (2 ^ 60)) as HD by (by apply IZR_lt).
    apply (Rmult_le_reg_r (IZR 1045820 * IZR (2 ^ 60))); [apply Rmult_lt_0_compat; lra|].
    replace (IZR 1046528 / IZR 1045820 * (IZR 1045820 * IZR (2 ^ 60)))
      with (IZR 1046528 * IZR (2 ^ 60)) by (field; lra).
    replace (IZR a0 / IZR (2 ^ 60) * (IZR 1045820 * IZR (2 ^ 60)))
      with (IZR a0 * IZR 1045820) by (field; lra).
    rewrite <- !mult_IZR. apply IZR_le. by vm_compute.
  - assert (0 < IZR (2 ^ 60)) as HD by (by apply IZR_lt).
    apply (Rmult_le_reg_r (IZR (2 ^ 60))); [done|].
    replace (IZR (squared_upper 10 a0) / IZR (2 ^ 60) * IZR (2 ^ 60))
      with (IZR (squared_upper 10 a0)) by (field; lra).
    rewrite <- (mult_IZR 2). apply IZR_le. by vm_compute.
Qed.

Lemma exp_709_below_threshold : exp 709 < binary64_overflow_threshold.
Proof.
  replace 709 with (INR 1022 * (708 / 1022) + 1)
    by (rewrite INR_IZR_INZ; simpl; field).
  rewrite exp_plus, exp_mult_nat.
  apply Rle_lt_trans with (2 ^ 1022 * 3).
  { apply Rmult_le_compat; [apply pow_le; left; apply exp_pos|left; apply exp_pos| |apply exp_le_3].
    apply pow_incr. split; [left; apply exp_pos|apply exp_708_1022]. }
  unfold binary64_overflow_threshold. rewrite pow_IZR, <- mult_IZR.
  apply IZR_lt. by vm_compute.
Qed.

(** [exp (710/1024) >= 2], hence [exp 710 >= 2^1024]. *)
Lemma exp_710_1024 : 2 <= exp (710 / 1024).
Proof.
  replace (710 / 1024) with (2 ^ 11 * (710 / 2097152)) by (simpl; field).
  set (a0 := (2 ^ 60 + 710 * 2 ^ 39)%Z).
  apply Rle_trans with (IZR (squared_lower 11 a0) / IZR (2 ^ 60)).
  - assert (0 < IZR (2 ^ 60)) as HD by (by apply IZR_lt).
    apply (Rmult_le_reg_r (IZR (2 ^ 60))); [done|].
    replace (IZR (squared_lower 11 a0) / IZR (2 ^ 60) * IZR (2 ^ 60))
      with (IZR (squared_lower 11 a0)) by (field; lra).
    rewrite <- (mult_IZR 2). apply IZR_le. by vm_compute.
  - apply squared_lower_sound; [by vm_compute|].
    apply Rle_trans with (1 + 710 / 2097152); [|apply exp_ineq1_le].
    right. subst a0. rewrite plus_IZR, mult_IZR.
    change (2 ^ 60)%Z with (2 ^ 21 * 2 ^ 39)%Z. rewrite mult_IZR.
    assert (0 < IZR (2 ^ 39)) by (by apply IZR_lt).
    change (IZR (2 ^ 21)) with 2097152. field. lra.
Qed.

Lemma exp_710_above_threshold : binary64_overflow_threshold <= exp 710.
Proof.
  replace 710 with (INR 1024 * (710 / 1024))
    by (rewrite INR_IZR_INZ; simpl; field).
  rewrite exp_mult_nat.
  apply Rle_trans with (2 ^ 1024).
  { unfold binary64_overflow_threshold. rewrite pow_IZR.
    apply IZR_le. by vm_compute. }
  apply pow_incr. split; [lra|apply exp_710_1024].
Qed.

End ExpBounds.

Section SigmoidOverflow.
Local Open Scope R_scope.

Lemma sigmoid_traced_entries (z : ndarray traced) :
  data (sigmoid z)
  = (λ v, mk_traced (1 / (1 + exp (- value v)))
            (False ∨ False ∨ exp_overflowed v ∨
             binary64_overflow_threshold <= exp (- value v))) <$> data z.
Proof.
  unfold sigmoid, np_map. cbn [data].
  rewrite <- !list_fmap_compose. by apply list_fmap_ext.
Qed.

Lemma sigmoid_traced_overflow (v : traced) :
  ¬ exp_overflowed v →
  (False ∨ False ∨ exp_overflowed v ∨
   binary64_overflow_threshold <= exp (- value v))
  ↔ binary64_overflow_threshold <= exp (- value v).
Proof. tauto. Qed.

(** C9, as stated, fails: at [z = -710] the [exp] inside [sigmoid] is
    computed at [710] and leaves the range of binary64. *)
Lemma sigmoid_exp_overflows_at_minus_710 :
  ¬ Forall (λ v, ¬ exp_overflowed v)
      (data (sigmoid (mk_ndarray (Sh2 1 1) [clean (-710)]))).
Proof.
  rewrite sigmoid_traced_entries. cbn [data fmap list_fmap value clean].
  intros Hall. apply Forall_cons_1 in Hall as [Hv _]. apply Hv.
  cbn [exp_overflowed]. do 3 right.
  replace (- -710) with 710 by lra. apply exp_710_above_threshold.
Qed.

(** C9, amended. [sigmoid] computes [1 / (1 + exp(-z))] entry by entry, with
    [exp] applied to [-z] as it is, without clipping and without a second
    branch: on entries that carry no earlier overflow, the [exp] stays in
    the range of binary64 for every entry [z >= -709], and it overflows for
    every entry [z <= -710]. *)
Theorem sigmoid_exp_overflow_threshold (z : ndarray traced) :
  Forall (λ v, ¬ exp_overflowed v) (data z) →
  value <$> data (sigmoid z) = (λ v, 1 / (1 + exp (- value v))) <$> data z ∧
  (Forall (λ v, -709 <= value v) (data z) →
   Forall (λ v, ¬ exp_overflowed v) (data (sigmoid z))) ∧
  (Forall (λ v, value v <= -710) (data z) →
   Forall (λ v, exp_overflowed v) (data (sigmoid z))).
Proof.
  intros Hclean. rewrite sigmoid_traced_entries. split; [|split].
  - rewrite <- list_fmap_compose. by apply list_fmap_ext.
  - intros Hlow. apply Forall_fmap, Forall_forall. intros v Hv.
    rewrite Forall_forall in Hclean, Hlow.
    cbn [exp_overflowed compose]. rewrite sigmoid_traced_overflow by auto.
    apply Rlt_not_le. eapply Rle_lt_trans; [|apply exp_709_below_threshold].
    apply exp_le_mono. specialize (Hlow v Hv). lra.
  - intros Hhigh. apply Forall_fmap, Forall_forall. intros v Hv.
    rewrite Forall_forall in Hclean, Hhigh.
    cbn [exp_overflowed compose]. rewrite sigmoid_traced_overflow by auto.
    eapply Rle_trans; [apply exp_710_above_threshold|].
    apply exp_le_mono. specialize (Hhigh v Hv). lra.
Qed.

End SigmoidOverflow.

(** ** Constant arrays *)

Section ConstantArrays.
Context {F : Type} `{Scalar F}.

Lemma valid_np_full (s : shape) (v : F) : valid (np_full s v).
Proof. unfold valid, np_full. cbn [data shp]. apply length_replicate. Qed.

Lemma entry_np_full (r c i j : nat) (v : F) :
  i < r → j < c → entry (np_full (Sh2 r c) v) i j = v.
Proof.
  intros Hi Hj. unfold entry, np_full. cbn [shp rows cols data size].
  assert ((if decide (r = 1) then 0 else i) = i) as -> by (case_decide; lia).
  assert ((if decide (c = 1) then 0 else j) = j) as -> by (case_decide; lia).
  rewrite lookup_replicate_2 by nia. done.
Qed.

Lemma const_fmap_seq {A : Type} (f : nat → A) (n : nat) (v : A) :
  (∀ t, t < n → f t = v) → f <$> seq 0 n = replicate n v.
Proof.
  intros Hf. transitivity ((λ _, v) <$> seq 0 n).
  - apply list_fmap_ext. intros _ t Ht%list_elem_of_lookup_2%elem_of_seq.
    apply Hf. lia.
  - rewrite (const_fmap (λ _, v) _ v) by done. by rewrite length_seq.
Qed.

Lemma row_np_full (r c i : nat) (v : F) :
  i < r → row (np_full (Sh2 r c) v) i = replicate c v.
Proof.
  intros Hi. unfold row. cbn [np_full shp cols].
  apply const_fmap_seq. intros t Ht. by apply entry_np_full.
Qed.

Lemma col_np_full (r c j : nat) (v : F) :
  j < c → col (np_full (Sh2 r c) v) j = replicate r v.
Proof.
  intros Hj. unfold col. cbn [np_full shp rows].
  apply const_fmap_seq. intros t Ht. by apply entry_np_full.
Qed.

Lemma tabulate_const (r c : nat) (f : nat → nat → F) (v : F) :
  (∀ i j, i < r → j < c → f i j = v) → tabulate r c f = replicate (r * c) v.
Proof.
  unfold tabulate.
  enough (∀ s, (∀ i j, s ≤ i < s + r → j < c → f i j = v) →
               (i ← seq s r; f i <$> seq 0 c) = replicate (r * c) v) as Hgen.
  { intros Hf. apply Hgen. intros i j Hi Hj. apply Hf; lia. }
  induction r as [|r IH]; intros s Hf; [done|].
  cbn [seq]. rewrite bind_cons. cbn [Nat.mul]. rewrite replicate_add.
  f_equal.
  - apply const_fmap_seq. intros t Ht. apply Hf; lia.
  - apply IH. intros i j Hi Hj. apply Hf; lia.
Qed.

Lemma matmul_np_full (r k c : nat) (a b : F) :
  matmul r c (np_full (Sh2 r k) a) (np_full (Sh2 k c) b)
  = replicate (r * c) (vdot (replicate k a) (replicate k b)).
Proof.
  unfold matmul. apply tabulate_const. intros i j Hi Hj.
  by rewrite row_np_full, col_np_full.
Qed.

(** One layer of constant parameters on a constant column. *)
Lemma feedforward_np_full (net : Network F) (r k : nat) (w b x : F) :
  layersz net = [Z.of_nat k; Z.of_nat r] →
  biases net = [np_full (Sh2 r 1) b] →
  weights net = [np_full (Sh2 r k) w] →
  feedforward net (np_full (Sh2 k 1) x)
  = Ok (mk_ndarray (Sh2 r 1)
          (replicate (r * 1)
             (fdiv f1 (fadd f1 (fexp (fneg
                (fadd (vdot (replicate k w) (replicate k x)) b))))))).
Proof.
  intros Hlz Hbs Hws. unfold feedforward. rewrite Hlz, Hbs, Hws, py_index_0. mstep.
  rewrite decide_False by (by intros ?).
  cbn [zip zip_with foldM]. rewrite feed_layer_eq.
  rewrite (np_dot_matrices _ _ r k 1) by done. mstep.
  rewrite matmul_np_full.
  unfold np_add. rewrite np_zip_same by done. mstep.
  cbn [shp data np_full size]. rewrite zip_with_replicate.
  unfold sigmoid, np_map. cbn [shp data]. by rewrite !fmap_replicate.
Qed.

End ConstantArrays.

(** ** A saturated output in the arithmetic with the range of binary64 *)

Section Saturation.
Local Open Scope R_scope.

Lemma threshold_above_1000 : 1000 < binary64_overflow_threshold.
Proof. unfold binary64_overflow_threshold. apply IZR_lt. by vm_compute. Qed.

Lemma round_in_range (r : R) : Rabs r <= 1000 → round r = Fin r.
Proof.
  intros Hr. pose proof threshold_above_1000 as Ht.
  pose proof (Rle_abs r) as Hhi. pose proof (Rle_abs (- r)) as Hlo.
  rewrite Rabs_Ropp in Hlo.
  unfold round. destruct (Rle_dec _ r); [lra|]. destruct (Rle_dec r _); [lra|]. done.
Qed.

Lemma round_overflow (r : R) : binary64_overflow_threshold <= r → round r = PInf.
Proof. intros Hr. unfold round. by destruct (Rle_dec _ r). Qed.

Lemma foldl_xadd_replicate (n : nat) (s p : R) :
  Rabs s + INR n * Rabs p <= 1000 →
  foldl xadd (Fin s) (replicate n (Fin p)) = Fin (s + INR n * p).
Proof.
  revert s. induction n as [|n IH]; intros s Hs.
  { cbn. f_equal. lra. }
  rewrite S_INR in Hs. pose proof (pos_INR n) as Hn.
  pose proof (Rabs_pos p) as Hp. pose proof (Rabs_triang s p) as Htri.
  cbn [replicate foldl xadd]. rewrite round_in_range by nra.
  rewrite IH by nra. rewrite S_INR. f_equal. ring.
Qed.

Lemma vdot_saturated :
  vdot (replicate 784 (Fin (-1))) (replicate 784 (Fin 1)) = Fin (-784).
Proof.
  unfold vdot. rewrite zip_with_replicate.
  change (fmul (Fin (-1)) (Fin 1)) with (round (-1 * 1)).
  rewrite round_in_range by (rewrite Rabs_left; lra).
  change f0 with (Fin 0). change fadd with xadd.
  rewrite foldl_xadd_replicate.
  - f_equal. rewrite INR_IZR_INZ. change (Z.of_nat 784) with 784%Z. lra.
  - rewrite INR_IZR_INZ. change (Z.of_nat 784) with 784%Z.
    rewrite Rabs_R0, Rabs_left by lra. lra.
Qed.

Lemma sigmoid_saturated :
  fdiv f1 (fadd f1 (fexp (fneg (fadd (Fin (-784)) (Fin 0))))) = Fin 0.
Proof.
  change (fadd (Fin (-784)) (Fin 0)) with (round (-784 + 0)).
  rewrite round_in_range by (rewrite Rabs_left; lra).
  change (fneg (Fin (-784 + 0))) with (Fin (- (-784 + 0))).
  change (fexp (Fin (- (-784 + 0)))) with (round (exp (- (-784 + 0)))).
  rewrite round_overflow; [done|].
  eapply Rle_trans; [apply exp_710_above_threshold|]. apply exp_le_mono. lra.
Qed.

Lemma threshold_positive : 0 < binary64_overflow_threshold.
Proof. pose proof threshold_above_1000. lra. Qed.

Lemma round_positive (r : R) : 0 < r → round r = PInf ∨ round r = Fin r.
Proof.
  intros Hr. pose proof threshold_positive as Ht. unfold round.
  destruct (Rle_dec _ r); [by left|]. destruct (Rle_dec r _); [lra|by right].
Qed.

(** The sigmoid of any entry, finite or not. *)
Lemma sigmoid_xreal_range (v : xreal) :
  in_closed_unit_or_nan (fdiv f1 (fadd f1 (fexp (fneg v)))).
Proof.
  assert (fdiv f1 PInf = Fin 0) as Hinf by done.
  assert (∀ e, 0 <= e → in_closed_unit_or_nan (fdiv f1 (fadd f1 (Fin e)))) as Hfin.
  { intros e He. change (fadd f1 (Fin e)) with (round (1 + e)).
    destruct (round_positive (1 + e)) as [-> | ->]; [lra| |].
    - rewrite Hinf. cbn. lra.
    - change (fdiv f1 (Fin (1 + e))) with (xdiv (Fin 1) (Fin (1 + e))).
      cbn [xdiv]. destruct (Req_dec_T (1 + e) 0); [lra|].
      assert (0 < 1 / (1 + e) <= 1) as [Hlo Hhi].
      { split; [apply Rdiv_lt_0_compat; lra|].
        apply (Rmult_le_reg_r (1 + e)); [lra|]. field_simplify; lra. }
      rewrite round_in_range by (rewrite Rabs_right; lra). cbn. lra. }
  destruct v as [r| | |].
  - change (fexp (fneg (Fin r))) with (round (exp (- r))).
    pose proof (exp_pos (- r)) as He.
    destruct (round_positive (exp (- r)) He) as [-> | ->].
    + change (fadd f1 PInf) with PInf. rewrite Hinf. cbn. lra.
    + apply Hfin. lra.
  - change (fexp (fneg PInf)) with (Fin 0). apply Hfin. lra.
  - change (fexp (fneg NInf)) with PInf. change (fadd f1 PInf) with PInf.
    rewrite Hinf. cbn. lra.
  - done.
Qed.

Lemma sigmoid_range_binary64 (z : ndarray xreal) :
  Forall in_closed_unit_or_nan (data (sigmoid z)).
Proof.
  unfold sigmoid, np_map. cbn [data]. rewrite <- !list_fmap_compose.
  apply Forall_fmap, Forall_true. intros v. apply sigmoid_xreal_range.
Qed.

(** C3, as stated, fails in binary64: on the network with layer sizes
    [[784, 10]], every weight -1 and every bias 0, the image whose pixels
    are all 1 gives [z = -784] in every output neuron, the [exp] of the
    sigmoid overflows, and every component of the output is exactly 0. *)
Lemma feedforward_output_exactly_zero :
  feedforward saturated_net white_image
  = Ok (mk_ndarray (Sh2 10 1) (replicate 10 (Fin 0))) ∧
  ¬ Forall in_open_unit (replicate 10 (Fin 0)).
Proof.
  split.
  - unfold white_image.
    rewrite (feedforward_np_full saturated_net 10 784 (Fin (-1)) (Fin 0) (Fin 1))
      by reflexivity.
    by rewrite vdot_saturated, sigmoid_saturated.
  - cbn [replicate]. intros Hall. apply Forall_cons_1 in Hall as [Hzero _].
    cbn in Hzero. lra.
Qed.

(** C3, amended. On a well-formed network with valid parameters and on a
    valid column of the size of the input layer, [feedforward] applies
    [z = W.a + b], then [a = sigmoid(z)], for each layer transition in order
    and returns the last [a], a column with as many entries as the output
    layer has neurons; in the arithmetic with the range of binary64 each of
    them lies between 0 and 1, both bounds included, or is a NaN; the call
    leaves the object, hence its weights and biases, as it was. *)
Theorem feedforward_layers_and_range
    (net : Network xreal) (n : nat) (sizes : list nat) (x : ndarray xreal) :
  wf_net net n sizes → valid_net net → column n x → valid x →
  ∃ out,
    feedforward net x = Ok out ∧
    spec_feedforward (biases net) (weights net) x = Ok out ∧
    shape_tuple (shp out) = [Z.of_nat (last_size n sizes); 1%Z] ∧
    length (data out) = last_size n sizes ∧
    Forall in_closed_unit_or_nan (data out) ∧
    call (λ self, feedforward self x) net = (Ok out, net).
Proof.
  intros Hwf Hvn Hx Hvx.
  destruct (feedforward_ok net n sizes x Hwf Hx) as (out & Hff & Hsp & Hc & Hv & z & Hz).
  exists out. split; [done|]. split; [done|]. split; [by apply shape_tuple_column|].
  split.
  { specialize (Hv Hvn Hvx). unfold valid in Hv. rewrite Hv, Hc. cbn [size]. lia. }
  split; [rewrite Hz; apply sigmoid_range_binary64|].
  unfold call. by rewrite Hff.
Qed.

End Saturation.

(** ** The theorems at the network of the notebook *)

Lemma mnist_net_wf : wf_net mnist_net 784 [30; 10].
Proof. split; [done|done|done|]. cbn. by repeat split. Defined.

Lemma mnist_net_valid : valid_net mnist_net.
Proof. split; repeat constructor; apply valid_np_zeros. Defined.

Lemma three_examples_shaped :
  Forall (λ xy : example R, column 784 xy.1 ∧ column (last_size 784 [30; 10]) xy.2)
    three_examples.
Proof. by repeat constructor. Defined.

Lemma backpropagate_computes_spec_gradients_witness :
  wf_net mnist_net 784 [30; 10] ∧
  column 784 blank_image ∧
  column (last_size 784 [30; 10]) (asvector 3) ∧
  ∃ gb gw,
    backpropagate mnist_net blank_image (asvector 3) = Ok (gb, gw) ∧
    spec_backprop (weights mnist_net) (biases mnist_net) blank_image (asvector 3)
    = Ok (gb, gw).
Proof.
  split; [exact mnist_net_wf|]. split; [reflexivity|]. split; [reflexivity|].
  destruct (backpropagate_computes_spec_gradients mnist_net 784 [30; 10]
              blank_image (asvector 3) mnist_net_wf eq_refl eq_refl)
    as (gb & gw & Hcode & Hspec & _).
  by exists gb, gw.
Defined.

Lemma batch_update_divides_by_actual_batch_size_witness :
  wf_net (self start_state) 784 [30; 10] ∧
  three_examples ≠ [] ∧
  ∃ gb gw,
    spec_gradient_sum mnist_net three_examples = Ok (gb, gw) ∧
    weights (self (update_batch 2%R three_examples start_state).2)
    = zip_with (spec_updated 2%R 3) (weights mnist_net) gw.
Proof.
  split; [exact mnist_net_wf|]. split; [discriminate|].
  destruct (batch_update_divides_by_actual_batch_size 2%R three_examples
              784 [30; 10] start_state mnist_net_wf ltac:(discriminate)
              three_examples_shaped)
    as (gb & gw & Hsum & Hupd & _).
  exists gb, gw. split; [exact Hsum|]. by rewrite Hupd.
Defined.

Lemma saturated_net_wf : wf_net saturated_net 784 [10].
Proof. split; [done|done|done|]. cbn. by repeat split. Defined.

Lemma saturated_net_valid : valid_net saturated_net.
Proof. split; repeat constructor; apply valid_np_full. Defined.

Lemma feedforward_layers_and_range_witness :
  wf_net saturated_net 784 [10] ∧ valid_net saturated_net ∧
  column 784 white_image ∧ valid white_image ∧
  ∃ out,
    feedforward saturated_net white_image = Ok out ∧
    length (data out) = 10 ∧
    Forall in_closed_unit_or_nan (data out).
Proof.
  split; [exact saturated_net_wf|]. split; [exact saturated_net_valid|].
  split; [reflexivity|]. split; [apply valid_np_full|].
  destruct (feedforward_layers_and_range saturated_net 784 [10] white_image
              saturated_net_wf saturated_net_valid eq_refl (valid_np_full _ _))
    as (out & Hout & _ & _ & Hlen & Hrange & _).
  by exists out.
Defined.

Lemma evaluate_counts_correct_predictions_witness :
  wf_net mnist_net 784 [30; 10] ∧ valid_net mnist_net ∧
  last_size 784 [30; 10] ≠ 0 ∧
  ∃ r, evaluate mnist_net [(blank_image, 3%Z); (blank_image, 0%Z)] = Ok r ∧
       (0 ≤ r ≤ 2)%Z.
Proof.
  split; [exact mnist_net_wf|]. split; [exact mnist_net_valid|].
  split; [discriminate|].
  destruct (evaluate_counts_correct_predictions mnist_net 784 [30; 10]
              [(blank_image, 3%Z); (blank_image, 0%Z)]
              mnist_net_wf mnist_net_valid ltac:(discriminate))
    as (r & Hr & _ & Hbounds & _).
  { repeat constructor; apply valid_np_zeros. }
  exists r. split; [exact Hr|exact Hbounds].
Defined.

Lemma shape_mismatch_raised_exactly_on_wrong_length_witness :
  wf_net mnist_net 784 [30; 10] ∧
  column 783 (np_zeros (F:=R) (Sh2 783 1)) ∧
  column 10 (asvector 3) ∧
  raises_RuntimeError (feedforward mnist_net (np_zeros (Sh2 783 1))) ∧
  raises_RuntimeError (backpropagate mnist_net (np_zeros (Sh2 783 1)) (asvector 3)).
Proof.
  split; [exact mnist_net_wf|]. split; [reflexivity|]. split; [reflexivity|].
  destruct (shape_mismatch_raised_exactly_on_wrong_length mnist_net 784 [30; 10]
              783 10 (np_zeros (Sh2 783 1)) (asvector 3)
              mnist_net_wf eq_refl eq_refl)
    as (Hff & Hbp & _).
  split; [apply Hff; lia|apply Hbp; left; lia].
Defined.

Lemma init_configuration_error_and_shapes_witness :
  [784; 30; 10]%Z ≠ [] ∧
  ¬ raises_RuntimeError (init (F:=R) [784; 30; 10]%Z 0).1 ∧
  raises_RuntimeError (init (F:=R) [28; 30; 10]%Z 0).1 ∧
  ∃ (net : Network R) (g' : nat),
    init [784; 30; 10]%Z 0 = (Ok net, g') ∧ length (weights net) = 2.
Proof.
  split; [discriminate|].
  destruct (init_configuration_error_and_shapes (F:=R) [784; 30; 10]%Z 0
              ltac:(discriminate)) as (Herr & Hshapes & Hok).
  destruct (init_configuration_error_and_shapes (F:=R) [28; 30; 10]%Z 0
              ltac:(discriminate)) as (Herr' & _ & _).
  split; [|split].
  - intros [Hbad|Hbad]%Herr; by apply Hbad.
  - apply Herr'. left. discriminate.
  - destruct Hok as (net & g' & Hinit); [done|done|repeat constructor; lia|].
    exists net, g'. split; [exact Hinit|].
    by destruct (Hshapes net g' Hinit) as (_ & _ & -> & _).
Defined.

Lemma epoch_shuffles_then_partitions_witness :
  (0 < 2)%Z ∧
  ∃ td batches,
    td = shuffle_with 4 [2; 0; 0; 0] five_examples ∧
    (rs_shuffle five_examples (Counter 7)).1 = td ∧
    make_batches td 2 = Ok batches ∧
    concat batches = td ∧
    length <$> batches = [2; 2; 1].
Proof.
  split; [lia|].
  destruct (epoch_shuffles_then_partitions 2 2%R None 0 counter_state ltac:(lia))
    as (n & js & g' & td & batches & -> & Hdraws & _ & Htd & _ & _ & _ & _ & _
        & Hmk & _ & Hcat & _).
  change (interval_draws random_interval (length (training_data counter_state) - 1)
            (rng counter_state))
    with ([2; 0; 0; 0], Counter 11) in Hdraws.
  injection Hdraws as <- <-.
  change (length (training_data counter_state) - 1) with 4 in Htd.
  change (training_data counter_state) with five_examples in Htd.
  exists td, batches. split; [exact Htd|].
  split; [rewrite Htd; reflexivity|]. split; [exact Hmk|]. split; [exact Hcat|].
  rewrite Htd in Hmk. injection Hmk as <-. reflexivity.
Defined.

Lemma sigmoid_exp_overflow_threshold_witness :
  Forall (λ v, ¬ exp_overflowed v) [clean 0; clean (-709)] ∧
  Forall (λ v, ¬ exp_overflowed v)
    (data (sigmoid (mk_ndarray (Sh1 2) [clean 0; clean (-709)]))).
Proof.
  assert (Forall (λ v, ¬ exp_overflowed v) [clean 0; clean (-709)]) as Hclean
    by (repeat constructor; tauto).
  split; [exact Hclean|].
  destruct (sigmoid_exp_overflow_threshold
              (mk_ndarray (Sh1 2) [clean 0; clean (-709)]) Hclean)
    as (_ & Hlow & _).
  apply Hlow. repeat constructor; cbn; lra.
Defined.

Lemma only_column_inputs_accepted_witness :
  py_index (layersz mnist_net) 0 = Ok 784%Z ∧
  feedforward mnist_net (np_zeros (Sh1 784))
  = Raise (RuntimeError "Input array has wrong shape - must be (784, 1)") ∧
  backpropagate mnist_net (np_zeros (Sh1 784)) (asvector 3)
  = Raise (RuntimeError "Input array has wrong shape").
Proof.
  split; [reflexivity|].
  destruct (only_column_inputs_accepted mnist_net 784%Z eq_refl) as [_ Hflat].
  exact (Hflat (np_zeros (Sh1 784)) (asvector 3) 784 eq_refl).
Defined.

(** ** Runs of the model *)

Example py_index_negative : py_index [10; 20; 30] (-1) = Ok 30.
Proof. reflexivity. Qed.

Example py_index_out_of_range : py_index [10; 20; 30] (-4) = Raise IndexError.
Proof. reflexivity. Qed.

Example py_range_2_4 : py_range 2 4 = [2; 3]%Z.
Proof. reflexivity. Qed.

Example py_range_step_5_2 : py_range_step 5 2 = Ok [0; 2; 4].
Proof. reflexivity. Qed.

Example py_range_step_zero : py_range_step 5 0 = Raise ValueError.
Proof. reflexivity. Qed.

Example np_dot_2x2_column :
  np_dot (mk_ndarray (Sh2 2 2) [Var "a"; Var "b"; Var "c"; Var "d"])
         (mk_ndarray (Sh2 2 1) [Var "x"; Var "y"])
  = Ok (mk_ndarray (Sh2 2 1)
          [Add (Add (Num 0) (Mul (Var "a") (Var "x"))) (Mul (Var "b") (Var "y"));
           Add (Add (Num 0) (Mul (Var "c") (Var "x"))) (Mul (Var "d") (Var "y"))]).
Proof. reflexivity. Qed.

Example np_dot_mismatch :
  np_dot (mk_ndarray (Sh2 2 2) [Var "a"; Var "b"; Var "c"; Var "d"])
         (mk_ndarray (Sh2 3 1) [Var "x"; Var "y"; Var "z"])
  = Raise ValueError.
Proof. reflexivity. Qed.

Example np_T_2x3 :
  np_T (mk_ndarray (Sh2 2 3) [Num 1; Num 2; Num 3; Num 4; Num 5; Num 6])
  = mk_ndarray (Sh2 3 2) [Num 1; Num 4; Num 2; Num 5; Num 3; Num 6].
Proof. reflexivity. Qed.

Example feedforward_chain :
  feedforward chain_net (mk_ndarray (Sh2 1 1) [Var "x"])
  = Ok (mk_ndarray (Sh2 1 1) [sigma chain_z2]).
Proof. reflexivity. Qed.

Example backpropagate_chain :
  backpropagate chain_net (mk_ndarray (Sh2 1 1) [Var "x"])
                          (mk_ndarray (Sh2 1 1) [Var "y"])
  = Ok ([mk_ndarray (Sh2 1 1) [chain_delta1]; mk_ndarray (Sh2 1 1) [chain_delta2]],
        [mk_ndarray (Sh2 1 1) [Add (Num 0) (Mul chain_delta1 (Var "x"))];
         mk_ndarray (Sh2 1 1) [Add (Num 0) (Mul chain_delta2 (sigma chain_z1))]]).
Proof. reflexivity. Qed.

Example feedforward_flat_input_rejected :
  feedforward chain_net (mk_ndarray (Sh1 1) [Var "x"])
  = Raise (RuntimeError "Input array has wrong shape - must be (784, 1)").
Proof. reflexivity. Qed.

(** Without test data an epoch ends in the [TypeError] of the format string
    that asks for two values and is given one, so that a call of [SGD] with
    at least one epoch and no test data never returns normally. *)
Example end_of_epoch_without_test_data (s : sgd_state R nat) :
  end_of_epoch 0 None s = (Raise TypeError, s).
Proof. reflexivity. Qed.

Lemma SGD_without_test_data_raises {F G : Type} `{Scalar F} `{RandomState F G}
    (epochs batchsz : Z) (eta : F) (s : sgd_state F G) :
  (0 < epochs)%Z → ∃ e, (SGD epochs batchsz eta None s).1 = Raise e.
Proof.
  intros Hpos. unfold SGD. rewrite py_range_cons by lia. cbn [for_each].
  unfold mbind at 1, M_bind at 1.
  enough (∃ e s', epoch batchsz eta None 0 s = (Raise e, s')) as (e & s' & ->)
    by (by exists e).
  unfold epoch. unfold mbind at 1, M_bind at 1.
  destruct (shuffle_training_data s) as [[[]|e] s1]; [|by eexists _, _].
  unfold mbind at 1, M_bind at 1, get at 1.
  unfold mbind at 1, M_bind at 1, lift at 1.
  destruct (make_batches (training_data s1) batchsz) as [batches|e];
    [|by eexists _, _].
  unfold mbind at 1, M_bind at 1.
  destruct (for_each batches (update_batch eta) s1) as [[[]|e] s2];
    by eexists _, _.
Qed.

Example make_batches_5_by_2 :
  match make_batches (replicate 5 (blank_image, asvector 0)) 2 with
  | Ok batches => map (length (A:=example R)) batches
  | Raise _ => []
  end
  = [2; 2; 1].
Proof. reflexivity. Qed.

Example make_batches_negative_size :
  make_batches three_examples (-1) = Ok [].
Proof. reflexivity. Qed.

Example init_rejects_empty_list :
  (init (F:=R) [] 0).1 = Raise IndexError.
Proof. reflexivity. Qed.

(** ** The loader *)

Lemma mapM_result_Ok {A B : Type} (f : A → result B) (g : A → B) (l : list A) :
  Forall (λ x, f x = Ok (g x)) l → mapM f l = Ok (g <$> l).
Proof.
  induction 1 as [|x l Hx _ IH]; [done|].
  rewrite mapM_result_cons, Hx. mstep. rewrite IH. by mstep.
Qed.

Lemma mapM_result_Raise {A B : Type} (f : A → result B) (g : A → B)
    (pre post : list A) (x : A) (e : exn) :
  Forall (λ x, f x = Ok (g x)) pre → f x = Raise e →
  mapM f (pre ++ x :: post) = Raise e.
Proof.
  intros Hpre Hx. induction Hpre as [|x' l Hx' _ IH].
  - cbn [app]. rewrite mapM_result_cons, Hx. by mstep.
  - cbn [app]. rewrite mapM_result_cons, Hx'. mstep. rewrite IH. by mstep.
Qed.

Section LoaderFacts.
Context {F : Type} `{Scalar F}.

Lemma asvector_digit (j : Z) :
  (0 ≤ j < 10)%Z →
  Data.asvector j
  = Ok (mk_ndarray (Sh2 10 1) (<[Z.to_nat j := f1]> (replicate 10 f0))).
Proof.
  intros Hj. unfold Data.asvector, Data.np_setitem. cbn [np_zeros shp data size].
  replace j with (Z.of_nat (Z.to_nat j)) at 1 by lia.
  rewrite py_norm_nonneg by lia. cbn [list_inserts replicate].
  by rewrite Nat.mul_1_r.
Qed.

Lemma asvector_negative (j : Z) :
  (-10 ≤ j < 0)%Z → Data.asvector j = Data.asvector (j + 10).
Proof.
  intros Hj. rewrite (asvector_digit (j + 10)) by lia.
  unfold Data.asvector, Data.np_setitem. cbn [np_zeros shp data size].
  replace j with (- Z.of_nat (Z.to_nat (- j)))%Z at 1 by lia.
  rewrite py_norm_neg by lia. cbn [list_inserts replicate].
  rewrite Nat.mul_1_r. do 3 f_equal. lia.
Qed.

Lemma asvector_out_of_range (j : Z) :
  (j < -10 ∨ 10 ≤ j)%Z → Data.asvector j = Raise IndexError.
Proof.
  intros Hj. unfold Data.asvector, Data.np_setitem. cbn [np_zeros shp].
  destruct (py_norm 10 j) as [i|] eqn:Hi; [|done]. exfalso.
  unfold py_norm in Hi. cbv zeta in Hi.
  destruct (Z.ltb_spec j 0);
    match type of Hi with (if ?c then _ else _) = _ =>
      destruct c eqn:Hc; [|done] end;
    apply andb_true_iff in Hc as [?%Z.leb_le ?%Z.ltb_lt]; lia.
Qed.

End LoaderFacts.

Section LoaderTheorems.
Context {F : Type} `{Scalar F}.

Lemma asvector_index_range_ok (j : Z) :
  (-10 ≤ j < 10)%Z →
  ∃ e, Data.asvector (F:=F) j = Ok e ∧ column 10 e ∧ valid e.
Proof.
  assert (∀ k, (0 ≤ k < 10)%Z →
            ∃ e, Data.asvector (F:=F) k = Ok e ∧ column 10 e ∧ valid e) as Hdigit.
  { intros k Hk. rewrite asvector_digit by done. eexists. split; [done|].
    split; [done|]. unfold valid. cbn [data shp size].
    by rewrite length_insert, length_replicate. }
  intros Hj. destruct (decide (j < 0)%Z).
  - rewrite asvector_negative by lia. apply Hdigit. lia.
  - apply Hdigit. lia.
Qed.

(** X2. [asvector] raises [IndexError] exactly when its argument is below
    -10 or above 9; an argument from -10 to -1 counts from the end, as
    Python indices do, and gives the column of the digit ten higher. *)
Theorem asvector_index_range (j : Z) :
  (Data.asvector (F:=F) j = Raise IndexError ↔ (j < -10 ∨ 10 ≤ j)%Z) ∧
  ((-10 ≤ j < 0)%Z → Data.asvector (F:=F) j = Data.asvector (j + 10)) ∧
  ((-10 ≤ j < 10)%Z →
     ∃ e, Data.asvector (F:=F) j = Ok e ∧ column 10 e ∧ valid e).
Proof.
  split; [split|split].
  - intros Herr.
    destruct (decide (j < -10 ∨ 10 ≤ j)%Z) as [|Hin]; [done|]. exfalso.
    destruct (asvector_index_range_ok j) as (e & He & _); [lia|]. congruence.
  - apply asvector_out_of_range.
  - apply asvector_negative.
  - apply asvector_index_range_ok.
Qed.

End LoaderTheorems.

(** X1. For a digit [j] from 0 to 9, [asvector(j)] is the column of shape
    (10, 1) that holds 1.0 at position [j] and 0.0 elsewhere, and
    [np.argmax] gives [j] back. *)
Theorem asvector_argmax_round_trip (j : Z) :
  (0 ≤ j < 10)%Z →
  ∃ e : ndarray R,
    Data.asvector j = Ok e ∧
    shape_tuple (shp e) = [10; 1]%Z ∧
    length (data e) = 10 ∧
    (∀ i, i < 10 →
       data e !! i = Some (if decide (i = Z.to_nat j) then 1%R else 0%R)) ∧
    np_argmax e = Ok j.
Proof.
  intros Hj. rewrite asvector_digit by done. eexists. split; [done|].
  split; [done|]. cbn [data].
  assert (∀ i, i < 10 →
            <[Z.to_nat j := 1%R]> (replicate 10 0%R) !! i
            = Some (if decide (i = Z.to_nat j) then 1%R else 0%R)) as Hentries.
  { intros i Hi. destruct (decide (i = Z.to_nat j)) as [->|Hne].
    - apply list_lookup_insert_eq. rewrite length_replicate. lia.
    - rewrite list_lookup_insert_ne by done. by apply lookup_replicate_2. }
  split; [by rewrite length_insert, length_replicate|]. split; [done|].
  set (e := mk_ndarray (Sh2 10 1) _).
  assert (∃ p, np_argmax e = Ok (Z.of_nat p)) as [p Hp].
  { unfold np_argmax. destruct (data e) as [|v l] eqn:He; [|by eexists].
    apply (f_equal length) in He. subst e. cbn [data] in He.
    rewrite length_insert, length_replicate in He. done. }
  rewrite Hp. f_equal.
  destruct (np_argmax_is_max e _ Hp) as (m & Hm & Hmax).
  rewrite Nat2Z.id in Hm. subst e. cbn [data] in Hm, Hmax.
  assert (p < 10) as Hp10.
  { apply lookup_lt_Some in Hm. by rewrite length_insert, length_replicate in Hm. }
  rewrite Hentries in Hm by done.
  destruct (decide (p = Z.to_nat j)) as [->|Hne]; [lia|]. exfalso.
  injection Hm as <-. rewrite Forall_forall in Hmax.
  assert (1 <= 0)%R; [|lra]. apply (Hmax 1%R).
  apply list_elem_of_lookup. exists (Z.to_nat j). rewrite Hentries by lia.
  by rewrite decide_True.
Qed.

Lemma mapM_result_Forall2 {A B : Type} (f : A → result B) (l : list A) :
  Forall (λ x, ∃ y, f x = Ok y) l →
  ∃ ys, mapM f l = Ok ys ∧ Forall2 (λ y x, f x = Ok y) ys l.
Proof.
  induction 1 as [|x l [y Hy] _ (ys & IH & Hys)].
  { exists []. by split. }
  exists (y :: ys). rewrite mapM_result_cons, Hy. mstep. rewrite IH. mstep.
  split; [done|]. by constructor.
Qed.

Section LoadData.
Context {F : Type} `{Scalar F}.
Implicit Types d : Data.raw_set F.

Lemma inputs_of_ok d (r : nat) :
  shp (Data.images d) = Sh2 r 784 →
  Data.inputs_of d = Ok (image_of d <$> seq 0 r).
Proof.
  intros Hd. unfold Data.inputs_of, Data.np_iter. rewrite Hd. mstep.
  rewrite (mapM_result_Ok _ (λ x, mk_ndarray (Sh2 784 1) (data x))).
  - by rewrite <- list_fmap_compose.
  - apply Forall_fmap, Forall_true. intros i. unfold compose, Data.np_reshape.
    by rewrite decide_True.
Qed.

Lemma inputs_of_wrong_width d (r c : nat) :
  shp (Data.images d) = Sh2 r c → c ≠ 784 → 0 < r →
  Data.inputs_of d = Raise ValueError.
Proof.
  intros Hd Hc Hr. unfold Data.inputs_of, Data.np_iter. rewrite Hd. mstep.
  destruct r as [|r]; [lia|]. cbn [seq fmap list_fmap].
  rewrite mapM_result_cons.
  assert (∀ l, Data.np_reshape (mk_ndarray (Sh1 c) l) (Sh2 784 1)
               = Raise ValueError) as ->; [|done].
  intros l. unfold Data.np_reshape. rewrite decide_False; [done|].
  cbn [shp size]. lia.
Qed.

Lemma image_of_lookup d (r i : nat) x :
  (image_of d <$> seq 0 r) !! i = Some x → i < r ∧ x = image_of d i.
Proof.
  rewrite list_lookup_fmap. intros Hx.
  destruct (seq 0 r !! i) as [k|] eqn:Hk; [|done].
  apply lookup_seq in Hk as [-> Hi]. cbn in Hx. injection Hx as <-. done.
Qed.

Lemma image_of_valid d (r i : nat) :
  shp (Data.images d) = Sh2 r 784 → valid (Data.images d) → i < r →
  valid (image_of d i).
Proof.
  intros Hd Hv Hi. unfold valid in *. rewrite Hd in Hv. cbn [size] in Hv.
  cbn [image_of data shp size]. rewrite length_take, length_drop, Hv. nia.
Qed.

End LoadData.

Section LoadDataTheorems.
Context {F : Type} `{Scalar F}.
Implicit Types d : Data.raw_set F.

Lemma zip_images_lookup {B : Type} d (r i : nat) (l : list B) x (b : B) :
  zip (image_of d <$> seq 0 r) l !! i = Some (x, b) →
  i < r ∧ x = image_of d i ∧ l !! i = Some b.
Proof.
  intros (x' & b' & [= <- <-] & Hx & Hb)%lookup_zip_with_Some.
  apply image_of_lookup in Hx as [Hi ->]. done.
Qed.

Lemma mapM_asvector_bad_digit (l : list Z) :
  ¬ Forall (λ j, -10 ≤ j < 10)%Z l →
  mapM (Data.asvector (F:=F)) l = Raise IndexError.
Proof.
  intros Hbad. apply not_Forall_Exists in Hbad; [|intros j; apply _].
  induction Hbad as [j l Hj|j l _ IH]; rewrite mapM_result_cons.
  - unfold compose in Hj. by rewrite asvector_out_of_range by lia.
  - rewrite IH. destruct (Data.asvector j) as [y|e] eqn:Hy; [done|]. mstep.
    destruct (decide (-10 ≤ j < 10)%Z) as [Hin|Hout].
    + destruct (asvector_index_range_ok j Hin) as (e' & He' & _). congruence.
    + rewrite asvector_out_of_range in Hy by lia. by injection Hy as <-.
Qed.

Lemma load_data_ok (tr_d va_d te_d : Data.raw_set F) (rtr rva rte : nat) :
  shp (Data.images tr_d) = Sh2 rtr 784 →
  shp (Data.images va_d) = Sh2 rva 784 →
  shp (Data.images te_d) = Sh2 rte 784 →
  Forall (λ j, -10 ≤ j < 10)%Z (Data.digits tr_d) →
  ∃ tr va te,
    Data.load_data (tr_d, va_d, te_d) = Ok (tr, va, te) ∧
    length tr = rtr `min` length (Data.digits tr_d) ∧
    length va = rva `min` length (Data.digits va_d) ∧
    length te = rte `min` length (Data.digits te_d) ∧
    (∀ i x y, tr !! i = Some (x, y) →
       x = image_of tr_d i ∧ column 784 x ∧
       (valid (Data.images tr_d) → valid x) ∧
       ∃ j, Data.digits tr_d !! i = Some j ∧ Data.asvector j = Ok y ∧
            column 10 y ∧ valid y) ∧
    (∀ i x j, va !! i = Some (x, j) →
       x = image_of va_d i ∧ column 784 x ∧
       (valid (Data.images va_d) → valid x) ∧
       Data.digits va_d !! i = Some j) ∧
    (∀ i x j, te !! i = Some (x, j) →
       x = image_of te_d i ∧ column 784 x ∧
       (valid (Data.images te_d) → valid x) ∧
       Data.digits te_d !! i = Some j).
Proof.
  intros Htr Hva Hte Hdigits.
  destruct (mapM_result_Forall2 (Data.asvector (F:=F)) (Data.digits tr_d))
    as (ys & Hys & Hvec).
  { eapply Forall_impl; [exact Hdigits|]. intros j Hj.
    destruct (asvector_index_range_ok j Hj) as (e & He & _). by exists e. }
  unfold Data.load_data.
  rewrite (inputs_of_ok tr_d rtr Htr). mstep. rewrite Hys. mstep.
  rewrite (inputs_of_ok va_d rva Hva). mstep.
  rewrite (inputs_of_ok te_d rte Hte). mstep.
  eexists _, _, _. split; [done|].
  rewrite !length_zip_with, !length_fmap, !length_seq.
  rewrite (Forall2_length _ _ _ Hvec).
  split; [done|]. split; [done|]. split; [done|].
  split; [|split].
  - intros i x y (Hi & -> & Hy)%zip_images_lookup.
    split; [done|]. split; [done|].
    split; [intros Hv; by eapply image_of_valid|].
    destruct (Forall2_lookup_l _ _ _ _ _ Hvec Hy) as (j & Hj & Hasv).
    exists j. split; [done|]. split; [done|].
    rewrite Forall_forall in Hdigits.
    destruct (asvector_index_range_ok j) as (e & He & Hc & Hv).
    { apply Hdigits. by eapply list_elem_of_lookup_2. }
    rewrite Hasv in He. by injection He as ->.
  - intros i x j (Hi & -> & Hj)%zip_images_lookup.
    split; [done|]. split; [done|]. split; [|done].
    intros Hv. by eapply image_of_valid.
  - intros i x j (Hi & -> & Hj)%zip_images_lookup.
    split; [done|]. split; [done|]. split; [|done].
    intros Hv. by eapply image_of_valid.
Qed.

(** X3. When the three sets of the file hold their images as rows of 784
    pixels and the digits of the training set are valid indices of a column
    of ten entries, [load_data] returns three lists: each has as many
    examples as the shorter of the images and the digits of its set;
    example [i] holds the pixels of row [i] as a column of shape (784, 1),
    together with [asvector] of digit [i] in the training list, a column of
    shape (10, 1), and with digit [i] itself in the two other lists. *)
Theorem load_data_repackages (tr_d va_d te_d : Data.raw_set F) (rtr rva rte : nat) :
  shp (Data.images tr_d) = Sh2 rtr 784 →
  shp (Data.images va_d) = Sh2 rva 784 →
  shp (Data.images te_d) = Sh2 rte 784 →
  Forall (λ j, -10 ≤ j < 10)%Z (Data.digits tr_d) →
  ∃ tr va te,
    Data.load_data (tr_d, va_d, te_d) = Ok (tr, va, te) ∧
    length tr = rtr `min` length (Data.digits tr_d) ∧
    length va = rva `min` length (Data.digits va_d) ∧
    length te = rte `min` length (Data.digits te_d) ∧
    (∀ i x y, tr !! i = Some (x, y) →
       x = image_of tr_d i ∧ column 784 x ∧
       (valid (Data.images tr_d) → valid x) ∧
       ∃ j, Data.digits tr_d !! i = Some j ∧ Data.asvector j = Ok y ∧
            column 10 y ∧ valid y) ∧
    (∀ i x j, va !! i = Some (x, j) →
       x = image_of va_d i ∧ column 784 x ∧
       (valid (Data.images va_d) → valid x) ∧
       Data.digits va_d !! i = Some j) ∧
    (∀ i x j, te !! i = Some (x, j) →
       x = image_of te_d i ∧ column 784 x ∧
       (valid (Data.images te_d) → valid x) ∧
       Data.digits te_d !! i = Some j).
Proof. apply load_data_ok. Qed.

(** X4. [load_data] checks its data only as far as the repackaging does:
    a training set that holds an image, and whose images do not have 784
    pixels, makes [np.reshape] raise [ValueError]; with 784 pixels, a digit
    of the training set outside -10..9 makes [asvector] raise
    [IndexError]. *)
Theorem load_data_errors (tr_d va_d te_d : Data.raw_set F) (r c : nat) :
  shp (Data.images tr_d) = Sh2 r c → 0 < r →
  (c ≠ 784 → Data.load_data (tr_d, va_d, te_d) = Raise ValueError) ∧
  (c = 784 → ¬ Forall (λ j, -10 ≤ j < 10)%Z (Data.digits tr_d) →
     Data.load_data (tr_d, va_d, te_d) = Raise IndexError).
Proof.
  intros Htr Hr. split.
  - intros Hc. unfold Data.load_data.
    by rewrite (inputs_of_wrong_width tr_d r c).
  - intros -> Hbad. unfold Data.load_data.
    rewrite (inputs_of_ok tr_d r Htr). mstep.
    by rewrite mapM_asvector_bad_digit.
Qed.

End LoadDataTheorems.

Tactic Notation "mstep" "in" hyp(H) :=
  cbn [mbind mret result_bind result_ret] in H.

(** ** Arrays that hold as many entries as their shape says *)

Section Validity.
Context {F : Type} `{Scalar F}.
Implicit Types a b z d x y : ndarray F.
Implicit Types ws bs zl acts ds gws : list (ndarray F).

Lemma valid_zip_with (f : F → F → F) a b :
  shp a = shp b → valid a → valid b →
  valid (mk_ndarray (shp a) (zip_with f (data a) (data b))).
Proof.
  unfold valid. cbn [shp data]. intros Hab Ha Hb.
  rewrite length_zip_with, Ha, Hb, Hab. lia.
Qed.

Lemma valid_matmul (s : shape) (r c : nat) a b :
  s = Sh2 r c → valid (mk_ndarray s (matmul r c a b)).
Proof. intros ->. unfold valid, matmul. cbn [shp data size]. apply length_tabulate. Qed.

Lemma D_sigmoid_valid z :
  valid z → ∃ d, D_sigmoid z = Ok d ∧ shp d = shp z ∧ valid d.
Proof.
  intros Hz. unfold D_sigmoid, np_mul. rewrite np_zip_same by done.
  eexists. split; [done|]. split; [done|].
  apply valid_zip_with; [done|by apply valid_sigmoid|].
  by apply valid_np_map, valid_sigmoid.
Qed.

Lemma spec_forward_valid (n : nat) (sizes : list nat) bs ws a :
  layered n sizes bs ws → column n a → Forall valid bs →
  ∃ zl, spec_forward ws bs a = Ok (zl, a :: (sigmoid <$> zl)) ∧
        columns zl sizes ∧ Forall valid zl.
Proof.
  revert n bs ws a.
  induction sizes as [|m sizes IH]; intros n [|b bs] [|w ws] a Hl Ha Hv;
    try done; cbn [spec_forward].
  { exists []. split; [done|]. split; constructor. }
  destruct Hl as (Hb & Hw & Hl). apply Forall_cons_1 in Hv as [Hvb Hvbs].
  destruct (affine_ok w b a m n Hw Hb Ha) as (z & Hz & Hzc & Hzv).
  rewrite (affine_bind _ _ _ _ _ Hz).
  destruct (IH m bs ws (sigmoid z) Hl Hzc Hvbs) as (zl & -> & Hzs & Hvzl).
  mstep. cbn [fst snd]. exists (z :: zl).
  split; [done|]. split; constructor; auto.
Qed.

Lemma spec_output_delta_valid a_last y z (m : nat) :
  column m a_last → column m y → column m z →
  valid a_last → valid y → valid z →
  ∃ d, spec_output_delta a_last y z = Ok d ∧ column m d ∧ valid d.
Proof.
  unfold column. intros Ha Hy Hz Hva Hvy Hvz.
  unfold spec_output_delta, D_cost, np_sub.
  rewrite np_zip_same by congruence. mstep.
  destruct (D_sigmoid_valid z Hvz) as (ds & -> & Hds & Hvds). mstep.
  unfold np_mul. rewrite np_zip_same by (cbn [shp]; congruence).
  eexists. split; [done|]. split; [done|].
  apply (valid_zip_with fmul (mk_ndarray (shp a_last) _) ds);
    [cbn [shp]; congruence| |done].
  apply valid_zip_with; [congruence|done|done].
Qed.

Lemma spec_hidden_delta_valid w d' z (m m' : nat) :
  shp w = Sh2 m' m → column m' d' → column m z → valid z →
  ∃ d, spec_hidden_delta w d' z = Ok d ∧ column m d ∧ valid d.
Proof.
  unfold column. intros Hw Hd' Hz Hvz. unfold spec_hidden_delta.
  rewrite (np_dot_matrices (np_T w) d' m m' 1) by (by try apply shp_np_T).
  mstep. destruct (D_sigmoid_valid z Hvz) as (ds & -> & Hds & Hvds). mstep.
  unfold np_mul. rewrite np_zip_same by (cbn [shp]; congruence).
  eexists. split; [done|]. split; [done|].
  apply (valid_zip_with fmul (mk_ndarray (Sh2 m 1) _) ds);
    [cbn [shp]; congruence|by apply valid_matmul|done].
Qed.

Lemma spec_deltas_valid (n : nat) (sizes : list nat) bs ws zl a_last y :
  layered n sizes bs ws → columns zl sizes → Forall valid zl →
  column (last_size n sizes) a_last → column (last_size n sizes) y →
  valid a_last → valid y →
  ∃ ds, spec_deltas (py_tail ws) zl a_last y = Ok ds ∧ columns ds sizes ∧
        Forall valid ds.
Proof.
  revert n bs ws zl.
  induction sizes as [|m sizes IH]; intros n [|b bs] [|w ws] zl Hl Hzl Hvzl;
    try done; inversion Hzl as [|z ? zl' ? Hz Hzl']; subst.
  { intros _ _ _ _. exists []. split; [done|]. split; constructor. }
  destruct Hl as (Hb & Hw & Hl). rewrite !last_size_cons.
  apply Forall_cons_1 in Hvzl as [Hvz Hvzl'].
  intros Ha Hy Hva Hvy.
  destruct sizes as [|m' sizes].
  - inversion Hzl'; subst. cbn [spec_deltas].
    destruct (spec_output_delta_valid a_last y z m Ha Hy Hz Hva Hvy Hvz)
      as (d & -> & Hd & Hvd).
    mstep. exists [d]. split; [done|]. split; by repeat constructor.
  - destruct (IH m bs ws zl' Hl Hzl' Hvzl' Ha Hy Hva Hvy) as (ds & Hds & Hcols & Hvds).
    inversion Hzl' as [|z' ? zl'' ? Hz' Hzl'']; subst.
    destruct bs as [|b' bs], ws as [|w' ws]; try done.
    destruct Hl as (Hb' & Hw' & Hl). unfold py_tail in *.
    cbn [drop] in Hds |- *. rewrite drop_0 in Hds.
    rewrite spec_deltas_cons, Hds. mstep.
    inversion Hcols as [|d' ? ds' ? Hd' Hds']; subst.
    rewrite py_index_0. mstep.
    destruct (spec_hidden_delta_valid w' d' z m m' Hw' Hd' Hz Hvz)
      as (d & -> & Hd & Hvd).
    mstep. exists (d :: d' :: ds'). split; [done|]. split; by constructor.
Qed.

Lemma spec_weight_gradients_valid (n : nat) (sizes : list nat) bs ws ds a acts gws :
  layered n sizes bs ws → columns ds sizes → column n a → columns acts sizes →
  zipM (λ d a_prev, np_dot d (np_T a_prev)) ds (a :: acts) = Ok gws →
  Forall valid gws.
Proof.
  revert n bs ws ds a acts gws.
  induction sizes as [|m sizes IH];
    intros n [|b bs] [|w ws] ds a acts gws Hl Hds Ha Hacts;
    try done; inversion Hds as [|d ? ds' ? Hd Hds']; subst.
  { cbn [zipM]. by intros [= <-]. }
  inversion Hacts as [|a' ? acts' ? Ha' Hacts']; subst.
  destruct Hl as (Hb & Hw & Hl).
  cbn [zipM]. rewrite (np_dot_matrices d (np_T a) m 1 n) by (by try apply shp_np_T).
  mstep. intros (gws' & Hgws' & [= <-])%bind_Ok_inv.
  constructor; [by apply valid_matmul|]. by eapply (IH m bs ws ds' a' acts').
Qed.

Lemma columns_sigmoid zl (sizes : list nat) :
  columns zl sizes → columns (sigmoid <$> zl) sizes.
Proof. induction 1; cbn [fmap list_fmap]; by constructor. Qed.

(** The gradients that [backpropagate] returns hold as many entries as
    their shapes say. *)
Lemma backpropagate_valid (net : Network F) (n : nat) (sizes : list nat) x y gb gw :
  wf_net net n sizes → Forall valid (biases net) →
  column n x → column (last_size n sizes) y → valid y →
  backpropagate net x y = Ok (gb, gw) →
  Forall valid gb ∧ Forall valid gw.
Proof.
  intros Hwf Hvb Hx Hy Hvy Hbp.
  destruct (backpropagate_spec net n sizes x y Hwf Hx Hy)
    as (gb' & gw' & Hcode & Hspec & _).
  rewrite Hbp in Hcode. injection Hcode as <- <-.
  destruct Hwf as [Hnl Hlz Hne Hl].
  destruct (spec_forward_valid n sizes _ _ x Hl Hx Hvb) as (zl & Hfwd & Hzl & Hvzl).
  unfold spec_backprop in Hspec. rewrite Hfwd in Hspec. mstep in Hspec.
  cbn [fst snd] in Hspec.
  apply bind_Ok_inv in Hspec as (a_last & Ha_last & Hspec).
  pose proof (columns_sigmoid zl sizes Hzl) as Hacts.
  destruct (columns_last n sizes _ Hacts Hne) as (a_last' & Ha_last' & Hac).
  assert (a_last' = a_last) as ->.
  { pose proof (Forall2_length _ _ _ Hacts) as Hlen.
    assert (0 < length sizes) by (destruct sizes; [done|cbn; lia]).
    rewrite (py_index_neg _ 1 a_last') in Ha_last; [congruence|cbn [length]; lia|].
    cbn [length]. rewrite lookup_cons_ne_0 by lia.
    by replace (Init.Nat.pred (S (length (sigmoid <$> zl)) - 1))
      with (length sizes - 1) by lia. }
  assert (valid a_last) as Hva.
  { apply list_elem_of_lookup_2, list_elem_of_fmap in Ha_last' as (z & -> & Hz).
    apply valid_sigmoid. rewrite Forall_forall in Hvzl. by apply Hvzl. }
  destruct (spec_deltas_valid n sizes _ _ zl a_last y Hl Hzl Hvzl Hac Hy Hva Hvy)
    as (ds & Hds & Hdc & Hvds).
  rewrite Hds in Hspec. mstep in Hspec.
  apply bind_Ok_inv in Hspec as (gws & Hgws & [= <- <-]).
  split; [done|].
  by eapply (spec_weight_gradients_valid n sizes _ _ ds x (sigmoid <$> zl)).
Qed.

End Validity.

(** ** Training on well-shaped data *)

Section TrainingRuns.
Context {F G : Type} `{Scalar F} `{RandomState F G}.
Implicit Types s : sgd_state F G.
Implicit Types td : list (example F).

Lemma valid_spec_updated (rate : F) (count : nat) (p g : ndarray F) :
  shp p = shp g → valid p → valid g → valid (spec_updated rate count p g).
Proof. intros Hpg Hp Hg. unfold spec_updated. by apply valid_zip_with. Qed.

Lemma Forall_valid_zip_with (f : ndarray F → ndarray F → ndarray F)
    (l k : list (ndarray F)) :
  (∀ a b, shp a = shp b → valid a → valid b → valid (f a b)) →
  same_shapes l k → Forall valid l → Forall valid k →
  Forall valid (zip_with f l k).
Proof.
  intros Hf. induction 1 as [|a b l k Hab _ IH]; [constructor|].
  intros [Ha Hl]%Forall_cons_1 [Hb Hk]%Forall_cons_1.
  cbn [zip_with]. constructor; auto.
Qed.

Lemma Forall_valid_zeros (l : list (ndarray F)) :
  Forall valid ((λ a, np_zeros (shp a)) <$> l).
Proof. apply Forall_fmap, Forall_true. intros a. apply valid_np_zeros. Qed.

Lemma foldM_accumulate_valid (net : Network F) (n : nat) (sizes : list nat)
    (batch : list (example F)) (acc sums : list (ndarray F) * list (ndarray F)) :
  wf_net net n sizes → Forall valid (biases net) →
  Forall (λ xy, column n xy.1 ∧ column (last_size n sizes) xy.2 ∧ valid xy.2) batch →
  same_shapes acc.1 (biases net) → same_shapes acc.2 (weights net) →
  Forall valid acc.1 → Forall valid acc.2 →
  foldM (accumulate net) acc batch = Ok sums →
  Forall valid sums.1 ∧ Forall valid sums.2.
Proof.
  intros Hwf Hvb Hbatch. revert acc.
  induction Hbatch as [|[x y] batch (Hx & Hy & Hvy) _ IH];
    intros [bsum wsum] Hbs Hws Hvbs Hvws.
  { cbn [foldM]. by intros [= <-]. }
  cbn [fst snd] in *.
  destruct (backpropagate_spec net n sizes x y Hwf Hx Hy)
    as (gb & gw & Hcode & Hspec & Hgb & Hgw).
  destruct (backpropagate_valid net n sizes x y gb gw Hwf Hvb Hx Hy Hvy Hcode)
    as [Hvgb Hvgw].
  assert (same_shapes bsum gb) as Hbg
    by (eapply same_shapes_trans; [done|by apply same_shapes_sym]).
  assert (same_shapes wsum gw) as Hwg
    by (eapply same_shapes_trans; [done|by apply same_shapes_sym]).
  cbn [foldM]. rewrite accumulate_eq. cbn [fst snd].
  rewrite Hcode. mstep.
  rewrite (spec_add_gradients_ok (bsum, wsum) (gb, gw)) by done. mstep.
  apply IH; cbn [fst snd].
  - eapply same_shapes_trans; [|exact Hbs]. by apply same_shapes_zip_with.
  - eapply same_shapes_trans; [|exact Hws]. by apply same_shapes_zip_with.
  - apply Forall_valid_zip_with; try done. intros a b. apply valid_zip_with.
  - apply Forall_valid_zip_with; try done. intros a b. apply valid_zip_with.
Qed.

Lemma trainable_shaped (n : nat) (sizes : list nat) (l : list (example F)) :
  Forall (trainable n sizes) l →
  Forall (λ xy, column n xy.1 ∧ column (last_size n sizes) xy.2) l.
Proof. intros Hl. eapply Forall_impl; [exact Hl|]. by intros xy (? & ? & ?). Qed.

(** The update of a batch keeps what the next batch and the evaluation
    need. *)
Lemma update_batch_keeps
    (eta : F) (batch : list (example F)) (n : nat) (sizes : list nat) s :
  wf_net (self s) n sizes → valid_net (self s) → batch ≠ [] →
  Forall (trainable n sizes) batch →
  ∃ net',
    spec_batch_step eta (self s) batch = Ok net' ∧
    update_batch eta batch s = (Ok tt, with_self s net') ∧
    wf_net net' n sizes ∧ valid_net net' ∧
    layersz net' = layersz (self s) ∧ nlayers net' = nlayers (self s).
Proof.
  intros Hwf [Hvb Hvw] Hne Hbatch.
  destruct (update_batch_spec eta batch n sizes s Hwf Hne (trainable_shaped _ _ _ Hbatch))
    as (gb & gw & Hsum & Hupd & Hwf').
  rewrite Hupd in Hwf'. cbn [snd self] in Hwf'.
  rewrite (spec_batch_step_ok _ _ _ _ _ Hsum).
  destruct (foldM_accumulate (self s) n sizes batch
              ((λ b, np_zeros (shp b)) <$> biases (self s),
               (λ w, np_zeros (shp w)) <$> weights (self s)) Hwf
              (trainable_shaped _ _ _ Hbatch))
    as ([gb' gw'] & Hcode & Hspec & Hgb & Hgw); try apply same_shapes_zeros.
  unfold spec_gradient_sum in Hsum. rewrite Hsum in Hspec. injection Hspec as <- <-.
  opose proof* (foldM_accumulate_valid (self s) n sizes batch _ _ Hwf Hvb Hbatch
                  _ _ _ _ Hcode) as [Hvgb Hvgw];
    try apply same_shapes_zeros; try apply Forall_valid_zeros.
  cbn [fst snd] in *.
  eexists. split; [done|]. split; [by rewrite Hupd|].
  split; [done|]. split; [|done].
  split; cbn [biases weights].
  - apply Forall_valid_zip_with; try done; [|by apply same_shapes_sym].
    intros a b. apply valid_spec_updated.
  - apply Forall_valid_zip_with; try done; [|by apply same_shapes_sym].
    intros a b. apply valid_spec_updated.
Qed.

Lemma with_self_self s : with_self s (self s) = s.
Proof. by destruct s. Qed.

Lemma for_each_update_batch_keeps
    (eta : F) (batches : list (list (example F))) (n : nat) (sizes : list nat) s :
  wf_net (self s) n sizes → valid_net (self s) →
  Forall (λ batch, batch ≠ [] ∧ Forall (trainable n sizes) batch) batches →
  ∃ net',
    foldM (spec_batch_step eta) (self s) batches = Ok net' ∧
    for_each batches (update_batch eta) s = (Ok tt, with_self s net') ∧
    wf_net net' n sizes ∧ valid_net net' ∧
    layersz net' = layersz (self s) ∧ nlayers net' = nlayers (self s).
Proof.
  intros Hwf Hv Hbatches. revert s Hwf Hv.
  induction Hbatches as [|batch batches [Hne Hshaped] _ IH]; intros s Hwf Hv.
  { exists (self s). split; [done|]. split; [by rewrite with_self_self|done]. }
  destruct (update_batch_keeps eta batch n sizes s Hwf Hv Hne Hshaped)
    as (net1 & Hstep & Hupd & Hwf1 & Hv1 & Hlz1 & Hnl1).
  cbn [foldM for_each]. rewrite Hstep. mstep.
  unfold mbind at 1, M_bind at 1. rewrite Hupd.
  destruct (IH (with_self s net1) Hwf1 Hv1)
    as (net' & Hspec & Hloop & Hwfn & Hvn & Hlz & Hnl).
  cbn [with_self self] in *.
  exists net'. split; [exact Hspec|]. split; [by rewrite Hloop|].
  split; [done|]. split; [done|]. split; congruence.
Qed.


Lemma shuffle_training_data_ok s :
  ∃ s1, shuffle_training_data s = (Ok tt, s1) ∧
        self s1 = self s ∧ stdout s1 = stdout s ∧
        training_data s1 ≡ₚ training_data s.
Proof.
  unfold shuffle_training_data.
  pose proof (rs_shuffle_perm _ (training_data s) (rng s)) as Hp.
  destruct (rs_shuffle (training_data s) (rng s)) as [td g].
  eexists. by repeat split.
Qed.

Lemma trainable_batches (n : nat) (sizes : list nat) td (b : nat) :
  0 < b → Forall (trainable n sizes) td →
  Forall (λ batch, batch ≠ [] ∧ Forall (trainable n sizes) batch)
    (batches_from td b (length td) 0).
Proof.
  intros Hb Htd.
  destruct (batches_from_partition td b (length td) 0) as (_ & Hlen & _); [lia|lia|].
  apply Forall_forall. intros batch Hin. split.
  - rewrite Forall_forall in Hlen. specialize (Hlen batch Hin).
    intros ->. cbn in Hlen. lia.
  - unfold batches_from in Hin. apply list_elem_of_fmap in Hin as (k & -> & _).
    unfold py_slice. by apply Forall_take, Forall_drop.
Qed.

Lemma evaluate_ok (net : Network F) (n : nat) (sizes : list nat)
    (test : list (labelled F)) :
  wf_net net n sizes → valid_net net → last_size n sizes ≠ 0 →
  Forall (testable n) test →
  ∃ c, evaluate net test = Ok c ∧ (0 ≤ c ≤ Z.of_nat (length test))%Z.
Proof.
  intros Hwf Hv Hpos Htest. eexists. split.
  - apply evaluate_counts. eapply Forall_impl; [exact Htest|].
    intros [x y] [Hx Hvx]. by eapply predicted_ok.
  - split; [lia|]. apply Nat2Z.inj_le, length_filter.
Qed.

(** The report that ends an epoch. *)
Lemma end_of_epoch_report (j : Z) (test : list (labelled F)) (c : Z) s :
  test ≠ [] → evaluate (self s) test = Ok c →
  end_of_epoch j (Some test) s
  = (Ok tt, {| self := self s; rng := rng s; training_data := training_data s;
               stdout := stdout s ++ [Report (j + 1) c (Z.of_nat (length test))] |}).
Proof.
  intros Hne Hc. destruct test as [|xy rest]; [done|].
  unfold end_of_epoch. unfold mbind at 1, M_bind at 1, get at 1.
  unfold mbind at 1, M_bind at 1, lift at 1. by rewrite Hc.
Qed.

Lemma epoch_runs (batchsz : Z) (eta : F) (test : list (labelled F)) (j : Z)
    (n : nat) (sizes : list nat) s :
  (0 < batchsz)%Z → wf_net (self s) n sizes → valid_net (self s) →
  last_size n sizes ≠ 0 →
  Forall (trainable n sizes) (training_data s) →
  test ≠ [] → Forall (testable n) test →
  ∃ s' batches c,
    epoch batchsz eta (Some test) j s = (Ok tt, s') ∧
    make_batches (training_data s') batchsz = Ok batches ∧
    foldM (spec_batch_step eta) (self s) batches = Ok (self s') ∧
    evaluate (self s') test = Ok c ∧
    (0 ≤ c ≤ Z.of_nat (length test))%Z ∧
    stdout s' = stdout s ++ [Report (j + 1) c (Z.of_nat (length test))] ∧
    training_data s' ≡ₚ training_data s ∧
    wf_net (self s') n sizes ∧ valid_net (self s') ∧
    layersz (self s') = layersz (self s) ∧ nlayers (self s') = nlayers (self s).
Proof.
  intros Hb Hwf Hv Hpos Htd Hne Htest.
  destruct (shuffle_training_data_ok s) as (s1 & Hshuf & Hself & Hout & Hperm).
  rewrite <- Hperm in Htd. rewrite <- Hself in Hwf, Hv.
  destruct (for_each_update_batch_keeps eta
              (batches_from (training_data s1) (Z.to_nat batchsz)
                 (length (training_data s1)) 0) n sizes s1 Hwf Hv)
    as (net' & Hspec & Hloop & Hwf' & Hv' & Hlz & Hnl).
  { apply trainable_batches; [lia|done]. }
  destruct (evaluate_ok net' n sizes test Hwf' Hv' Hpos Htest) as (c & Hc & Hbound).
  eexists _, _, c. split.
  { unfold epoch. unfold mbind at 1, M_bind at 1. rewrite Hshuf.
    unfold mbind at 1, M_bind at 1, get at 1.
    unfold mbind at 1, M_bind at 1, lift at 1.
    rewrite make_batches_ok by done.
    unfold mbind at 1, M_bind at 1. rewrite Hloop.
    by apply end_of_epoch_report. }
  cbn [self rng training_data stdout with_self].
  split; [by apply make_batches_ok|]. rewrite <- Hself at 1.
  split; [done|]. split; [done|]. split; [done|]. split; [by rewrite Hout|].
  split; [done|]. split; [done|]. split; [done|]. split; congruence.
Qed.

(** The epochs [js] one after the other. *)
Lemma epochs_run (batchsz : Z) (eta : F) (test : list (labelled F)) (js : list Z)
    (n : nat) (sizes : list nat) s :
  (0 < batchsz)%Z → wf_net (self s) n sizes → valid_net (self s) →
  last_size n sizes ≠ 0 →
  Forall (trainable n sizes) (training_data s) →
  test ≠ [] → Forall (testable n) test →
  ∃ s' counts,
    for_each js (epoch batchsz eta (Some test)) s = (Ok tt, s') ∧
    length counts = length js ∧
    Forall (λ c, 0 ≤ c ≤ Z.of_nat (length test))%Z counts ∧
    stdout s'
    = stdout s ++ zip_with (λ j c, Report (j + 1) c (Z.of_nat (length test))) js counts ∧
    training_data s' ≡ₚ training_data s ∧
    wf_net (self s') n sizes ∧ valid_net (self s') ∧
    layersz (self s') = layersz (self s) ∧ nlayers (self s') = nlayers (self s).
Proof.
  intros Hb Hwf Hv Hpos Htd Hne Htest. revert s Hwf Hv Htd.
  induction js as [|j js IH]; intros s Hwf Hv Htd.
  { exists s, []. cbn [zip_with for_each length]. rewrite app_nil_r.
    split; [done|]. split; [done|]. split; [constructor|]. done. }
  destruct (epoch_runs batchsz eta test j n sizes s)
    as (s1 & batches & c & Hepoch & _ & _ & _ & Hc & Hout1 & Hperm1 & Hwf1 & Hv1 & Hlz1 & Hnl1);
    try done.
  destruct (IH s1) as (s' & counts & Hrun & Hlen & Hcounts & Hout & Hperm & Hwf' & Hv' & Hlz & Hnl);
    try done.
  { by rewrite Hperm1. }
  exists s', (c :: counts). cbn [for_each].
  unfold mbind at 1, M_bind at 1. rewrite Hepoch.
  split; [done|]. split; [cbn [length]; by rewrite Hlen|].
  split; [by constructor|].
  split; [rewrite Hout, Hout1; cbn [zip_with]; by rewrite <- (assoc_L (++))|].
  split; [by rewrite Hperm|]. split; [done|]. split; [done|]. split; congruence.
Qed.

Lemma SGD_runs
    (epochs batchsz : Z) (eta : F) (test : list (labelled F))
    (n : nat) (sizes : list nat) s :
  (0 < batchsz)%Z → wf_net (self s) n sizes → valid_net (self s) →
  last_size n sizes ≠ 0 →
  Forall (trainable n sizes) (training_data s) →
  test ≠ [] → Forall (testable n) test →
  ∃ s' counts,
    SGD epochs batchsz eta (Some test) s = (Ok tt, s') ∧
    length counts = Z.to_nat epochs ∧
    Forall (λ c, 0 ≤ c ≤ Z.of_nat (length test))%Z counts ∧
    stdout s'
    = stdout s ++ imap (λ j c, Report (Z.of_nat j + 1) c (Z.of_nat (length test))) counts ∧
    training_data s' ≡ₚ training_data s ∧
    wf_net (self s') n sizes ∧ valid_net (self s') ∧
    layersz (self s') = layersz (self s) ∧ nlayers (self s') = nlayers (self s).
Proof.
  intros Hb Hwf Hv Hpos Htd Hne Htest.
  destruct (epochs_run batchsz eta test (py_range 0 epochs) n sizes s)
    as (s' & counts & Hrun & Hlen & Hcounts & Hout & Hrest); try done.
  exists s', counts. split; [done|].
  assert (length counts = Z.to_nat epochs) as Hlen'.
  { rewrite Hlen. unfold py_range. rewrite length_fmap, length_seq. lia. }
  split; [done|]. split; [done|]. split; [|done].
  rewrite Hout. f_equal. unfold py_range.
  rewrite Z.sub_0_r, <- Hlen'. clear.
  rewrite zip_with_fmap_l.
  enough (∀ k, zip_with (λ (j : nat) c, Report (0 + Z.of_nat j + 1) c (Z.of_nat (length test)))
                 (seq k (length counts)) counts
               = imap (λ j c, Report (Z.of_nat (k + j) + 1) c (Z.of_nat (length test))) counts)
    as Hk by apply (Hk 0).
  induction counts as [|c counts IH]; intros k; [done|].
  cbn [length seq zip_with imap]. f_equal; [do 2 f_equal; lia|].
  rewrite IH. apply imap_ext. intros i x _. cbn. do 2 f_equal. lia.
Qed.

(** X5. On a well-formed network whose parameters hold as many entries as
    their shapes say, with a positive batch size, training examples that
    are columns of the sizes of the input and of the output layer, and a
    test set that is not empty and holds columns of the size of the input
    layer, [SGD] raises no exception: it returns after [epochs] epochs,
    having printed one report per epoch, numbered from 1, each with a count
    of right answers between 0 and the size of the test set and with that
    size; the training set is a permutation of what it was, and the network
    has the layer sizes and the shapes it had. *)
Theorem SGD_runs_to_completion
    (epochs batchsz : Z) (eta : F) (test : list (labelled F))
    (n : nat) (sizes : list nat) s :
  (0 < batchsz)%Z → wf_net (self s) n sizes → valid_net (self s) →
  last_size n sizes ≠ 0 →
  Forall (trainable n sizes) (training_data s) →
  test ≠ [] → Forall (testable n) test →
  ∃ s' counts,
    SGD epochs batchsz eta (Some test) s = (Ok tt, s') ∧
    length counts = Z.to_nat epochs ∧
    Forall (λ c, 0 ≤ c ≤ Z.of_nat (length test))%Z counts ∧
    stdout s'
    = stdout s ++ imap (λ j c, Report (Z.of_nat j + 1) c (Z.of_nat (length test))) counts ∧
    training_data s' ≡ₚ training_data s ∧
    wf_net (self s') n sizes ∧ valid_net (self s') ∧
    layersz (self s') = layersz (self s) ∧ nlayers (self s') = nlayers (self s).
Proof. apply SGD_runs. Qed.

End TrainingRuns.

Section TrainingErrors.
Context {F G : Type} `{Scalar F} `{RandomState F G}.
Implicit Types s : sgd_state F G.
Implicit Types td : list (example F).

Lemma end_of_epoch_falsy (j : Z) (test : option (list (labelled F))) s :
  test = None ∨ test = Some [] → end_of_epoch j test s = (Raise TypeError, s).
Proof. by intros [-> | ->]. Qed.

(** X6. Without test data ([None], the default, or an empty list) the
    report at the end of an epoch is the format string that asks for two
    values and is given one: on a well-formed network and well-shaped
    training examples, a call of [SGD] with at least one epoch applies the
    batches of the first epoch and then raises [TypeError], leaving the
    network as that one epoch made it, whatever the number of epochs asked
    for. *)
Theorem SGD_without_test_data_stops_after_first_epoch
    (epochs batchsz : Z) (eta : F) (test : option (list (labelled F)))
    (n : nat) (sizes : list nat) s :
  (0 < epochs)%Z → (0 < batchsz)%Z → wf_net (self s) n sizes →
  Forall (λ xy, column n xy.1 ∧ column (last_size n sizes) xy.2) (training_data s) →
  test = None ∨ test = Some [] →
  ∃ batches net',
    make_batches (training_data (shuffle_training_data s).2) batchsz = Ok batches ∧
    foldM (spec_batch_step eta) (self s) batches = Ok net' ∧
    SGD epochs batchsz eta test s
    = (Raise TypeError, with_self (shuffle_training_data s).2 net').
Proof.
  intros Hepochs Hb Hwf Htd Htest.
  destruct (epoch_updates_follow_spec batchsz eta n sizes s Hb Hwf Htd)
    as (batches & net' & Hmk & Hspec & Hloop & _).
  exists batches, net'. split; [done|]. split; [done|].
  unfold SGD. rewrite py_range_cons by lia. cbn [for_each].
  unfold mbind at 1, M_bind at 1.
  enough (epoch batchsz eta test 0 s
          = (Raise TypeError, with_self (shuffle_training_data s).2 net')) as ->
    by done.
  unfold epoch. unfold mbind at 1, M_bind at 1.
  destruct (shuffle_training_data_ok s) as (s1 & Hshuf & _).
  rewrite Hshuf in *. cbn [snd] in *.
  unfold mbind at 1, M_bind at 1, get at 1.
  unfold mbind at 1, M_bind at 1, lift at 1. rewrite Hmk.
  unfold mbind at 1, M_bind at 1. rewrite Hloop.
  by apply end_of_epoch_falsy.
Qed.

(** *** Calls that make no batch *)

Lemma make_batches_none td (batchsz : Z) :
  (batchsz ≤ 0)%Z ∨ td = [] →
  make_batches td batchsz = Ok [] ∨ make_batches td batchsz = Raise ValueError.
Proof.
  intros Hnone. unfold make_batches, py_range_step.
  destruct (decide (batchsz = 0)%Z); [by right|].
  destruct (decide (batchsz < 0)%Z); [by left|].
  destruct Hnone as [?| ->]; [lia|]. by left.
Qed.

Lemma end_of_epoch_self (j : Z) (test : option (list (labelled F))) s :
  self (end_of_epoch j test s).2 = self s ∧
  training_data (end_of_epoch j test s).2 = training_data s.
Proof.
  destruct test as [[|xy rest]|]; try done.
  unfold end_of_epoch, mbind, M_bind, get, lift, print.
  destruct (evaluate (self s) (xy :: rest)); split; reflexivity.
Qed.

Lemma epoch_no_batches (batchsz : Z) (eta : F) (test : option (list (labelled F)))
    (j : Z) s :
  (batchsz ≤ 0)%Z ∨ training_data s = [] →
  self (epoch batchsz eta test j s).2 = self s ∧
  ((batchsz ≤ 0)%Z ∨ training_data (epoch batchsz eta test j s).2 = []).
Proof.
  intros Hnone.
  destruct (shuffle_training_data_ok s) as (s1 & Hshuf & Hself & _ & Hperm).
  assert ((batchsz ≤ 0)%Z ∨ training_data s1 = []) as Hnone1.
  { destruct Hnone as [?|Hnil]; [by left|right].
    rewrite Hnil in Hperm. by apply Permutation_nil_r. }
  assert (∀ r, make_batches (training_data s1) batchsz = r →
            epoch batchsz eta test j s
            = (batches ← lift r;
               _ ← for_each batches (update_batch eta); end_of_epoch j test) s1)
    as Hepoch.
  { intros r <-. unfold epoch. unfold mbind at 1, M_bind at 1. by rewrite Hshuf. }
  destruct (make_batches_none (training_data s1) batchsz Hnone1) as [Hmk|Hmk];
    rewrite (Hepoch _ Hmk).
  - change ((batches ← lift (Ok []);
             _ ← for_each batches (update_batch eta); end_of_epoch j test) s1)
      with (end_of_epoch j test s1).
    destruct (end_of_epoch_self j test s1) as [-> ->]. done.
  - done.
Qed.

Lemma epochs_no_batches (batchsz : Z) (eta : F) (test : option (list (labelled F)))
    (js : list Z) s :
  (batchsz ≤ 0)%Z ∨ training_data s = [] →
  self (for_each js (epoch batchsz eta test) s).2 = self s.
Proof.
  revert s. induction js as [|j js IH]; intros s Hnone; [done|].
  cbn [for_each]. unfold mbind at 1, M_bind at 1.
  destruct (epoch_no_batches batchsz eta test j s Hnone) as [Hself Hnone'].
  destruct (epoch batchsz eta test j s) as [[[]|e] s1]; cbn [snd] in *; [|done].
  rewrite IH by done. done.
Qed.

(** X7. A call of [SGD] whose batch size is zero or negative, or whose
    training set is empty, makes no batch, so that it never assigns the
    weights or the biases: whatever it prints or raises, the network after
    the call is the network before it. *)
Theorem SGD_without_batches_keeps_network
    (epochs batchsz : Z) (eta : F) (test : option (list (labelled F))) s :
  (batchsz ≤ 0)%Z ∨ training_data s = [] →
  self (SGD epochs batchsz eta test s).2 = self s.
Proof. apply epochs_no_batches. Qed.

(** X8. With a batch size of zero, [range(0, len(training_data), 0)] raises
    [ValueError] in the first epoch, after the shuffle of the training set
    and before anything is printed. *)
Theorem SGD_zero_batch_size_raises
    (epochs : Z) (eta : F) (test : option (list (labelled F))) s :
  (0 < epochs)%Z →
  SGD epochs 0 eta test s = (Raise ValueError, (shuffle_training_data s).2) ∧
  self (shuffle_training_data s).2 = self s ∧
  stdout (shuffle_training_data s).2 = stdout s ∧
  training_data (shuffle_training_data s).2 ≡ₚ training_data s.
Proof.
  intros Hepochs.
  destruct (shuffle_training_data_ok s) as (s1 & Hshuf & Hself & Hout & Hperm).
  rewrite Hshuf. cbn [snd]. split; [|done].
  unfold SGD. rewrite py_range_cons by lia. cbn [for_each].
  unfold mbind at 1, M_bind at 1.
  enough (epoch 0 eta test 0 s = (Raise ValueError, s1)) as -> by done.
  unfold epoch. unfold mbind at 1, M_bind at 1. rewrite Hshuf. done.
Qed.

(** *** A batch with a mis-shaped example *)

Lemma foldM_app {S A : Type} (body : S → A → result S) (s : S) (l k : list A) :
  foldM body s (l ++ k) = (s' ← foldM body s l; foldM body s' k).
Proof.
  revert s. induction l as [|x l IH]; intros s; [done|].
  cbn [app foldM]. destruct (body s x) as [s'|e]; mstep; [apply IH|done].
Qed.

Lemma backpropagate_rejects (net : Network F) (n : nat) (sizes : list nat)
    (x y : ndarray F) :
  wf_net net n sizes →
  ¬ (column n x ∧ column (last_size n sizes) y) →
  backpropagate net x y
  = Raise (RuntimeError (if decide (shp x = Sh2 n 1) then "Output array has wrong shape"
                         else "Input array has wrong shape")).
Proof.
  intros Hwf Hbad.
  assert (py_index (layersz net) 0 = Ok (Z.of_nat n)) as Hfirst
    by (by rewrite (wf_layersz _ _ _ Hwf)).
  assert (py_index (layersz net) (-1) = Ok (Z.of_nat (last_size n sizes))) as Hlast
    by (rewrite (wf_layersz _ _ _ Hwf); apply py_index_layersz_last).
  assert (∀ (m : nat) (a : ndarray F),
            shape_tuple (shp a) = [Z.of_nat m; 1%Z] → column m a) as Hcol.
  { intros m a. unfold column. destruct (shp a) as [|k|r c]; cbn; try done.
    intros [= Hr Hc]. f_equal; lia. }
  destruct (decide (shp x = Sh2 n 1)) as [Hx|Hx].
  - apply (backpropagate_rejects_target net (Z.of_nat n) (Z.of_nat (last_size n sizes)));
      try done; [by apply shape_tuple_column|].
    intros Hy%Hcol. tauto.
  - apply (backpropagate_rejects_input net (Z.of_nat n)); [done|].
    intros Hx'%Hcol. tauto.
Qed.

(** X9. A batch that holds a mis-shaped example, after examples of the
    right shapes, makes [update_batch] raise the [RuntimeError] of
    [backpropagate] (for the input if the image is not a column of the size
    of the input layer, else for the target) before it assigns anything:
    the weights and the biases, and the rest of the state, are what they
    were before the batch. *)
Theorem update_batch_mis_shaped_example
    (eta : F) (good rest : list (example F)) (x y : ndarray F)
    (n : nat) (sizes : list nat) s :
  wf_net (self s) n sizes →
  Forall (λ xy, column n xy.1 ∧ column (last_size n sizes) xy.2) good →
  ¬ (column n x ∧ column (last_size n sizes) y) →
  update_batch eta (good ++ (x, y) :: rest) s
  = (Raise (RuntimeError (if decide (shp x = Sh2 n 1) then "Output array has wrong shape"
                          else "Input array has wrong shape")), s).
Proof.
  intros Hwf Hgood Hbad.
  destruct (foldM_accumulate (self s) n sizes good
              ((λ b, np_zeros (shp b)) <$> biases (self s),
               (λ w, np_zeros (shp w)) <$> weights (self s)) Hwf Hgood)
    as (sums & Hcode & _); try apply same_shapes_zeros.
  unfold update_batch. unfold mbind at 1, M_bind at 1, get at 1.
  unfold mbind at 1, M_bind at 1, lift at 1.
  rewrite foldM_app, Hcode. mstep. cbn [foldM]. rewrite accumulate_eq.
  cbn [fst snd]. by rewrite (backpropagate_rejects _ n sizes).
Qed.

End TrainingErrors.

(** ** More on the evaluator *)

Lemma mapM_result_app {A B : Type} (f : A → result B) (l k : list A) :
  mapM f (l ++ k) = (a ← mapM f l; b ← mapM f k; Ok (a ++ b)).
Proof.
  induction l as [|x l IH].
  { cbn [app]. change (mapM f []) with (Ok (@nil B)). mstep.
    by destruct (mapM f k). }
  cbn [app]. rewrite !mapM_result_cons. destruct (f x) as [y|e]; mstep; [|done].
  rewrite IH. destruct (mapM f l) as [ys|e]; mstep; [|done].
  by destruct (mapM f k).
Qed.

Section EvaluateMore.
Context {F : Type} `{Scalar F}.
Implicit Types x : ndarray F.

Lemma argmax_from_lt (best_i : nat) (best : F) (i : nat) (l : list F) :
  best_i < i → argmax_from best_i best i l < i + length l.
Proof.
  revert best_i best i. induction l as [|v l IH]; intros best_i best i Hi.
  { cbn. lia. }
  cbn [argmax_from length].
  destruct (negb (fisnan best) && (fisnan v || fltb best v)).
  - specialize (IH i v (S i)). lia.
  - specialize (IH best_i best (S i)). lia.
Qed.

Lemma np_argmax_range (a : ndarray F) (p : Z) :
  np_argmax a = Ok p → (0 ≤ p < Z.of_nat (length (data a)))%Z.
Proof.
  unfold np_argmax. destruct (data a) as [|v l]; [done|]. intros [= <-].
  pose proof (argmax_from_lt 0 v 1 l). cbn [length]. lia.
Qed.

Lemma evaluate_sum (net : Network F) (test : list (ndarray F * Z)) :
  evaluate net test
  = (rs ← mapM (λ xy, out ← feedforward net xy.1; p ← np_argmax out; Ok (p, xy.2)) test;
     Ok (Z.of_nat (length (filter (λ xy : Z * Z, xy.1 = xy.2) rs)))).
Proof.
  unfold evaluate. destruct (mapM _ test) as [rs|e]; mstep; [|done].
  by rewrite foldl_indicators.
Qed.

(** X10. The count of [evaluate] on two data sets put end to end is the sum
    of the counts on each; an exception comes from the first set if that
    one raises, else from the second. *)
Theorem evaluate_app (net : Network F) (d1 d2 : list (ndarray F * Z)) :
  evaluate net (d1 ++ d2)
  = (r1 ← evaluate net d1; r2 ← evaluate net d2; Ok (r1 + r2)%Z).
Proof.
  rewrite !evaluate_sum, mapM_result_app.
  destruct (mapM _ d1) as [rs1|e]; mstep; [|done].
  destruct (mapM _ d2) as [rs2|e]; mstep; [|done].
  rewrite filter_app, length_app. f_equal. lia.
Qed.

(** X11. [evaluate] does not skip an image it cannot feed forward: when the
    images before it go through, an image whose shape is not
    [(layersz[0], 1)] makes the whole call raise the [RuntimeError] of
    [feedforward], whatever follows it. *)
Theorem evaluate_mis_shaped_image
    (net : Network F) (n0 : Z) (pre post : list (ndarray F * Z)) x (y : Z) :
  py_index (layersz net) 0 = Ok n0 →
  Forall (λ xy, ∃ p, predicted net xy.1 = Ok p) pre →
  shape_tuple (shp x) ≠ [n0; 1%Z] →
  evaluate net (pre ++ (x, y) :: post)
  = Raise (RuntimeError "Input array has wrong shape - must be (784, 1)").
Proof.
  intros Hn0 Hpre Hx.
  rewrite evaluate_sum,
    (mapM_result_Raise _
       (λ xy, (match predicted net xy.1 with Ok p => p | Raise _ => 0%Z end, xy.2))
       pre post (x, y)
       (RuntimeError "Input array has wrong shape - must be (784, 1)")).
  - done.
  - eapply Forall_impl; [exact Hpre|]. intros [x' y'] [p Hp]. cbn [fst snd] in *.
    rewrite Hp. unfold predicted in Hp.
    apply bind_Ok_inv in Hp as (out & -> & Hp). mstep. by rewrite Hp.
  - cbn [fst snd]. by rewrite (feedforward_rejects net n0).
Qed.

(** X12. On a well-formed network with at least one output neuron, the
    digit predicted for an image of the right shape is an index of the
    output layer: with ten output neurons it lies between 0 and 9, so that
    an example labelled with any other number is never counted as right. *)
Theorem prediction_is_an_output_index
    (net : Network F) (n : nat) (sizes : list nat) x :
  wf_net net n sizes → valid_net net → last_size n sizes ≠ 0 →
  column n x → valid x →
  ∃ p, predicted net x = Ok p ∧ (0 ≤ p < Z.of_nat (last_size n sizes))%Z ∧
       ∀ y, ¬ (0 ≤ y < Z.of_nat (last_size n sizes))%Z → is_correct net (x, y) = false.
Proof.
  intros Hwf Hv Hpos Hx Hvx.
  destruct (feedforward_ok net n sizes x Hwf Hx) as (out & Hout & _ & Hc & Hvo & _).
  specialize (Hvo Hv Hvx). unfold valid in Hvo. rewrite Hc in Hvo. cbn [size] in Hvo.
  destruct (predicted_ok net n sizes x Hwf Hv Hpos Hx Hvx) as [p Hp].
  exists p. split; [done|].
  assert (0 ≤ p < Z.of_nat (last_size n sizes))%Z as Hrange.
  { unfold predicted in Hp. rewrite Hout in Hp. mstep in Hp.
    apply np_argmax_range in Hp. lia. }
  split; [done|]. intros y Hy. unfold is_correct. cbn [fst snd]. rewrite Hp.
  apply bool_decide_eq_false. lia.
Qed.

End EvaluateMore.

(** ** More on the constructor *)

Section ConstructionMore.
Context {F G : Type} `{Scalar F} `{RandomState F G}.

Lemma mapM_randn_negative {A : Type} (dims : A → Z * Z) (l : list A) (g : G) :
  ¬ Forall (λ x, 0 ≤ (dims x).1 ∧ 0 ≤ (dims x).2)%Z l →
  (mapM (λ x, np_random_randn (F:=F) (dims x).1 (dims x).2) l g).1 = Raise ValueError.
Proof.
  intros Hneg.
  destruct (mapM (M:=M G) _ l g) as [[arrays|e] g'] eqn:Hm.
  - exfalso. apply Hneg. apply (mapM_randn_inv dims) in Hm.
    apply Forall_forall. intros x Hx. apply list_elem_of_lookup in Hx as [i Hi].
    destruct (Forall2_lookup_r _ _ _ _ _ Hm Hi) as (a & _ & ? & ? & _). done.
  - by apply (mapM_randn_raises dims) in Hm as ->.
Qed.

(** X13. The errors of the constructor, in the order of its checks: an
    empty list of sizes raises [IndexError]; a first size other than 784
    raises the [RuntimeError] of the input layer, whatever the last size
    is; with 784 first, a last size other than 10 raises the one of the
    output layer; both leave numpy's generator as it was.  With 784 first
    and 10 last, a negative size raises the [ValueError] of
    [np.random.randn]. *)
Theorem init_errors (sizes : list Z) (g : G) :
  (sizes = [] → init (F:=F) sizes g = (Raise IndexError, g)) ∧
  (∀ first, head sizes = Some first → first ≠ 784%Z →
     init (F:=F) sizes g
     = (Raise (RuntimeError "The size of the input layer must be 784"), g)) ∧
  (∀ final, head sizes = Some 784%Z → last sizes = Some final → final ≠ 10%Z →
     init (F:=F) sizes g
     = (Raise (RuntimeError "The size of the output layer must be 10"), g)) ∧
  (head sizes = Some 784%Z → last sizes = Some 10%Z →
   ¬ Forall (λ z, 0 ≤ z)%Z sizes →
     (init (F:=F) sizes g).1 = Raise ValueError).
Proof.
  split; [by intros ->|]. destruct sizes as [|s0 rest].
  { split; [done|]. split; done. }
  split; [|split].
  - intros first [= ->] Hne. unfold init. rewrite py_index_0, M_bind_lift_Ok.
    by rewrite decide_True.
  - intros final [= ->] Hlast Hne. unfold init. rewrite py_index_0, M_bind_lift_Ok.
    rewrite decide_False by (by intros ?).
    rewrite py_index_last, M_bind_lift_Ok. rewrite decide_True; [done|].
    rewrite last_cons in Hlast. destruct (last rest); cbn in *; congruence.
  - intros [= ->] Hlast Hneg. unfold init. rewrite py_index_0, M_bind_lift_Ok.
    rewrite decide_False by (by intros ?).
    rewrite py_index_last, M_bind_lift_Ok. rewrite decide_False.
    2: { rewrite last_cons in Hlast. intros Hne. apply Hne.
         destruct (last rest); cbn in *; congruence. }
    unfold mbind at 1, M_bind at 1.
    opose proof* (mapM_randn_negative (λ i, (i, 1%Z)) (py_tail (784%Z :: rest)) g)
      as Hb.
    { intros Hnn. apply Hneg. constructor; [lia|].
      unfold py_tail in Hnn. cbn [drop] in Hnn. rewrite drop_0 in Hnn.
      eapply Forall_impl; [exact Hnn|]. cbn. lia. }
    cbn [fst snd] in Hb.
    destruct (mapM (M:=M G) _ (py_tail (784%Z :: rest)) g) as [[bs|e] g1];
      cbn [fst] in Hb; [done|by injection Hb as ->].
Qed.

(** X14. A network that the constructor returns is ready for use: every
    valid column of 784 pixels goes through [feedforward] to a column of
    ten entries, [np.argmax] of which is a digit from 0 to 9, and with any
    column of ten entries as target [backpropagate] returns its gradients. *)
Theorem init_network_is_usable
    (sizes : list Z) (g g' : G) (net : Network F) (x y : ndarray F) :
  init sizes g = (Ok net, g') → column 784 x → valid x → column 10 y →
  (∃ out p, feedforward net x = Ok out ∧
            shape_tuple (shp out) = [10; 1]%Z ∧ length (data out) = 10 ∧
            np_argmax out = Ok p ∧ (0 ≤ p < 10)%Z) ∧
  (∃ gb gw, backpropagate net x y = Ok (gb, gw) ∧
            same_shapes gb (biases net) ∧ same_shapes gw (weights net)).
Proof.
  intros Hinit Hx Hvx Hy.
  destruct (init_inv sizes g g' net Hinit) as (n & ns & -> & -> & Hlast & Hwf & Hv).
  split.
  - destruct (feedforward_ok net 784 ns x Hwf Hx) as (out & Hout & _ & Hc & Hvo & _).
    specialize (Hvo Hv Hvx). unfold valid in Hvo. rewrite Hc, Hlast in Hvo.
    cbn [size] in Hvo.
    destruct (predicted_ok net 784 ns x Hwf Hv) as [p Hp]; try done; [lia|].
    unfold predicted in Hp. rewrite Hout in Hp. mstep in Hp.
    exists out, p. split; [done|]. rewrite Hc, Hlast. split; [done|].
    split; [lia|]. split; [done|]. apply np_argmax_range in Hp. lia.
  - rewrite <- Hlast in Hy.
    destruct (backpropagate_spec net 784 ns x y Hwf Hx Hy)
      as (gb & gw & Hcode & _ & Hgb & Hgw).
    by exists gb, gw.
Qed.

(** *** The samples that the constructor draws *)

Lemma draws_app (a b : nat) (g : G) :
  draws (F:=F) (a + b) g
  = ((draws a g).1 ++ (draws b (draws (F:=F) a g).2).1,
     (draws (F:=F) b (draws (F:=F) a g).2).2).
Proof.
  revert g. induction a as [|a IH]; intros g.
  { cbn [draws Nat.add fst snd app]. by destruct (draws b g). }
  cbn [Nat.add draws]. destruct (rs_normal g) as [v g1]. rewrite IH.
  destruct (draws a g1) as [vs g2]. cbn [fst snd].
  by destruct (draws b g2).
Qed.

Lemma np_random_randn_draws (i j : Z) (g g' : G) (a : ndarray F) :
  np_random_randn i j g = (Ok a, g') →
  draws (size (shp a)) g = (data a, g').
Proof.
  unfold np_random_randn. destruct (decide (i < 0 ∨ j < 0)%Z); [done|].
  destruct (draws _ g) as [vs g1] eqn:Hd. intros [= <- <-]. done.
Qed.

Lemma mapM_randn_draws {A : Type} (dims : A → Z * Z) (l : list A) (g g' : G)
    (arrays : list (ndarray F)) :
  mapM (λ x, np_random_randn (dims x).1 (dims x).2) l g = (Ok arrays, g') →
  draws (parameter_count arrays) g = (concat (data <$> arrays), g').
Proof.
  revert g g' arrays. induction l as [|x l IH]; intros g g' arrays.
  { by intros [= <- <-]. }
  rewrite mapM_state_cons.
  intros (a & g1 & Ha & (rest & g2 & Hrest & [= <- <-])%M_bind_Ok_inv)%M_bind_Ok_inv.
  apply np_random_randn_draws in Ha. apply IH in Hrest.
  unfold parameter_count in *. cbn [fmap list_fmap sum_list_with concat].
  rewrite draws_app, Ha. cbn [fst snd]. by rewrite Hrest.
Qed.

(** X15. The constructor draws exactly one sample per parameter from
    numpy's generator, in this order: the bias vectors from the first
    hidden layer to the output layer, then the weight matrices in the same
    order, each of them row by row; the generator is left after the last
    of these samples.  Seeding the generator before the constructor
    therefore fixes the network. *)
Theorem init_draws_parameters_in_order
    (sizes : list Z) (g g' : G) (net : Network F) :
  init sizes g = (Ok net, g') →
  draws (parameter_count (biases net ++ weights net)) g
  = (concat (data <$> biases net) ++ concat (data <$> weights net), g').
Proof.
  destruct sizes as [|s0 rest].
  { unfold init. by rewrite py_index_empty. }
  unfold init. rewrite py_index_0, M_bind_lift_Ok.
  destruct (decide (s0 ≠ 784%Z)); [done|].
  rewrite py_index_last, M_bind_lift_Ok.
  destruct (decide (default s0 (last rest) ≠ 10%Z)); [done|].
  intros (bs & g1 & Hbs & (ws & g2 & Hws & [= <- <-])%M_bind_Ok_inv)%M_bind_Ok_inv.
  cbn [biases weights].
  apply (mapM_randn_draws (λ i, (i, 1%Z))) in Hbs.
  apply (mapM_randn_draws (λ ij, ij)) in Hws.
  unfold parameter_count in *.
  rewrite sum_list_with_app, draws_app, Hbs. cbn [fst snd].
  by rewrite Hws.
Qed.

End ConstructionMore.

(** ** Calculus on the layers *)

Section Sums.
Local Open Scope R_scope.

Lemma rsum_ext (n : nat) (f g : nat → R) :
  (∀ k, (k < n)%nat → f k = g k) → rsum n f = rsum n g.
Proof.
  induction n as [|n IH]; intros Hfg; [done|].
  cbn [rsum]. rewrite IH, Hfg by (intros; auto with lia). done.
Qed.

Lemma rsum_zero (n : nat) : rsum n (λ _, 0) = 0.
Proof. induction n as [|n IH]; cbn [rsum]; [done|]. rewrite IH. lra. Qed.

Lemma rsum_plus (n : nat) (f g : nat → R) :
  rsum n (λ k, f k + g k) = rsum n f + rsum n g.
Proof. induction n as [|n IH]; cbn [rsum]; [lra|]. rewrite IH. lra. Qed.

Lemma rsum_scal_l (n : nat) (c : R) (f : nat → R) :
  rsum n (λ k, c * f k) = c * rsum n f.
Proof. induction n as [|n IH]; cbn [rsum]; [lra|]. rewrite IH. lra. Qed.

Lemma rsum_scal_r (n : nat) (c : R) (f : nat → R) :
  rsum n (λ k, f k * c) = rsum n f * c.
Proof. induction n as [|n IH]; cbn [rsum]; [lra|]. rewrite IH. lra. Qed.

Lemma rsum_exchange (n m : nat) (f : nat → nat → R) :
  rsum n (λ i, rsum m (λ j, f i j)) = rsum m (λ j, rsum n (λ i, f i j)).
Proof.
  induction n as [|n IH]; cbn [rsum].
  { by rewrite rsum_zero. }
  rewrite IH. by rewrite <- rsum_plus.
Qed.

Lemma rsum_single (n i0 : nat) (c : nat → R) :
  (i0 < n)%nat →
  rsum n (λ i, if decide (i = i0) then c i else 0) = c i0.
Proof.
  induction n as [|n IH]; intros Hi; [lia|]. cbn [rsum].
  destruct (decide (n = i0)) as [->|Hne].
  - rewrite (rsum_ext _ _ (λ _, 0)), rsum_zero; [lra|].
    intros k Hk. rewrite decide_False by lia. done.
  - rewrite IH by lia. lra.
Qed.

Lemma derivable_rsum (n : nat) (f : R → nat → R) (f' : nat → R) (t0 : R) :
  (∀ k, (k < n)%nat → derivable_pt_lim (λ t, f t k) t0 (f' k)) →
  derivable_pt_lim (λ t, rsum n (f t)) t0 (rsum n f').
Proof.
  induction n as [|n IH]; intros Hf; cbn [rsum].
  { apply (derivable_pt_lim_const 0). }
  apply (derivable_pt_lim_plus (λ t, rsum n (f t)) (λ t, f t n)); auto.
Qed.

Lemma derivable_const (c t0 : R) : derivable_pt_lim (λ _, c) t0 0.
Proof. apply (derivable_pt_lim_const c). Qed.

Lemma derivable_id (t0 : R) : derivable_pt_lim (λ t, t) t0 1.
Proof. apply derivable_pt_lim_id. Qed.

Lemma derivable_eq (f : R → R) (t0 l l' : R) :
  l = l' → derivable_pt_lim f t0 l → derivable_pt_lim f t0 l'.
Proof. by intros ->. Qed.

Lemma sig_pos (t : R) : 0 < 1 + exp (- t).
Proof. pose proof (exp_pos (- t)). lra. Qed.

Lemma derivable_sig (z : R) : derivable_pt_lim sig z (dsig z).
Proof.
  unfold dsig, sig.
  pose proof (sig_pos z) as Hpos.
  assert (derivable_pt_lim (λ t, exp (- t)) z (exp (- z) * -1)) as Hexp.
  { apply (derivable_pt_lim_comp (λ t, - t) exp).
    - apply (derivable_pt_lim_opp (λ t, t) z 1), derivable_id.
    - apply derivable_pt_lim_exp. }
  assert (derivable_pt_lim (λ t, 1 + exp (- t)) z (0 + exp (- z) * -1)) as Hden.
  { apply (derivable_pt_lim_plus (λ _, 1) (λ t, exp (- t))); [|done].
    apply derivable_const. }
  eapply derivable_eq;
    [|apply (derivable_pt_lim_div (λ _, 1) (λ t, 1 + exp (- t)) z 0
               (0 + exp (- z) * -1)); [apply derivable_const|done|lra]].
  unfold Rsqr. field. lra.
Qed.

Lemma derivable_sig_comp (u : R → R) (t0 u' : R) :
  derivable_pt_lim u t0 u' →
  derivable_pt_lim (λ t, sig (u t)) t0 (dsig (u t0) * u').
Proof.
  intros Hu. apply (derivable_pt_lim_comp u sig); [done|]. apply derivable_sig.
Qed.

Lemma derivable_scal (c : R) (u : R → R) (t0 u' : R) :
  derivable_pt_lim u t0 u' →
  derivable_pt_lim (λ t, c * u t) t0 (c * u').
Proof. intros Hu. by apply (derivable_pt_lim_scal u c). Qed.

End Sums.

Section Layers.
Local Open Scope R_scope.
Implicit Types a y : nat → R.
Implicit Types layers rest : list layer.

Lemma affine_ext (n : nat) (w b : list R) a a' (i : nat) :
  (∀ k, (k < n)%nat → a k = a' k) → affine n w b a i = affine n w b a' i.
Proof.
  intros Ha. unfold affine. f_equal. apply rsum_ext. intros k Hk.
  by rewrite Ha.
Qed.

Lemma forward_cost_ext (n : nat) layers y a a' :
  (∀ k, (k < n)%nat → a k = a' k) →
  forward_cost n layers y a = forward_cost n layers y a'.
Proof.
  revert n a a'. induction layers as [|[[m w] b] rest IH]; intros n a a' Ha;
    cbn [forward_cost].
  - f_equal. apply rsum_ext. intros k Hk. by rewrite Ha.
  - apply IH. intros i _. f_equal. by apply affine_ext.
Qed.

Lemma act_after_ext (n : nat) layers a a' :
  (∀ k, (k < n)%nat → a k = a' k) →
  ∀ i, (i < out_dim n layers)%nat → act_after n layers a i = act_after n layers a' i.
Proof.
  revert n a a'. induction layers as [|[[m w] b] rest IH]; intros n a a' Ha;
    cbn [act_after out_dim]; [done|].
  apply IH. intros i _. f_equal. by apply affine_ext.
Qed.

Lemma grad_a_ext (n : nat) layers y a a' (t : nat) :
  (∀ k, (k < n)%nat → a k = a' k) → (t < n)%nat →
  grad_a n layers y a t = grad_a n layers y a' t.
Proof.
  revert n a a' t. induction layers as [|[[m w] b] rest IH]; intros n a a' t Ha Ht;
    cbn [grad_a].
  - by rewrite Ha.
  - apply rsum_ext. intros i Hi.
    rewrite (affine_ext n w b a a' i Ha). f_equal. f_equal.
    apply IH; [|done]. intros k _. f_equal. by apply affine_ext.
Qed.

Lemma derivable_affine (n : nat) (w b : list R) (u : R → nat → R) (u' : nat → R)
    (t0 : R) (i : nat) :
  (∀ k, (k < n)%nat → derivable_pt_lim (λ t, u t k) t0 (u' k)) →
  derivable_pt_lim (λ t, affine n w b (u t) i) t0
    (rsum n (λ s, comp w (i * n + s) * u' s)).
Proof.
  intros Hu. unfold affine.
  eapply derivable_eq;
    [|apply (derivable_pt_lim_plus
               (λ t, rsum n (λ s, comp w (i * n + s) * u t s))
               (λ _, comp b i));
      [apply (derivable_rsum n (λ t s, comp w (i * n + s) * u t s)
                (λ s, comp w (i * n + s) * u' s))|
       apply derivable_const]].
  - lra.
  - intros k Hk. apply derivable_scal. by apply Hu.
Qed.

(** The recursion of the backward pass gives the gradient of the cost with
    respect to the activation that enters the layers. *)
Lemma forward_cost_has_grad layers (n : nat) y a :
  has_grad n (forward_cost n layers y) a (grad_a n layers y a).
Proof.
  revert n a. induction layers as [|[[m w] b] rest IH]; intros n a u u' t0 Hu0 Hu;
    cbn [forward_cost grad_a].
  - (* the quadratic cost *)
    eapply derivable_eq;
      [|apply (derivable_pt_lim_div_scal
                 (λ t, rsum n (λ k, (u t k - y k) * (u t k - y k))) t0
                 (rsum n (λ k, 2 * ((a k - y k) * u' k))) 2);
        apply (derivable_rsum n (λ t k, (u t k - y k) * (u t k - y k))
                 (λ k, 2 * ((a k - y k) * u' k)))].
    + rewrite rsum_scal_l. lra.
    + intros k Hk.
      assert (derivable_pt_lim (λ t, u t k - y k) t0 (u' k - 0)) as Hd.
      { apply (derivable_pt_lim_minus (λ t, u t k) (λ _, y k)); [by apply Hu|].
        apply derivable_const. }
      eapply derivable_eq;
        [|apply (derivable_pt_lim_mult (λ t, u t k - y k) (λ t, u t k - y k)
                   t0 _ _ Hd Hd)].
      cbv beta. rewrite Hu0 by done. lra.
  - (* one more layer in front *)
    set (z := affine n w b a).
    set (g' := grad_a m rest y (λ i, sig (z i))).
    set (v := λ (t : R) (i : nat), sig (affine n w b (u t) i)).
    set (v' := λ i : nat, dsig (z i) * rsum n (λ s, comp w (i * n + s) * u' s)).
    assert (∀ i, (i < m)%nat → v t0 i = sig (z i)) as Hv0.
    { intros i _. unfold v, z. f_equal. by apply affine_ext. }
    assert (∀ i, (i < m)%nat → derivable_pt_lim (λ t, v t i) t0 (v' i)) as Hv.
    { intros i _. unfold v, v'.
      replace (z i) with (affine n w b (u t0) i)
        by (unfold z; by apply affine_ext).
      apply (derivable_sig_comp (λ t, affine n w b (u t) i)).
      by apply derivable_affine. }
    eapply derivable_eq; [|exact (IH m (λ i, sig (z i)) v v' t0 Hv0 Hv)].
    fold g'. unfold v'.
    transitivity (rsum m (λ i, rsum n (λ s,
                    comp w (i * n + s) * (g' i * dsig (z i)) * u' s))).
    { apply rsum_ext. intros i _. rewrite <- rsum_scal_l, <- rsum_scal_l.
      apply rsum_ext. intros s _. lra. }
    rewrite rsum_exchange. apply rsum_ext. intros s _.
    by rewrite rsum_scal_r.
Qed.

(** *** The derivative with respect to one weight, to one bias *)

Lemma comp_insert (w : list R) (k q : nat) (t : R) :
  (k < length w)%nat →
  comp (<[k := t]> w) q = if decide (q = k) then t else comp w q.
Proof.
  intros Hk. unfold comp. destruct (decide (q = k)) as [->|Hne].
  - by rewrite list_lookup_insert_eq.
  - by rewrite list_lookup_insert_ne.
Qed.

Lemma derivable_affine_weight (n m : nat) (w b : list R) a (k i : nat) (t0 : R) :
  (0 < n)%nat → (k < length w)%nat →
  derivable_pt_lim (λ t, affine n (<[k := t]> w) b a i) t0
    (if decide (i = k / n)%nat then a (k mod n)%nat else 0).
Proof.
  intros Hn Hk. unfold affine.
  eapply derivable_eq;
    [|apply (derivable_pt_lim_plus
               (λ t, rsum n (λ s, comp (<[k := t]> w) (i * n + s) * a s))
               (λ _, comp b i) t0
               (rsum n (λ s, if decide (s = k mod n)%nat
                             then (if decide (i = k / n)%nat then a s else 0)
                             else 0)) 0);
      [apply (derivable_rsum n
                (λ t s, comp (<[k := t]> w) (i * n + s) * a s)
                (λ s, if decide (s = k mod n)%nat
                      then (if decide (i = k / n)%nat then a s else 0)
                      else 0))|
       apply derivable_const]].
  - rewrite rsum_single by (apply Nat.mod_upper_bound; lia).
    destruct (decide _); lra.
  - intros s Hs. cbv beta.
    assert ((i * n + s = k)%nat ↔ (s = k mod n ∧ i = k / n)%nat) as Hiff.
    { split.
      - intros <-. split.
        + rewrite Nat.add_comm, Nat.Div0.mod_add. by rewrite Nat.mod_small.
        + rewrite Nat.add_comm, Nat.div_add by lia.
          rewrite Nat.div_small by done. lia.
      - intros [-> ->]. pose proof (Nat.div_mod_eq k n). lia. }
    destruct (decide (s = k mod n)%nat) as [Hs'|Hs'];
      [destruct (decide (i = k / n)%nat) as [Hi|Hi]|].
    + eapply derivable_pt_lim_ext;
        [|eapply derivable_eq;
           [|apply (derivable_pt_lim_scal_right (λ t, t) t0 1 (a s)), derivable_id]].
      * intros t. cbv beta. rewrite comp_insert by done.
        rewrite decide_True by (apply Hiff; done). done.
      * lra.
    + eapply derivable_pt_lim_ext; [|apply (derivable_const (comp w (i * n + s) * a s))].
      intros t. cbv beta. rewrite comp_insert by done.
      rewrite decide_False by (intros ?%Hiff; tauto). done.
    + eapply derivable_pt_lim_ext; [|apply (derivable_const (comp w (i * n + s) * a s))].
      intros t. cbv beta. rewrite comp_insert by done.
      rewrite decide_False by (intros ?%Hiff; tauto). done.
Qed.

Lemma derivable_affine_bias (n : nat) (w b : list R) a (k i : nat) (t0 : R) :
  (k < length b)%nat →
  derivable_pt_lim (λ t, affine n w (<[k := t]> b) a i) t0
    (if decide (i = k) then 1 else 0).
Proof.
  intros Hk. unfold affine.
  eapply derivable_eq;
    [|apply (derivable_pt_lim_plus
               (λ t, rsum n (λ s, comp w (i * n + s) * a s))
               (λ t, comp (<[k := t]> b) i) t0 0
               (if decide (i = k) then 1 else 0));
      [apply derivable_const|]].
  - lra.
  - destruct (decide (i = k)) as [->|Hne].
    + eapply derivable_pt_lim_ext; [|apply derivable_id].
      intros t. cbv beta. rewrite comp_insert by done. by rewrite decide_True.
    + eapply derivable_pt_lim_ext; [|apply (derivable_const (comp b i))].
      intros t. cbv beta. rewrite comp_insert by done. by rewrite decide_False.
Qed.

Lemma insert_comp (w : list R) (k : nat) :
  <[k := comp w k]> w = w.
Proof.
  unfold comp. destruct (w !! k) as [v|] eqn:Hv.
  - by apply list_insert_id.
  - apply list_insert_ge. by apply lookup_ge_None.
Qed.

(** The cost as a function of one weight, of one bias, of the first of the
    layers. *)
Lemma forward_cost_weight (n m : nat) (w b : list R) rest y a (k : nat) :
  (0 < n)%nat → (k < length w)%nat → (k / n < m)%nat →
  derivable_pt_lim
    (λ t, forward_cost n ((m, <[k := t]> w, b) :: rest) y a) (comp w k)
    (delta_of n (m, w, b) rest y a (k / n) * a (k mod n)%nat).
Proof.
  intros Hn Hk Hi. cbn [forward_cost]. unfold delta_of. cbn [fst snd].
  set (z := affine n w b a).
  eapply derivable_eq;
    [|apply (forward_cost_has_grad rest m y (λ i, sig (z i))
               (λ t i, sig (affine n (<[k := t]> w) b a i))
               (λ i, dsig (z i)
                     * (if decide (i = k / n)%nat then a (k mod n)%nat else 0)))].
  - rewrite (rsum_ext _ _
      (λ i, if decide (i = k / n)%nat
            then grad_a m rest y (λ i, sig (z i)) i * dsig (z i) * a (k mod n)%nat
            else 0)).
    + by rewrite rsum_single.
    + intros i _. destruct (decide _); lra.
  - intros i _. cbv beta. by rewrite insert_comp.
  - intros i _.
    replace (z i) with (affine n (<[k := comp w k]> w) b a i)
      by (by rewrite insert_comp).
    apply (derivable_sig_comp (λ t, affine n (<[k := t]> w) b a i)).
    by apply (derivable_affine_weight n m).
Qed.

Lemma forward_cost_bias (n m : nat) (w b : list R) rest y a (k : nat) :
  (k < length b)%nat → (k < m)%nat →
  derivable_pt_lim
    (λ t, forward_cost n ((m, w, <[k := t]> b) :: rest) y a) (comp b k)
    (delta_of n (m, w, b) rest y a k).
Proof.
  intros Hk Hm. cbn [forward_cost]. unfold delta_of. cbn [fst snd].
  set (z := affine n w b a).
  eapply derivable_eq;
    [|apply (forward_cost_has_grad rest m y (λ i, sig (z i))
               (λ t i, sig (affine n w (<[k := t]> b) a i))
               (λ i, dsig (z i) * (if decide (i = k) then 1 else 0)))].
  - rewrite (rsum_ext _ _
      (λ i, if decide (i = k)
            then grad_a m rest y (λ i, sig (z i)) i * dsig (z i)
            else 0)).
    + by rewrite rsum_single.
    + intros i _. destruct (decide _); lra.
  - intros i _. cbv beta. by rewrite insert_comp.
  - intros i _.
    replace (z i) with (affine n w (<[k := comp b k]> b) a i)
      by (by rewrite insert_comp).
    apply (derivable_sig_comp (λ t, affine n w (<[k := t]> b) a i)).
    by apply derivable_affine_bias.
Qed.

(** The layers in front of the one that holds the parameter. *)
Lemma forward_cost_app (n : nat) (pre layers : list layer) y a :
  forward_cost n (pre ++ layers) y a
  = forward_cost (out_dim n pre) layers y (act_after n pre a).
Proof.
  revert n a. induction pre as [|[[m w] b] pre IH]; intros n a; [done|].
  cbn [app forward_cost out_dim act_after]. apply IH.
Qed.

End Layers.

(** ** The sigmoid and its derivative over the real numbers *)

Lemma scalar_fn_sigmoid (t : R) : scalar_fn sigmoid t = sig t.
Proof. done. Qed.

Lemma sigmoid_sig (z : ndarray R) : data (sigmoid z) = sig <$> data z.
Proof. apply sigmoid_entries. Qed.

Lemma D_sigmoid_entries (z : ndarray R) :
  D_sigmoid z = Ok (mk_ndarray (shp z) (dsig <$> data z)).
Proof.
  unfold D_sigmoid, np_mul. rewrite np_zip_same by done. do 2 f_equal.
  cbn [np_map data]. rewrite sigmoid_sig, zip_with_fmap_r, zip_with_diag.
  rewrite <- list_fmap_compose. by apply list_fmap_ext.
Qed.

Lemma dsig_range (t : R) : (0 < dsig t <= 1 / 4)%R.
Proof.
  unfold dsig. pose proof (sigmoid_in_unit_interval t) as Hs.
  change (0 < sig t < 1)%R in Hs. generalize dependent (sig t). intros s Hs.
  split; [nra|]. pose proof (Rle_0_sqr (s - 1 / 2)) as Hsq. unfold Rsqr in Hsq. lra.
Qed.

(** X16. [D_sigmoid] is the derivative of [sigmoid]: both act entry by
    entry, and each entry of [D_sigmoid(z)] is the derivative, at the entry
    of [z], of the function that [sigmoid] computes on a number. *)
Theorem D_sigmoid_is_the_derivative_of_sigmoid (z : ndarray R) :
  ∃ d, D_sigmoid z = Ok d ∧ shp d = shp z ∧
       data (sigmoid z) = scalar_fn sigmoid <$> data z ∧
       Forall2 (λ v dv, derivable_pt_lim (scalar_fn sigmoid) v dv) (data z) (data d).
Proof.
  rewrite D_sigmoid_entries. eexists. split; [done|]. split; [done|].
  split; [apply sigmoid_sig|]. cbn [data].
  apply Forall2_fmap_r, Forall_Forall2_diag, Forall_true.
  intros v. apply derivable_sig.
Qed.

(** Over the exact real numbers every entry of [D_sigmoid(z)] is positive
    and at most 1/4. *)
Lemma D_sigmoid_range_exact (z : ndarray R) :
  ∃ d, D_sigmoid z = Ok d ∧ length (data d) = length (data z) ∧
       Forall (λ dv, 0 < dv <= 1 / 4)%R (data d).
Proof.
  rewrite D_sigmoid_entries. eexists. split; [done|]. cbn [data].
  split; [by rewrite length_fmap|].
  apply Forall_fmap, Forall_true. intros v. apply dsig_range.
Qed.

(** ** The arrays of the model, entry by entry *)

Section Entries.
Local Open Scope R_scope.
Implicit Types a b w z d x y : ndarray R.

Lemma comp_lookup (l : list R) (k : nat) (v : R) : l !! k = Some v → comp l k = v.
Proof. unfold comp. by intros ->. Qed.

Lemma comp_fmap (f : R → R) (l : list R) (k : nat) :
  (k < length l)%nat → comp (f <$> l) k = f (comp l k).
Proof.
  intros Hk. destruct (lookup_lt_is_Some_2 l k Hk) as [v Hv].
  unfold comp. by rewrite list_lookup_fmap, Hv.
Qed.

Lemma comp_zip_with (f : R → R → R) (l k : list R) (i : nat) :
  (i < length l)%nat → (i < length k)%nat →
  comp (zip_with f l k) i = f (comp l i) (comp k i).
Proof.
  intros Hl Hk.
  destruct (lookup_lt_is_Some_2 l i Hl) as [u Hu].
  destruct (lookup_lt_is_Some_2 k i Hk) as [v Hv].
  unfold comp. rewrite lookup_zip_with, Hu, Hv. done.
Qed.

Lemma foldl_Rplus_rsum (l : list R) :
  foldl Rplus 0 l = rsum (length l) (comp l).
Proof.
  induction l as [|x l IH] using rev_ind; [done|].
  rewrite foldl_app, length_app. cbn [foldl length].
  rewrite Nat.add_1_r. cbn [rsum]. rewrite IH. f_equal.
  - apply rsum_ext. intros k Hk. unfold comp. by rewrite lookup_app_l.
  - unfold comp. by rewrite list_lookup_middle.
Qed.

Lemma vdot_rsum (n : nat) (u v : list R) :
  length u = n → length v = n →
  vdot u v = rsum n (λ k, comp u k * comp v k).
Proof.
  intros Hu Hv. unfold vdot. change fadd with Rplus. change f0 with 0.
  change fmul with Rmult.
  rewrite foldl_Rplus_rsum, length_zip_with, Hu, Hv, Nat.min_id.
  apply rsum_ext. intros k Hk. apply comp_zip_with; lia.
Qed.

Lemma tabulate_S (r c : nat) (f : nat → nat → R) :
  tabulate (S r) c f = tabulate r c f ++ (f r <$> seq 0 c).
Proof.
  unfold tabulate. rewrite seq_S, bind_app. cbn [Nat.add]. f_equal.
  cbn. by rewrite app_nil_r.
Qed.

Lemma tabulate_lookup (r c : nat) (f : nat → nat → R) (i j : nat) :
  (i < r)%nat → (j < c)%nat → tabulate r c f !! (i * c + j)%nat = Some (f i j).
Proof.
  induction r as [|r IH]; intros Hi Hj; [lia|]. rewrite tabulate_S.
  destruct (decide (i < r)%nat) as [Hlt|Hge].
  - rewrite lookup_app_l by (rewrite length_tabulate; nia). by apply IH.
  - assert (i = r) as -> by lia.
    rewrite lookup_app_r by (rewrite length_tabulate; nia).
    rewrite length_tabulate. replace (r * c + j - r * c)%nat with j by lia.
    rewrite list_lookup_fmap, lookup_seq_lt by done. done.
Qed.

Lemma entry_matrix w (m n i t : nat) :
  shp w = Sh2 m n → (i < m)%nat → (t < n)%nat →
  entry w i t = comp (data w) (i * n + t).
Proof.
  intros Hw Hi Ht. unfold entry, comp. rewrite Hw. cbn [rows cols].
  destruct (decide (m = 1%nat)) as [->|_]; destruct (decide (n = 1%nat)) as [->|_];
    do 2 f_equal; lia.
Qed.

Lemma comp_row w (m n i t : nat) :
  shp w = Sh2 m n → (i < m)%nat → (t < n)%nat →
  comp (row w i) t = comp (data w) (i * n + t).
Proof.
  intros Hw Hi Ht. unfold row. rewrite Hw. cbn [cols].
  unfold comp at 1. rewrite list_lookup_fmap, lookup_seq_lt by done.
  cbn. by apply (entry_matrix w m n).
Qed.

Lemma comp_col a (m n j t : nat) :
  shp a = Sh2 m n → (t < m)%nat → (j < n)%nat →
  comp (col a j) t = comp (data a) (t * n + j).
Proof.
  intros Ha Ht Hj. unfold col. rewrite Ha. cbn [rows].
  unfold comp at 1. rewrite list_lookup_fmap, lookup_seq_lt by done.
  cbn. by apply (entry_matrix a m n).
Qed.

Lemma length_row w (i : nat) : length (row w i) = cols (shp w).
Proof. unfold row. by rewrite length_fmap, length_seq. Qed.

Lemma length_col a (j : nat) : length (col a j) = rows (shp a).
Proof. unfold col. by rewrite length_fmap, length_seq. Qed.

(** The product of a matrix and a column. *)
Lemma comp_matmul_column w a (m n i : nat) :
  shp w = Sh2 m n → shp a = Sh2 n 1 → (i < m)%nat →
  comp (matmul m 1 w a) i = rsum n (λ t, comp (data w) (i * n + t) * comp (data a) t).
Proof.
  intros Hw Ha Hi. unfold matmul, comp at 1.
  replace i with (i * 1 + 0)%nat at 1 by lia.
  rewrite tabulate_lookup by lia. cbn [default].
  rewrite (vdot_rsum n); [|rewrite length_row, Hw; done|rewrite length_col, Ha; done].
  apply rsum_ext. intros t Ht.
  rewrite (comp_row w m n), (comp_col a n 1) by (done || lia).
  do 2 f_equal. lia.
Qed.

(** The transposed matrix. *)
Lemma comp_np_T w (m n i t : nat) :
  shp w = Sh2 m n → (i < n)%nat → (t < m)%nat →
  comp (data (np_T w)) (i * m + t) = comp (data w) (t * n + i).
Proof.
  intros Hw Hi Ht. unfold np_T. rewrite Hw. cbn [data].
  unfold comp at 1. rewrite tabulate_lookup by done. cbn [default].
  by apply (entry_matrix w m n).
Qed.

(** The product of a column and a transposed column. *)
Lemma comp_outer d a (m n i j : nat) :
  shp d = Sh2 m 1 → shp a = Sh2 n 1 → (i < m)%nat → (j < n)%nat →
  comp (matmul m n d (np_T a)) (i * n + j) = 0 + comp (data d) i * comp (data a) j.
Proof.
  intros Hd Ha Hi Hj. unfold matmul, comp at 1.
  rewrite tabulate_lookup by done. cbn [default].
  pose proof (shp_np_T a n 1 Ha) as HaT.
  rewrite (vdot_rsum 1); [|rewrite length_row, Hd; done|rewrite length_col, HaT; done].
  cbn [rsum]. rewrite (comp_row d m 1), (comp_col (np_T a) 1 n) by (done || lia).
  rewrite (comp_np_T a n 1 0 j) by (done || lia).
  rewrite !Nat.mul_1_r, !Nat.add_0_r. done.
Qed.

(** A layer transition. *)
Lemma affine_entries w b a (m n : nat) :
  shp w = Sh2 m n → shp b = Sh2 m 1 → valid b → column n a →
  ∃ z, (wa ← np_dot w a; np_add wa b) = Ok z ∧ column m z ∧ valid z ∧
       ∀ i, (i < m)%nat →
         comp (data z) i = affine n (data w) (data b) (comp (data a)) i.
Proof.
  intros Hw Hb Hvb Ha. rewrite (np_dot_matrices w a m n 1) by done. mstep.
  unfold np_add. rewrite np_zip_same by (by rewrite Hb).
  eexists. split; [done|]. split; [done|].
  assert (length (data b) = m) as Hlb.
  { unfold valid in Hvb. rewrite Hb in Hvb. cbn [size] in Hvb. lia. }
  split.
  { unfold valid. cbn [data shp size].
    rewrite length_zip_with. unfold matmul. rewrite length_tabulate. lia. }
  intros i Hi. cbn [data]. change fadd with Rplus.
  rewrite comp_zip_with by (unfold matmul; rewrite ?length_tabulate; lia).
  unfold affine. f_equal. by apply comp_matmul_column.
Qed.

Lemma comp_sigmoid z (i : nat) :
  (i < length (data z))%nat → comp (data (sigmoid z)) i = sig (comp (data z) i).
Proof. intros Hi. rewrite sigmoid_sig. by apply comp_fmap. Qed.

Lemma column_length z (m : nat) : column m z → valid z → length (data z) = m.
Proof. unfold column, valid. intros -> ->. cbn [size]. lia. Qed.

End Entries.

(** ** The forward pass and the cost, entry by entry *)

Section ForwardEntries.
Local Open Scope R_scope.
Implicit Types a b w z d x y : ndarray R.
Implicit Types bs ws : list (ndarray R).

Lemma layers_of_cons b w bs ws :
  layers_of (b :: bs) (w :: ws) = (rows (shp w), data w, data b) :: layers_of bs ws.
Proof. done. Qed.

Lemma out_dim_layers_of (n : nat) (sizes : list nat) bs ws :
  layered n sizes bs ws → out_dim n (layers_of bs ws) = last_size n sizes.
Proof.
  revert n bs ws. induction sizes as [|m sizes IH]; intros n [|b bs] [|w ws] Hl;
    try done.
  destruct Hl as (Hb & Hw & Hl). rewrite layers_of_cons, last_size_cons.
  cbn [out_dim]. rewrite Hw. cbn [rows]. by apply IH.
Qed.

Lemma feedforward_entries (n : nat) (sizes : list nat) bs ws a (av : nat → R) :
  layered n sizes bs ws → Forall valid bs → column n a → valid a →
  (∀ k, (k < n)%nat → comp (data a) k = av k) →
  ∃ out, spec_feedforward bs ws a = Ok out ∧
         column (last_size n sizes) out ∧ valid out ∧
         ∀ i, (i < last_size n sizes)%nat →
           comp (data out) i = act_after n (layers_of bs ws) av i.
Proof.
  revert n bs ws a av.
  induction sizes as [|m sizes IH]; intros n [|b bs] [|w ws] a av Hl Hv Ha Hva Hav;
    try done; cbn [spec_feedforward].
  { exists a. split; [done|]. split; [done|]. split; [done|]. exact Hav. }
  destruct Hl as (Hb & Hw & Hl). apply Forall_cons_1 in Hv as [Hvb Hvbs].
  destruct (affine_entries w b a m n Hw Hb Hvb Ha) as (z & Hz & Hzc & Hzv & Hze).
  rewrite (affine_bind _ _ _ _ _ Hz).
  destruct (IH m bs ws (sigmoid z)
              (λ i, sig (affine n (data w) (data b) av i)) Hl Hvbs Hzc
              (valid_sigmoid z Hzv)) as (out & Hout & Hoc & Hov & Hoe).
  { intros k Hk. rewrite comp_sigmoid by (by rewrite (column_length z m)).
    f_equal. rewrite Hze by done. by apply affine_ext. }
  exists out. split; [done|]. rewrite last_size_cons. split; [done|]. split; [done|].
  intros i Hi. rewrite layers_of_cons. cbn [act_after]. rewrite Hw. cbn [rows].
  by apply Hoe.
Qed.

Lemma quadratic_cost_entries out y (m : nat) :
  column m out → valid out → column m y → valid y →
  quadratic_cost out y
  = Ok (rsum m (λ k, (comp (data out) k - comp (data y) k)
                     * (comp (data out) k - comp (data y) k)) / 2).
Proof.
  intros Ho Hvo Hy Hvy. unfold quadratic_cost, np_sub.
  rewrite np_zip_same by (unfold column in *; congruence). mstep. cbn [data].
  pose proof (column_length out m Ho Hvo) as Hlo.
  pose proof (column_length y m Hy Hvy) as Hly.
  rewrite (vdot_rsum m) by (rewrite length_zip_with; lia).
  do 2 f_equal. apply rsum_ext. intros k Hk.
  change fsub with Rminus. by rewrite comp_zip_with by lia.
Qed.

(** The cost of the model is the cost of the layers. *)
Lemma cost_entries (net : Network R) (n : nat) (sizes : list nat) x y :
  wf_net net n sizes → Forall valid (biases net) →
  column n x → valid x → column (last_size n sizes) y → valid y →
  cost net x y
  = forward_cost n (layers_of (biases net) (weights net))
      (comp (data y)) (comp (data x)).
Proof.
  intros Hwf Hvb Hx Hvx Hy Hvy.
  destruct (feedforward_entries n sizes _ _ x (comp (data x))
              (wf_layered _ _ _ Hwf) Hvb Hx Hvx)
    as (out & Hout & Hoc & Hov & Hoe); [done|].
  unfold cost. rewrite (feedforward_checked net (Z.of_nat n)).
  2: { by rewrite (wf_layersz _ _ _ Hwf). }
  2: { by apply shape_tuple_column. }
  rewrite Hout. mstep.
  rewrite (quadratic_cost_entries out y (last_size n sizes)) by done.
  rewrite <- (app_nil_r (layers_of _ _)) at 1. rewrite forward_cost_app.
  cbn [forward_cost]. rewrite (out_dim_layers_of n sizes) by apply Hwf.
  f_equal. apply rsum_ext. intros k Hk. by rewrite Hoe.
Qed.

End ForwardEntries.

(** ** The backward pass, entry by entry *)

Section BackwardEntries.
Local Open Scope R_scope.
Implicit Types a b w z d x y : ndarray R.
Implicit Types bs ws zl ds : list (ndarray R).

Lemma output_delta_entries z y (m : nat) :
  column m z → valid z → column m y → valid y →
  ∃ d, spec_output_delta (sigmoid z) y z = Ok d ∧ column m d ∧ valid d ∧
       ∀ i, (i < m)%nat →
         comp (data d) i
         = (sig (comp (data z) i) - comp (data y) i) * dsig (comp (data z) i).
Proof.
  intros Hz Hvz Hy Hvy.
  pose proof (column_length z m Hz Hvz) as Hlz.
  pose proof (column_length y m Hy Hvy) as Hly.
  unfold spec_output_delta, D_cost, np_sub.
  rewrite np_zip_same by (unfold column in *; cbn [shp sigmoid np_map]; congruence).
  mstep. rewrite D_sigmoid_entries. mstep.
  unfold np_mul. rewrite np_zip_same by done.
  eexists. split; [done|]. split; [done|]. split.
  { unfold valid. cbn [data shp]. rewrite !length_zip_with, sigmoid_sig, !length_fmap.
    rewrite shp_sigmoid. unfold column in Hz. rewrite Hz. cbn [size]. lia. }
  intros i Hi. cbn [data shp]. change fmul with Rmult. change fsub with Rminus.
  rewrite sigmoid_sig.
  rewrite comp_zip_with by (rewrite ?length_zip_with, ?length_fmap; lia).
  rewrite comp_zip_with by (rewrite ?length_fmap; lia).
  by rewrite !comp_fmap by lia.
Qed.

Lemma hidden_delta_entries w d' z (m m' : nat) :
  shp w = Sh2 m' m → column m' d' → column m z → valid z →
  ∃ d, spec_hidden_delta w d' z = Ok d ∧ column m d ∧ valid d ∧
       ∀ i, (i < m)%nat →
         comp (data d) i
         = rsum m' (λ k, comp (data w) (k * m + i) * comp (data d') k)
           * dsig (comp (data z) i).
Proof.
  intros Hw Hd' Hz Hvz.
  pose proof (column_length z m Hz Hvz) as Hlz.
  pose proof (shp_np_T w m' m Hw) as HwT.
  unfold spec_hidden_delta.
  rewrite (np_dot_matrices (np_T w) d' m m' 1) by done.
  mstep. rewrite D_sigmoid_entries. mstep.
  unfold np_mul. rewrite np_zip_same by (unfold column in *; cbn [shp]; congruence).
  eexists. split; [done|]. split; [done|]. split.
  { unfold valid, matmul. cbn [data shp size].
    rewrite length_zip_with, length_tabulate, length_fmap. lia. }
  intros i Hi. cbn [data shp]. change fmul with Rmult.
  rewrite comp_zip_with by (unfold matmul; rewrite ?length_tabulate, ?length_fmap; lia).
  rewrite comp_fmap by lia. f_equal.
  rewrite (comp_matmul_column (np_T w) d' m m') by done.
  apply rsum_ext. intros k Hk. by rewrite (comp_np_T w m' m).
Qed.

(** The forward pass of [backpropagate] and the errors of the layers
    against the layers as functions: position [l] of the errors is the
    error of layer [l] for the activation that the layers before it put
    out, and position [l] of the activations is that activation. *)
Lemma deltas_entries (n : nat) (sizes : list nat) bs ws a (av : nat → R) y :
  layered n sizes bs ws → sizes ≠ [] → Forall valid bs →
  column n a → (∀ k, (k < n)%nat → comp (data a) k = av k) →
  column (last_size n sizes) y → valid y →
  ∃ zl a_last ds,
    spec_forward ws bs a = Ok (zl, a :: (sigmoid <$> zl)) ∧
    last (sigmoid <$> zl) = Some a_last ∧
    spec_deltas (py_tail ws) zl a_last y = Ok ds ∧
    columns ds sizes ∧
    (∀ l d lay, ds !! l = Some d → layers_of bs ws !! l = Some lay →
       ∀ i, (i < lay.1.1)%nat →
         comp (data d) i
         = delta_of (out_dim n (take l (layers_of bs ws))) lay
             (drop (S l) (layers_of bs ws)) (comp (data y))
             (act_after n (take l (layers_of bs ws)) av) i) ∧
    (∀ l a_prev, (a :: (sigmoid <$> zl)) !! l = Some a_prev →
       (l < length sizes)%nat →
       column (out_dim n (take l (layers_of bs ws))) a_prev ∧
       ∀ k, (k < out_dim n (take l (layers_of bs ws)))%nat →
         comp (data a_prev) k = act_after n (take l (layers_of bs ws)) av k).
Proof.
  revert n bs ws a av.
  induction sizes as [|m sizes IH]; intros n [|b bs] [|w ws] a av Hl Hne Hv Ha Hav Hy Hvy;
    try done.
  destruct Hl as (Hb & Hw & Hl). apply Forall_cons_1 in Hv as [Hvb Hvbs].
  rewrite last_size_cons in Hy.
  destruct (affine_entries w b a m n Hw Hb Hvb Ha) as (z & Hz & Hzc & Hzv & Hze).
  set (zm := affine n (data w) (data b) av).
  assert (∀ i, (i < m)%nat → comp (data z) i = zm i) as Hzm.
  { intros i Hi. rewrite Hze by done. by apply affine_ext. }
  assert (∀ k, (k < m)%nat → comp (data (sigmoid z)) k = sig (zm k)) as Hav'.
  { intros k Hk. rewrite comp_sigmoid by (by rewrite (column_length z m)).
    by rewrite Hzm. }
  rewrite layers_of_cons, Hw. cbn [rows].
  cbn [spec_forward]. rewrite (affine_bind _ _ _ _ _ Hz).
  destruct sizes as [|m' sizes].
  - (* the output layer *)
    destruct bs, ws; try done. cbn [spec_forward]. mstep. cbn [fst snd].
    destruct (output_delta_entries z y m Hzc Hzv Hy Hvy) as (d & Hd & Hdc & Hdv & Hde).
    exists [z], (sigmoid z), [d]. split; [done|]. split; [done|].
    split; [cbn [spec_deltas]; by rewrite Hd|].
    split; [by repeat constructor|]. split.
    + intros [|l] d0 lay; [|done]. intros [= <-] [= <-] i Hi. cbn [fst snd] in Hi.
      cbn [take drop out_dim act_after layers_of zip_with].
      unfold delta_of. cbn [fst snd grad_a]. fold zm.
      rewrite Hde, Hzm by done. done.
    + intros [|[|l]] a_prev; cbn [lookup list_lookup fmap list_fmap length];
        [|lia|lia].
      intros [= <-] _. cbn [take out_dim act_after]. done.
  - (* a hidden layer *)
    destruct (IH m bs ws (sigmoid z) (λ i, sig (zm i)) Hl ltac:(done) Hvbs Hzc Hav')
      as (zl & a_last & ds & Hfwd & Hlast & Hds & Hcols & Hde & Hae).
    { exact Hy. }
    { done. }
    rewrite Hfwd. mstep. cbn [fst snd].
    destruct bs as [|b' bs], ws as [|w' ws]; try done.
    destruct Hl as (Hb' & Hw' & Hl).
    inversion Hcols as [|d' ? ds' ? Hd' Hds']; subst.
    destruct zl as [|z' zl].
    { cbn [spec_forward] in Hfwd.
      by apply bind_Ok_inv in Hfwd as (? & _ & (? & _ & (? & _ & [=])%bind_Ok_inv)
          %bind_Ok_inv). }
    destruct (hidden_delta_entries w' d' z m m' Hw' Hd' Hzc Hzv)
      as (d & Hd & Hdc & Hdv & Hdd).
    exists (z :: z' :: zl), a_last, (d :: d' :: ds').
    split; [done|]. split.
    { cbn [fmap list_fmap] in Hlast |- *. by rewrite last_cons_cons. }
    split.
    { unfold py_tail in Hds |- *. cbn [drop] in Hds |- *. rewrite drop_0 in Hds.
      rewrite spec_deltas_cons, Hds. mstep. rewrite py_index_0. mstep.
      by rewrite Hd. }
    split; [by constructor|]. split.
    + intros [|l] d0 lay.
      * intros [= <-] [= <-] i Hi. cbn [fst snd] in Hi.
        cbn [take drop out_dim act_after]. rewrite drop_0.
        unfold delta_of. cbn [fst snd]. fold zm.
        rewrite Hdd, Hzm by done. f_equal.
        rewrite layers_of_cons, Hw'. cbn [rows grad_a].
        apply rsum_ext. intros k Hk. f_equal.
        specialize (Hde 0%nat d' _ eq_refl eq_refl k).
        rewrite layers_of_cons, Hw' in Hde. cbn [rows fst snd] in Hde.
        rewrite Hde by done. cbn [take drop out_dim act_after]. rewrite drop_0.
        unfold delta_of. cbn [fst snd]. done.
      * cbn [lookup list_lookup]. intros Hd0 Hlay i Hi.
        rewrite (Hde l d0 lay Hd0 Hlay i Hi).
        cbn [take drop out_dim act_after]. done.
    + intros [|l] a_prev; cbn [lookup list_lookup length].
      * intros [= <-] _. cbn [take out_dim act_after]. done.
      * intros Ha_prev Hlen. cbn [take out_dim act_after].
        apply Hae; [done|cbn [length]; lia].
Qed.

End BackwardEntries.

(** ** [backpropagate] returns the gradient of the cost *)

Section Gradient.
Local Open Scope R_scope.
Implicit Types a b w z d x y : ndarray R.
Implicit Types bs ws : list (ndarray R).

Lemma same_shapes_refl bs : same_shapes bs bs.
Proof. by induction bs; constructor. Qed.

Lemma same_shapes_alter (f : ndarray R → ndarray R) (l : nat) bs :
  (∀ b, shp (f b) = shp b) → same_shapes (alter f l bs) bs.
Proof.
  intros Hf. revert l. induction bs as [|b bs IH]; intros l;
    [destruct l; constructor|].
  destruct l as [|l]; cbn [alter list_alter].
  - constructor; [done|apply same_shapes_refl].
  - constructor; [done|apply IH].
Qed.

Lemma Forall_valid_alter (l k : nat) (t : R) bs :
  Forall valid bs → Forall valid (alter (λ b, with_entry b k t) l bs).
Proof.
  intros Hv. revert l. induction Hv as [|b bs Hb Hbs IH]; intros l;
    [destruct l; constructor|].
  destruct l as [|l]; cbn [alter list_alter]; constructor; try done; try apply IH.
  unfold valid, with_entry in *. cbn [shp data]. by rewrite length_insert.
Qed.

Lemma with_bias_wf (net : Network R) (n : nat) (sizes : list nat) (l k : nat) (t : R) :
  wf_net net n sizes → wf_net (with_bias net l k t) n sizes.
Proof.
  intros [Hnl Hlz Hne Hl]. split; try done. cbn [with_bias biases weights].
  eapply layered_same_shapes; [exact Hl| |apply same_shapes_refl].
  by apply same_shapes_alter.
Qed.

Lemma with_weight_wf (net : Network R) (n : nat) (sizes : list nat) (l k : nat) (t : R) :
  wf_net net n sizes → wf_net (with_weight net l k t) n sizes.
Proof.
  intros [Hnl Hlz Hne Hl]. split; try done. cbn [with_weight biases weights].
  eapply layered_same_shapes; [exact Hl|apply same_shapes_refl|].
  by apply same_shapes_alter.
Qed.

Lemma layers_of_lookup bs ws (l : nat) b w :
  bs !! l = Some b → ws !! l = Some w →
  layers_of bs ws !! l = Some (rows (shp w), data w, data b).
Proof. intros Hb Hw. unfold layers_of. by rewrite lookup_zip_with, Hb, Hw. Qed.

Lemma layers_of_alter_bias (f : ndarray R → ndarray R) bs ws (l : nat) b w :
  bs !! l = Some b → ws !! l = Some w →
  layers_of (alter f l bs) ws
  = take l (layers_of bs ws) ++ (rows (shp w), data w, data (f b))
      :: drop (S l) (layers_of bs ws).
Proof.
  revert bs ws. induction l as [|l IH]; intros [|b0 bs] [|w0 ws]; try done.
  - intros [= ->] [= ->]. cbn. by rewrite drop_0.
  - cbn [lookup list_lookup]. intros Hb Hw.
    cbn [alter list_alter]. rewrite !layers_of_cons. cbn [take drop app].
    f_equal. by apply IH.
Qed.

Lemma layers_of_alter_weight (f : ndarray R → ndarray R) bs ws (l : nat) b w :
  bs !! l = Some b → ws !! l = Some w →
  layers_of bs (alter f l ws)
  = take l (layers_of bs ws) ++ (rows (shp (f w)), data (f w), data b)
      :: drop (S l) (layers_of bs ws).
Proof.
  revert bs ws. induction l as [|l IH]; intros [|b0 bs] [|w0 ws]; try done.
  - intros [= ->] [= ->]. cbn. by rewrite drop_0.
  - cbn [lookup list_lookup]. intros Hb Hw.
    cbn [alter list_alter]. rewrite !layers_of_cons. cbn [take drop app].
    f_equal. by apply IH.
Qed.

(** What the two passes of [backpropagate] compute, with the layers seen as
    functions. *)
Lemma backpropagate_entries
    (net : Network R) (n : nat) (sizes : list nat) x y gb gw :
  wf_net net n sizes → valid_net net →
  column n x → column (last_size n sizes) y → valid y →
  backpropagate net x y = Ok (gb, gw) →
  let L := layers_of (biases net) (weights net) in
  ∀ l b w, biases net !! l = Some b → weights net !! l = Some w →
    ∃ (r c : nat) d g,
      shp w = Sh2 r c ∧ shp b = Sh2 r 1 ∧
      out_dim n (take l L) = c ∧
      gb !! l = Some d ∧ gw !! l = Some g ∧
      length (data d) = r ∧ length (data g) = (r * c)%nat ∧
      (∀ i, (i < r)%nat →
         comp (data d) i
         = delta_of c (r, data w, data b) (drop (S l) L) (comp (data y))
             (act_after n (take l L) (comp (data x))) i) ∧
      (∀ i j, (i < r)%nat → (j < c)%nat →
         comp (data g) (i * c + j)
         = delta_of c (r, data w, data b) (drop (S l) L) (comp (data y))
             (act_after n (take l L) (comp (data x))) i
           * act_after n (take l L) (comp (data x)) j).
Proof.
  intros Hwf [Hvb Hvw] Hx Hy Hvy Hbp L l b w Hb Hw.
  destruct (backpropagate_spec net n sizes x y Hwf Hx Hy)
    as (gb' & gw' & Hcode & Hspec & Hgb & Hgw).
  rewrite Hbp in Hcode. injection Hcode as <- <-.
  destruct (backpropagate_valid net n sizes x y gb gw Hwf Hvb Hx Hy Hvy Hbp)
    as [Hvgb Hvgw].
  destruct Hwf as [Hnl Hlz Hne Hl].
  destruct (deltas_entries n sizes _ _ x (comp (data x)) y Hl Hne Hvb Hx
              ltac:(done) Hy Hvy)
    as (zl & a_last & ds & Hfwd & Hlast & Hds & Hcols & Hde & Hae).
  unfold spec_backprop in Hspec. rewrite Hfwd in Hspec. mstep in Hspec.
  cbn [fst snd] in Hspec.
  assert (py_index (x :: (sigmoid <$> zl)) (-1) = Ok a_last) as Hidx
    by (by rewrite py_index_last, Hlast).
  rewrite Hidx in Hspec. mstep in Hspec.
  rewrite Hds in Hspec. mstep in Hspec.
  apply bind_Ok_inv in Hspec as (gws & Hgws & [= <- <-]).
  pose proof (layers_of_lookup _ _ l b w Hb Hw) as Hlay. fold L in Hlay, Hde, Hae.
  destruct (layered_lengths _ _ _ _ Hl) as [Hlb Hlw].
  assert (l < length sizes)%nat as Hlt.
  { apply lookup_lt_Some in Hb. lia. }
  destruct (layered_lookup n sizes _ _ l Hl Hlt)
    as (w' & b' & r & c & Hr & Hc & Hw' & Hb' & Hsw & Hsb).
  assert (w' = w) as -> by congruence. assert (b' = b) as -> by congruence.
  destruct (lookup_lt_is_Some_2 ds l) as [d Hd].
  { rewrite (Forall2_length _ _ _ Hcols). done. }
  destruct (lookup_lt_is_Some_2 (x :: (sigmoid <$> zl)) l) as [a_prev Ha_prev].
  { pose proof (spec_forward_valid n sizes _ _ x Hl Hx Hvb) as (zl' & Hfwd' & Hzl' & _).
    rewrite Hfwd in Hfwd'. injection Hfwd' as ->.
    cbn [length]. rewrite length_fmap, (Forall2_length _ _ _ Hzl'). lia. }
  destruct (zipM_lookup _ _ _ _ l d a_prev Hgws Hd Ha_prev) as (g & Hg & Hdot).
  destruct (Hae l a_prev Ha_prev Hlt) as [Hac Hav].
  assert (column r d) as Hdc.
  { destruct (Forall2_lookup_l _ _ _ _ _ Hcols Hd) as (m & Hm & Hdm).
    change (sizes !! l = Some r) in Hr. cbv beta in Hm.
    by assert (m = r) as -> by congruence. }
  rewrite (np_dot_matrices d (np_T a_prev) r 1 (out_dim n (take l L))) in Hdot
    by (done || by apply shp_np_T).
  injection Hdot as <-.
  assert (out_dim n (take l L) = c) as Hdim.
  { destruct (Forall2_lookup_l _ _ _ _ _ Hgw Hg) as (w'' & Hw'' & Hshp).
    assert (w'' = w) as -> by congruence. cbn [shp] in Hshp. congruence. }
  rewrite Hdim in *.
  exists r, c, d, (mk_ndarray (Sh2 r c) (matmul r c d (np_T a_prev))).
  split; [done|]. split; [done|]. split; [done|]. split; [done|]. split; [done|].
  assert (valid d) as Hvd.
  { rewrite Forall_forall in Hvgb. by apply Hvgb, list_elem_of_lookup_2 with l. }
  split; [by apply column_length|].
  split; [cbn [data]; unfold matmul; by rewrite length_tabulate|].
  assert (∀ i, (i < r)%nat →
            comp (data d) i
            = delta_of c (r, data w, data b) (drop (S l) L) (comp (data y))
                (act_after n (take l L) (comp (data x))) i) as Hdelta.
  { intros i Hi. rewrite (Hde l d _ Hd Hlay i); rewrite Hsw; cbn [rows fst snd];
      [|done]. by rewrite Hdim. }
  split; [done|]. intros i j Hi Hj. cbn [data].
  rewrite (comp_outer d a_prev r c) by done.
  rewrite Hdelta, Hav by done. lra.
Qed.


Lemma cost_with_bias (net : Network R) (n : nat) (sizes : list nat) x y
    (l k : nat) b w (t : R) :
  wf_net net n sizes → valid_net net →
  column n x → valid x → column (last_size n sizes) y → valid y →
  biases net !! l = Some b → weights net !! l = Some w →
  let L := layers_of (biases net) (weights net) in
  cost (with_bias net l k t) x y
  = forward_cost (out_dim n (take l L))
      ((rows (shp w), data w, <[k := t]> (data b)) :: drop (S l) L)
      (comp (data y)) (act_after n (take l L) (comp (data x))).
Proof.
  intros Hwf [Hvb Hvw] Hx Hvx Hy Hvy Hb Hw L.
  rewrite (cost_entries _ n sizes); try done.
  - cbn [with_bias biases weights].
    rewrite (layers_of_alter_bias _ _ _ l b w) by done.
    by rewrite forward_cost_app.
  - by apply with_bias_wf.
  - by apply Forall_valid_alter.
Qed.

Lemma cost_with_weight (net : Network R) (n : nat) (sizes : list nat) x y
    (l k : nat) b w (t : R) :
  wf_net net n sizes → valid_net net →
  column n x → valid x → column (last_size n sizes) y → valid y →
  biases net !! l = Some b → weights net !! l = Some w →
  let L := layers_of (biases net) (weights net) in
  cost (with_weight net l k t) x y
  = forward_cost (out_dim n (take l L))
      ((rows (shp w), <[k := t]> (data w), data b) :: drop (S l) L)
      (comp (data y)) (act_after n (take l L) (comp (data x))).
Proof.
  intros Hwf [Hvb Hvw] Hx Hvx Hy Hvy Hb Hw L.
  rewrite (cost_entries _ n sizes); try done.
  - cbn [with_weight biases weights].
    rewrite (layers_of_alter_weight _ _ _ l b w) by done.
    by rewrite forward_cost_app.
  - by apply with_weight_wf.
Qed.

Lemma backpropagate_gradient
    (net : Network R) (n : nat) (sizes : list nat) x y
    (gb gw : list (ndarray R)) :
  wf_net net n sizes → valid_net net →
  column n x → valid x → column (last_size n sizes) y → valid y →
  backpropagate net x y = Ok (gb, gw) →
  (∀ l b k v, biases net !! l = Some b → data b !! k = Some v →
     ∃ g dv, gb !! l = Some g ∧ data g !! k = Some dv ∧
             derivable_pt_lim (λ t, cost (with_bias net l k t) x y) v dv) ∧
  (∀ l w k v, weights net !! l = Some w → data w !! k = Some v →
     ∃ g dv, gw !! l = Some g ∧ data g !! k = Some dv ∧
             derivable_pt_lim (λ t, cost (with_weight net l k t) x y) v dv).
Proof.
  intros Hwf Hv Hx Hvx Hy Hvy Hbp.
  pose proof (backpropagate_entries net n sizes x y gb gw Hwf Hv Hx Hy Hvy Hbp)
    as Hentries. cbv zeta in Hentries.
  destruct (layered_lengths _ _ _ _ (wf_layered _ _ _ Hwf)) as [Hlb Hlw].
  destruct Hv as [Hvb Hvw].
  split.
  - intros l b k v Hb Hk.
    destruct (lookup_lt_is_Some_2 (weights net) l) as [w Hw].
    { apply lookup_lt_Some in Hb. lia. }
    destruct (Hentries l b w Hb Hw)
      as (r & c & d & g & Hsw & Hsb & Hdim & Hd & Hg & Hld & Hlg & Hde & Hge).
    assert (valid b) as Hvalb.
    { rewrite Forall_forall in Hvb. by apply Hvb, list_elem_of_lookup_2 with l. }
    assert (k < r)%nat as Hkr.
    { apply lookup_lt_Some in Hk. unfold valid in Hvalb. rewrite Hsb in Hvalb.
      cbn [size] in Hvalb. lia. }
    destruct (lookup_lt_is_Some_2 (data d) k) as [dv Hdv]; [lia|].
    exists d, dv. split; [done|]. split; [done|].
    apply (derivable_pt_lim_ext
             (λ t, forward_cost c ((r, data w, <[k := t]> (data b))
                                     :: drop (S l) (layers_of (biases net) (weights net)))
                     (comp (data y))
                     (act_after n (take l (layers_of (biases net) (weights net)))
                        (comp (data x))))).
    { intros t. rewrite (cost_with_bias net n sizes x y l k b w); try done.
      by rewrite Hdim, Hsw. }
    rewrite <- (comp_lookup _ _ _ Hk), <- (comp_lookup _ _ _ Hdv), Hde by done.
    apply forward_cost_bias; [by eapply lookup_lt_Some|done].
  - intros l w k v Hw Hk.
    destruct (lookup_lt_is_Some_2 (biases net) l) as [b Hb].
    { apply lookup_lt_Some in Hw. lia. }
    destruct (Hentries l b w Hb Hw)
      as (r & c & d & g & Hsw & Hsb & Hdim & Hd & Hg & Hld & Hlg & Hde & Hge).
    assert (valid w) as Hvalw.
    { rewrite Forall_forall in Hvw. by apply Hvw, list_elem_of_lookup_2 with l. }
    assert (k < r * c)%nat as Hkr.
    { apply lookup_lt_Some in Hk. unfold valid in Hvalw. rewrite Hsw in Hvalw.
      cbn [size] in Hvalw. lia. }
    assert (0 < c)%nat as Hc by nia.
    assert (k / c < r)%nat as Hi by (apply Nat.Div0.div_lt_upper_bound; lia).
    assert (k mod c < c)%nat as Hj by (apply Nat.mod_upper_bound; lia).
    destruct (lookup_lt_is_Some_2 (data g) k) as [dv Hdv]; [lia|].
    exists g, dv. split; [done|]. split; [done|].
    assert (∀ q, q = k →
              comp (data g) q
              = delta_of c (r, data w, data b)
                  (drop (S l) (layers_of (biases net) (weights net))) (comp (data y))
                  (act_after n (take l (layers_of (biases net) (weights net)))
                     (comp (data x))) (k / c)
                * act_after n (take l (layers_of (biases net) (weights net)))
                    (comp (data x)) (k mod c)%nat) as Hge'.
    { intros q ->. rewrite <- (Hge (k / c)%nat (k mod c)%nat Hi Hj). f_equal.
      pose proof (Nat.div_mod_eq k c). lia. }
    apply (derivable_pt_lim_ext
             (λ t, forward_cost c ((r, <[k := t]> (data w), data b)
                                     :: drop (S l) (layers_of (biases net) (weights net)))
                     (comp (data y))
                     (act_after n (take l (layers_of (biases net) (weights net)))
                        (comp (data x))))).
    { intros t. rewrite (cost_with_weight net n sizes x y l k b w); try done.
      by rewrite Hdim, Hsw. }
    rewrite <- (comp_lookup _ _ _ Hk), <- (comp_lookup _ _ _ Hdv).
    rewrite (Hge' k) by done.
    apply forward_cost_weight; [done|by eapply lookup_lt_Some|done].
Qed.

(** X18. Over the real numbers [backpropagate] returns the gradient of the
    quadratic cost of the example, half the squared norm of
    [feedforward(x) - y]: entry [k] of its bias gradient [l] is the
    derivative of the cost with respect to entry [k] of bias vector [l],
    and entry [k] of its weight gradient [l] is the derivative with respect
    to entry [k] (in row-major order) of weight matrix [l], all the other
    parameters being held. *)
Theorem backpropagate_is_the_gradient_of_the_cost
    (net : Network R) (n : nat) (sizes : list nat) x y
    (gb gw : list (ndarray R)) :
  wf_net net n sizes → valid_net net →
  column n x → valid x → column (last_size n sizes) y → valid y →
  backpropagate net x y = Ok (gb, gw) →
  (∀ l b k v, biases net !! l = Some b → data b !! k = Some v →
     ∃ g dv, gb !! l = Some g ∧ data g !! k = Some dv ∧
             derivable_pt_lim (λ t, cost (with_bias net l k t) x y) v dv) ∧
  (∀ l w k v, weights net !! l = Some w → data w !! k = Some v →
     ∃ g dv, gw !! l = Some g ∧ data g !! k = Some dv ∧
             derivable_pt_lim (λ t, cost (with_weight net l k t) x y) v dv).
Proof. apply backpropagate_gradient. Qed.

End Gradient.

(** ** The update of a batch is a step of gradient descent *)

Section Descent.
Context {G : Type} `{RandomState R G}.
Local Open Scope R_scope.
Implicit Types s : sgd_state R G.

Lemma lookup_zip_with_add (l k : list (ndarray R)) (i q : nat) a b (u v : R) :
  l !! i = Some a → k !! i = Some b → data a !! q = Some u → data b !! q = Some v →
  ∃ c, zip_with (λ a b, mk_ndarray (shp a) (zip_with fadd (data a) (data b))) l k !! i
       = Some c ∧ data c !! q = Some (u + v).
Proof.
  intros Ha Hb Hu Hv. eexists. rewrite lookup_zip_with, Ha, Hb. split; [done|].
  cbn [data]. by rewrite lookup_zip_with, Hu, Hv.
Qed.

Lemma differentiable_shaped (n : nat) (sizes : list nat) (l : list (example R)) :
  Forall (differentiable_at n sizes) l →
  Forall (λ xy, column n xy.1 ∧ column (last_size n sizes) xy.2) l ∧
  Forall (trainable n sizes) l.
Proof.
  intros Hl. split; (eapply Forall_impl; [exact Hl|]); intros xy (? & ? & ? & ?);
    by repeat split.
Qed.

Lemma grads_of_plus (net : Network R) (C1 C2 : Network R → R)
    (acc g : list (ndarray R) * list (ndarray R)) :
  grads_of net C1 acc → grads_of net C2 g →
  grads_of net (λ net', C1 net' + C2 net')
    (zip_with (λ a b, mk_ndarray (shp a) (zip_with fadd (data a) (data b))) acc.1 g.1,
     zip_with (λ a b, mk_ndarray (shp a) (zip_with fadd (data a) (data b))) acc.2 g.2).
Proof.
  intros [Hb1 Hw1] [Hb2 Hw2]. split; cbn [fst snd].
  - intros l b k v Hb Hk.
    destruct (Hb1 l b k v Hb Hk) as (g1 & d1 & Hg1 & Hd1 & Hder1).
    destruct (Hb2 l b k v Hb Hk) as (g2 & d2 & Hg2 & Hd2 & Hder2).
    destruct (lookup_zip_with_add _ _ l k g1 g2 d1 d2 Hg1 Hg2 Hd1 Hd2) as (c & Hc & Hck).
    exists c, (d1 + d2). split; [done|]. split; [done|].
    by apply (derivable_pt_lim_plus (λ t, C1 (with_bias net l k t))
                (λ t, C2 (with_bias net l k t))).
  - intros l w k v Hw Hk.
    destruct (Hw1 l w k v Hw Hk) as (g1 & d1 & Hg1 & Hd1 & Hder1).
    destruct (Hw2 l w k v Hw Hk) as (g2 & d2 & Hg2 & Hd2 & Hder2).
    destruct (lookup_zip_with_add _ _ l k g1 g2 d1 d2 Hg1 Hg2 Hd1 Hd2) as (c & Hc & Hck).
    exists c, (d1 + d2). split; [done|]. split; [done|].
    by apply (derivable_pt_lim_plus (λ t, C1 (with_weight net l k t))
                (λ t, C2 (with_weight net l k t))).
Qed.

Lemma grads_of_zeros (net : Network R) :
  valid_net net →
  grads_of net (λ _, 0)
    ((λ b, np_zeros (shp b)) <$> biases net, (λ w, np_zeros (shp w)) <$> weights net).
Proof.
  intros [Hvb Hvw].
  assert (∀ (l : list (ndarray R)) i a k v,
            Forall valid l → l !! i = Some a → data a !! k = Some v →
            ∃ g dv, ((λ b, np_zeros (shp b)) <$> l) !! i = Some g ∧
                    data g !! k = Some dv ∧ dv = 0) as Hzero.
  { intros l i a k v Hv Ha Hk. eexists _, _.
    rewrite list_lookup_fmap, Ha. split; [done|]. split; [|done].
    cbn [np_zeros data]. apply lookup_replicate_2.
    rewrite Forall_forall in Hv. rewrite <- (Hv a) by (by eapply list_elem_of_lookup_2).
    by eapply lookup_lt_Some. }
  split; cbn [fst snd].
  - intros l b k v Hb Hk.
    destruct (Hzero _ l b k v Hvb Hb Hk) as (g & dv & Hg & Hdv & ->).
    exists g, 0. split; [done|]. split; [done|]. apply derivable_const.
  - intros l w k v Hw Hk.
    destruct (Hzero _ l w k v Hvw Hw Hk) as (g & dv & Hg & Hdv & ->).
    exists g, 0. split; [done|]. split; [done|]. apply derivable_const.
Qed.

Lemma foldM_accumulate_grads (net : Network R) (n : nat) (sizes : list nat)
    (batch : list (example R)) (C : Network R → R)
    (acc sums : list (ndarray R) * list (ndarray R)) :
  wf_net net n sizes → valid_net net →
  Forall (differentiable_at n sizes) batch →
  same_shapes acc.1 (biases net) → same_shapes acc.2 (weights net) →
  grads_of net C acc →
  foldM (accumulate net) acc batch = Ok sums →
  grads_of net
    (λ net', foldl (λ a xy, a + cost net' xy.1 xy.2) (C net') batch) sums.
Proof.
  intros Hwf Hv Hbatch. revert C acc.
  induction Hbatch as [|[x y] batch (Hx & Hvx & Hy & Hvy) _ IH];
    intros C [bsum wsum] Hbs Hws Hacc.
  { cbn [foldM foldl]. by intros [= <-]. }
  cbn [fst snd] in *.
  destruct (backpropagate_spec net n sizes x y Hwf Hx Hy)
    as (gb & gw & Hcode & _ & Hgb & Hgw).
  assert (same_shapes bsum gb) as Hbg
    by (eapply same_shapes_trans; [done|by apply same_shapes_sym]).
  assert (same_shapes wsum gw) as Hwg
    by (eapply same_shapes_trans; [done|by apply same_shapes_sym]).
  cbn [foldM foldl]. rewrite accumulate_eq. cbn [fst snd].
  rewrite Hcode. mstep.
  rewrite (spec_add_gradients_ok (bsum, wsum) (gb, gw)) by done. mstep.
  cbn [fst snd]. intros Hsums.
  eapply (IH (λ net', C net' + cost net' x y)); [| | |exact Hsums]; cbn [fst snd].
  - eapply same_shapes_trans; [|exact Hbs]. by apply same_shapes_zip_with.
  - eapply same_shapes_trans; [|exact Hws]. by apply same_shapes_zip_with.
  - apply (grads_of_plus net C (λ net', cost net' x y) (bsum, wsum) (gb, gw));
      [done|].
    exact (backpropagate_gradient net n sizes x y gb gw Hwf Hv Hx Hvx Hy Hvy Hcode).
Qed.


Lemma lookup_spec_updated (eta : R) (count : nat) (ps gs : list (ndarray R))
    (l k : nat) p g (v dv : R) :
  ps !! l = Some p → gs !! l = Some g → data p !! k = Some v → data g !! k = Some dv →
  ∃ p', zip_with (spec_updated eta count) ps gs !! l = Some p' ∧
        data p' !! k = Some (v - eta / IZR (Z.of_nat count) * dv).
Proof.
  intros Hp Hg Hv Hdv. eexists. rewrite lookup_zip_with, Hp, Hg. split; [done|].
  unfold spec_updated. cbn [data]. by rewrite lookup_zip_with, Hv, Hdv.
Qed.

Lemma batch_gradient_descent
    (eta : R) (batch : list (example R)) (n : nat) (sizes : list nat) s :
  wf_net (self s) n sizes → valid_net (self s) → batch ≠ [] →
  Forall (differentiable_at n sizes) batch →
  ∃ s',
    update_batch eta batch s = (Ok tt, s') ∧
    (∀ l b k v, biases (self s) !! l = Some b → data b !! k = Some v →
       ∃ b' D, biases (self s') !! l = Some b' ∧
               data b' !! k = Some (v - eta * D) ∧
               derivable_pt_lim
                 (λ t, batch_cost (with_bias (self s) l k t) batch) v D) ∧
    (∀ l w k v, weights (self s) !! l = Some w → data w !! k = Some v →
       ∃ w' D, weights (self s') !! l = Some w' ∧
               data w' !! k = Some (v - eta * D) ∧
               derivable_pt_lim
                 (λ t, batch_cost (with_weight (self s) l k t) batch) v D).
Proof.
  intros Hwf Hv Hne Hbatch.
  destruct (differentiable_shaped n sizes batch Hbatch) as [Hshaped _].
  destruct (update_batch_spec eta batch n sizes s Hwf Hne Hshaped)
    as (gb & gw & Hsum & Hupd & _).
  destruct (foldM_accumulate (self s) n sizes batch
              ((λ b, np_zeros (shp b)) <$> biases (self s),
               (λ w, np_zeros (shp w)) <$> weights (self s)) Hwf Hshaped)
    as (sums & Hcode & Hspec & _); try apply same_shapes_zeros.
  unfold spec_gradient_sum in Hsum. rewrite Hsum in Hspec. injection Hspec as <-.
  opose proof* (foldM_accumulate_grads (self s) n sizes batch (λ _, 0) _ _
                  Hwf Hv Hbatch _ _ (grads_of_zeros _ Hv) Hcode) as [Hgb Hgw];
    try apply same_shapes_zeros.
  cbn [fst snd] in Hgb, Hgw.
  assert (0 < IZR (Z.of_nat (length batch))) as Hlen.
  { apply IZR_lt. destruct batch; [done|]. cbn [length]. lia. }
  eexists. split; [exact Hupd|]. cbn [self biases weights]. split.
  - intros l b k v Hb Hk.
    destruct (Hgb l b k v Hb Hk) as (g & dv & Hg & Hdv & Hder).
    destruct (lookup_spec_updated eta (length batch) _ _ l k b g v dv Hb Hg Hk Hdv)
      as (b' & Hb' & Hk').
    exists b', (dv / IZR (Z.of_nat (length batch))). split; [done|]. split.
    + rewrite Hk'. do 2 f_equal. field. lra.
    + unfold batch_cost, total_cost.
      apply (derivable_pt_lim_div_scal
               (λ t, foldl (λ a xy, a + cost (with_bias (self s) l k t) xy.1 xy.2)
                       0 batch)).
      exact Hder.
  - intros l w k v Hw Hk.
    destruct (Hgw l w k v Hw Hk) as (g & dv & Hg & Hdv & Hder).
    destruct (lookup_spec_updated eta (length batch) _ _ l k w g v dv Hw Hg Hk Hdv)
      as (w' & Hw' & Hk').
    exists w', (dv / IZR (Z.of_nat (length batch))). split; [done|]. split.
    + rewrite Hk'. do 2 f_equal. field. lra.
    + unfold batch_cost, total_cost.
      apply (derivable_pt_lim_div_scal
               (λ t, foldl (λ a xy, a + cost (with_weight (self s) l k t) xy.1 xy.2)
                       0 batch)).
      exact Hder.
Qed.

(** X21. Over the real numbers the update of a batch is a step of gradient
    descent on the mean cost of its examples: every weight and every bias
    is replaced by itself less [eta] times the derivative of the mean cost
    of the batch with respect to it, the derivative being taken at the
    parameters before the update. *)
Theorem update_batch_is_gradient_descent
    (eta : R) (batch : list (example R)) (n : nat) (sizes : list nat) s :
  wf_net (self s) n sizes → valid_net (self s) → batch ≠ [] →
  Forall (differentiable_at n sizes) batch →
  ∃ s',
    update_batch eta batch s = (Ok tt, s') ∧
    (∀ l b k v, biases (self s) !! l = Some b → data b !! k = Some v →
       ∃ b' D, biases (self s') !! l = Some b' ∧
               data b' !! k = Some (v - eta * D) ∧
               derivable_pt_lim
                 (λ t, batch_cost (with_bias (self s) l k t) batch) v D) ∧
    (∀ l w k v, weights (self s) !! l = Some w → data w !! k = Some v →
       ∃ w' D, weights (self s') !! l = Some w' ∧
               data w' !! k = Some (v - eta * D) ∧
               derivable_pt_lim
                 (λ t, batch_cost (with_weight (self s) l k t) batch) v D).
Proof. apply batch_gradient_descent. Qed.

End Descent.

(** ** The cells of the notebook *)

(** X19. The cell that evaluates the untrained network divides by the size
    of the test set: on an empty test set it raises [ZeroDivisionError]
    (after [evaluate] has returned 0); on any other test set of well-shaped
    images it prints the count of [evaluate], the size of the test set and
    a percentage between 0 and 100. *)
Theorem accuracy_cell_percentage
    (net : Network R) (n : nat) (sizes : list nat) (test : list (labelled R)) :
  wf_net net n sizes → valid_net net → last_size n sizes ≠ 0 →
  Forall (testable n) test →
  (test = [] → accuracy_cell net test = Raise ZeroDivisionError) ∧
  (test ≠ [] →
     ∃ (nright : Z) (pct : R),
       accuracy_cell net test = Ok (nright, Z.of_nat (length test), pct) ∧
       evaluate net test = Ok nright ∧
       (0 ≤ nright ≤ Z.of_nat (length test))%Z ∧
       (0 <= pct <= 100)%R).
Proof.
  intros Hwf Hv Hpos Htest. split; [by intros ->|]. intros Hne.
  destruct (evaluate_ok net n sizes test Hwf Hv Hpos Htest) as (c & Hc & Hbound).
  unfold accuracy_cell. rewrite Hc. mstep.
  rewrite decide_False by (by destruct test).
  eexists _, _. split; [done|]. split; [done|]. split; [done|].
  change (0 <= 100 * IZR c / IZR (Z.of_nat (length test)) <= 100)%R.
  assert (0 < IZR (Z.of_nat (length test)))%R as Hlen.
  { apply IZR_lt. destruct test; [done|]. cbn [length]. lia. }
  assert (0 <= IZR c)%R as Hc0 by (apply IZR_le; lia).
  assert (IZR c <= IZR (Z.of_nat (length test)))%R as Hc1 by (apply IZR_le; lia).
  split.
  - apply Rmult_le_pos; [lra|]. left. by apply Rinv_0_lt_compat.
  - apply (Rmult_le_reg_r (IZR (Z.of_nat (length test)))); [done|].
    unfold Rdiv. rewrite Rmult_assoc, Rinv_l by lra. lra.
Qed.

Section NotebookRuns.
Context {F G : Type} `{Scalar F} `{RandomState F G}.

Lemma layer_sizes_wf (net : Network F) (n : nat) (ns : list nat) :
  layer_sizes = Z.of_nat <$> (n :: ns) → n = 784 ∧ ns = [30; 10].
Proof.
  unfold layer_sizes. destruct ns as [|a [|b [|c ns]]]; cbn; try done.
  intros [= ? ? ?]. split; [lia|]. f_equal; [lia|]. f_equal. lia.
Qed.

(** X20. The notebook runs through: when the three sets of the file hold
    images of 784 pixels, the digits of the training set are valid indices
    for [asvector] and the test set is not empty, then loading the data,
    constructing the network of sizes [784, 30, 10], evaluating it and
    training it for 10 epochs with batches of 10 raises no exception,
    whatever the generator is seeded with; the evaluation cell and the ten
    reports of [SGD] show counts between 0 and the size of the test set. *)
Theorem notebook_runs
    (tr_d va_d te_d : Data.raw_set F) (rtr rva rte : nat) (g : G) :
  shp (Data.images tr_d) = Sh2 rtr 784 →
  shp (Data.images va_d) = Sh2 rva 784 →
  shp (Data.images te_d) = Sh2 rte 784 →
  valid (Data.images te_d) →
  Forall (λ j, -10 ≤ j < 10)%Z (Data.digits tr_d) →
  0 < rte → Data.digits te_d ≠ [] →
  ∃ (nright total : Z) (pct : F) (s : sgd_state F G) (counts : list Z),
    notebook (tr_d, va_d, te_d) g = Ok (nright, total, pct, s) ∧
    total = Z.of_nat (rte `min` length (Data.digits te_d)) ∧
    (0 ≤ nright ≤ total)%Z ∧
    length counts = 10 ∧
    Forall (λ c, 0 ≤ c ≤ total)%Z counts ∧
    stdout s = imap (λ j c, Report (Z.of_nat j + 1) c total) counts ∧
    wf_net (self s) 784 [30; 10] ∧
    length (training_data s) = rtr `min` length (Data.digits tr_d).
Proof.
  intros Htr Hva Hte Hvte Hdigits Hrte Hdte.
  destruct (load_data_ok tr_d va_d te_d rtr rva rte Htr Hva Hte Hdigits)
    as (tr & va & te & Hload & Hltr & _ & Hlte & Htr_ex & _ & Hte_ex).
  destruct (init_ok (F:=F) layer_sizes g) as (net & g' & Hinit);
    [done|done|repeat constructor; lia|].
  destruct (init_inv _ _ _ _ Hinit) as (n & ns & Hsizes & _ & _ & Hwf & Hv).
  destruct (layer_sizes_wf net n ns Hsizes) as [-> ->].
  assert (Forall (testable 784) te) as Htestable.
  { apply Forall_lookup. intros i [x j] Hi.
    destruct (Hte_ex i x j Hi) as (_ & Hx & Hvx & _). split; auto. }
  assert (Forall (trainable 784 [30; 10]) tr) as Htrainable.
  { apply Forall_lookup. intros i [x y] Hi.
    destruct (Htr_ex i x y Hi) as (_ & Hx & _ & j & _ & _ & Hy & Hvy).
    split; [done|]. split; done. }
  assert (te ≠ []) as Hne.
  { intros ->. cbn [length] in Hlte. destruct (Data.digits te_d); [done|].
    cbn [length] in Hlte. lia. }
  destruct (evaluate_ok net 784 [30; 10] te Hwf Hv ltac:(done) Htestable)
    as (c & Hc & Hbound).
  destruct (SGD_runs EPOCHS BATCHSZ (fofZ ETA) te 784 [30; 10]
              {| self := net; rng := g'; training_data := tr; stdout := [] |})
    as (s & counts & Hsgd & Hlen & Hcounts & Hout & Hperm & Hwfs & _);
    try done.
  eexists c, _, _, s, counts. unfold notebook. rewrite Hload. mstep.
  rewrite Hinit. unfold accuracy_cell. rewrite Hc. mstep.
  rewrite decide_False by (by destruct te). mstep. rewrite Hsgd.
  rewrite <- Hlte. split; [done|]. split; [done|]. split; [done|].
  split; [done|]. split; [done|]. split; [done|]. split; [done|].
  rewrite <- Hltr. by apply Permutation_length.
Qed.

End NotebookRuns.

(** ** What training leaves alone *)

Section Frame.
Context {F G : Type} `{Scalar F} `{RandomState F G}.
Implicit Types s : sgd_state F G.

Lemma sgd_frame_refl s : sgd_frame s s.
Proof. by repeat split. Qed.

Lemma sgd_frame_trans s1 s2 s3 : sgd_frame s1 s2 → sgd_frame s2 s3 → sgd_frame s1 s3.
Proof.
  intros (Hl1 & Hn1 & Ht1 & Ho1) (Hl2 & Hn2 & Ht2 & Ho2).
  split; [congruence|]. split; [congruence|]. split; [by rewrite Ht2|].
  by etrans.
Qed.

Lemma update_batch_frame (eta : F) (batch : list (example F)) s :
  sgd_frame s (update_batch eta batch s).2.
Proof.
  unfold update_batch, mbind, M_bind, get, lift, put.
  destruct (foldM _ _ batch) as [sums|e]; [|apply sgd_frame_refl].
  destruct (scale_eta eta (length batch)) as [eta_scaled|e]; [|apply sgd_frame_refl].
  destruct (zipM _ (weights (self s)) _) as [ws|e]; [|apply sgd_frame_refl].
  destruct (zipM _ (biases _) _) as [bs|e]; by repeat split.
Qed.

Lemma for_each_frame {A : Type} (body : A → M (sgd_state F G) unit) (l : list A) s :
  (∀ x s, sgd_frame s (body x s).2) → sgd_frame s (for_each l body s).2.
Proof.
  intros Hbody. revert s. induction l as [|x l IH]; intros s; [apply sgd_frame_refl|].
  cbn [for_each]. unfold mbind, M_bind. specialize (Hbody x s).
  destruct (body x s) as [[[]|e] s1]; cbn [snd] in *; [|done].
  eapply sgd_frame_trans; [exact Hbody|apply IH].
Qed.

Lemma end_of_epoch_frame (j : Z) (test : option (list (labelled F))) s :
  sgd_frame s (end_of_epoch j test s).2.
Proof.
  destruct test as [[|xy rest]|]; try apply sgd_frame_refl.
  unfold end_of_epoch, mbind, M_bind, get, lift, print.
  destruct (evaluate (self s) (xy :: rest)); [|apply sgd_frame_refl].
  split; [done|]. split; [done|]. split; [done|]. by apply prefix_app_r.
Qed.

Lemma epoch_frame (batchsz : Z) (eta : F) (test : option (list (labelled F)))
    (j : Z) s :
  sgd_frame s (epoch batchsz eta test j s).2.
Proof.
  destruct (shuffle_training_data_ok s) as (s1 & Hshuf & Hself & Hout & Hperm).
  assert (sgd_frame s s1) as Hs1.
  { split; [by rewrite Hself|]. split; [by rewrite Hself|]. split; [done|].
    by rewrite Hout. }
  unfold epoch. unfold mbind at 1, M_bind at 1. rewrite Hshuf.
  unfold mbind at 1, M_bind at 1, get at 1.
  unfold mbind at 1, M_bind at 1, lift at 1.
  destruct (make_batches (training_data s1) batchsz) as [batches|e]; [|done].
  unfold mbind at 1, M_bind at 1.
  pose proof (for_each_frame (update_batch eta) batches s1 (update_batch_frame eta))
    as Hloop.
  destruct (for_each batches (update_batch eta) s1) as [[[]|e] s2]; cbn [snd] in *.
  - eapply sgd_frame_trans; [exact Hs1|].
    eapply sgd_frame_trans; [exact Hloop|]. apply end_of_epoch_frame.
  - by eapply sgd_frame_trans.
Qed.

(** X22. Whatever its arguments are and whether it returns or raises, a
    call of [SGD] leaves the number and the sizes of the layers of the
    object as they were, keeps every training example (in another order),
    and only adds to what is printed. *)
Theorem SGD_frame
    (epochs batchsz : Z) (eta : F) (test : option (list (labelled F))) s :
  layersz (self (SGD epochs batchsz eta test s).2) = layersz (self s) ∧
  nlayers (self (SGD epochs batchsz eta test s).2) = nlayers (self s) ∧
  training_data (SGD epochs batchsz eta test s).2 ≡ₚ training_data s ∧
  stdout s `prefix_of` stdout (SGD epochs batchsz eta test s).2.
Proof. apply (for_each_frame (epoch batchsz eta test)), epoch_frame. Qed.

End Frame.

(** ** The sigmoid in the arithmetic with the range of binary64 *)

Section SigmoidNaN.
Local Open Scope R_scope.

Lemma sigmoid_xreal_not_nan (v : xreal) :
  v ≠ NaN → fdiv f1 (fadd f1 (fexp (fneg v))) ≠ NaN.
Proof.
  assert (fdiv f1 PInf = Fin 0) as Hinf by done.
  assert (∀ e, 0 <= e → fdiv f1 (fadd f1 (Fin e)) ≠ NaN) as Hfin.
  { intros e He. change (fadd f1 (Fin e)) with (round (1 + e)).
    destruct (round_positive (1 + e)) as [-> | ->]; [lra| |].
    - by rewrite Hinf.
    - change (fdiv f1 (Fin (1 + e))) with (xdiv (Fin 1) (Fin (1 + e))).
      cbn [xdiv]. destruct (Req_dec_T (1 + e) 0); [lra|].
      assert (0 < 1 / (1 + e) <= 1) as [Hlo Hhi].
      { split; [apply Rdiv_lt_0_compat; lra|].
        apply (Rmult_le_reg_r (1 + e)); [lra|]. field_simplify; lra. }
      by rewrite round_in_range by (rewrite Rabs_right; lra). }
  intros Hv. destruct v as [r| | |]; [| | |done].
  - change (fexp (fneg (Fin r))) with (round (exp (- r))).
    pose proof (exp_pos (- r)) as He.
    destruct (round_positive (exp (- r)) He) as [-> | ->].
    + change (fadd f1 PInf) with PInf. by rewrite Hinf.
    + apply Hfin. lra.
  - change (fexp (fneg PInf)) with (Fin 0). apply Hfin. lra.
  - change (fexp (fneg NInf)) with PInf. change (fadd f1 PInf) with PInf.
    by rewrite Hinf.
Qed.

(** X23. In the arithmetic with the range of binary64, [sigmoid] needs no
    guard to stay in range: an entry of its result is a NaN only where the
    entry of its argument is one, and every other entry, also where the
    argument is infinite or where [exp] overflows, lies between 0 and 1. *)
Theorem sigmoid_nan_only_from_nan (z : ndarray xreal) :
  Forall2 (λ v s, (s = NaN ↔ v = NaN) ∧ in_closed_unit_or_nan s)
    (data z) (data (sigmoid z)).
Proof.
  unfold sigmoid, np_map. cbn [data]. rewrite <- !list_fmap_compose.
  apply Forall2_fmap_r, Forall_Forall2_diag, Forall_true. intros v.
  unfold compose. split; [|apply sigmoid_xreal_range].
  split.
  - intros Hs. destruct v as [r| | |]; [| | |done];
      by apply sigmoid_xreal_not_nan in Hs.
  - by intros ->.
Qed.

End SigmoidNaN.

(** ** The derivative of the sigmoid in the range of binary64 *)

Section DSigmoidRange.
Local Open Scope R_scope.

(** [sigmoid] and [D_sigmoid] on one entry. *)
Lemma D_sigmoid_each {F : Type} `{Scalar F} (z : ndarray F) :
  D_sigmoid z
  = Ok (mk_ndarray (shp z)
          ((λ v, let s := fdiv f1 (fadd f1 (fexp (fneg v))) in fmul s (fsub f1 s))
             <$> data z)).
Proof.
  unfold D_sigmoid, np_mul. rewrite np_zip_same by done. do 2 f_equal.
  unfold sigmoid, np_map. cbn [data].
  rewrite <- !list_fmap_compose, zip_with_fmap_l, zip_with_fmap_r, zip_with_diag.
  by apply list_fmap_ext.
Qed.

Lemma D_sigmoid_of_fin (r : R) :
  0 <= r <= 1 → fmul (Fin r) (fsub f1 (Fin r)) = Fin (r * (1 - r)).
Proof.
  intros Hr. change (fsub f1 (Fin r)) with (round (1 + - r)).
  rewrite round_in_range by (apply Rabs_le; lra).
  change (fmul (Fin r) (Fin (1 + - r))) with (round (r * (1 + - r))).
  rewrite round_in_range by (apply Rabs_le; nra).
  f_equal; lra.
Qed.

Lemma D_sigmoid_xreal_range (v : xreal) :
  let s := fdiv f1 (fadd f1 (fexp (fneg v))) in
  (fmul s (fsub f1 s) = NaN ↔ v = NaN) ∧ in_quarter_or_nan (fmul s (fsub f1 s)).
Proof.
  intros s. pose proof (sigmoid_xreal_range v) as Hs. fold s in Hs.
  assert (v = NaN ∨ v ≠ NaN) as [->|Hv] by (destruct v; auto); [done|].
  pose proof (sigmoid_xreal_not_nan v Hv) as Hnan. fold s in Hnan.
  destruct s as [r| | |]; [|done|done|done]. cbn in Hs.
  rewrite D_sigmoid_of_fin by done. split; [done|].
  cbn. pose proof (Rle_0_sqr (r - 1 / 2)) as Hsq. unfold Rsqr in Hsq. nra.
Qed.

(** Where [sigmoid] saturates it is exactly 0 or exactly 1, and its
    derivative exactly 0. *)
Lemma D_sigmoid_xreal_saturated (v : xreal) :
  saturating v →
  let s := fdiv f1 (fadd f1 (fexp (fneg v))) in fmul s (fsub f1 s) = Fin 0.
Proof.
  intros Hv s.
  assert (s = Fin 0 ∨ s = Fin 1) as Hs.
  { subst s. destruct v as [r| | |]; [| | |done].
    - left. change (fexp (fneg (Fin r))) with (round (exp (- r))).
      rewrite round_overflow; [done|]. cbn in Hv.
      eapply Rle_trans; [apply exp_710_above_threshold|].
      apply exp_le_mono. lra.
    - right. change (fexp (fneg PInf)) with (Fin 0).
      change (fadd f1 (Fin 0)) with (round (1 + 0)).
      rewrite round_in_range by (apply Rabs_le; lra).
      change (fdiv f1 (Fin (1 + 0))) with (xdiv (Fin 1) (Fin (1 + 0))).
      cbn [xdiv]. destruct (Req_dec_T (1 + 0) 0); [lra|].
      rewrite round_in_range by (apply Rabs_le; lra). f_equal; lra.
    - by left. }
  destruct Hs as [-> | ->]; rewrite D_sigmoid_of_fin by lra; f_equal; lra.
Qed.

(** X17. In the arithmetic with the range of binary64, every entry of
    [D_sigmoid(z)] lies between 0 and 1/4, both included, or is a NaN, and
    it is a NaN only where the entry of [z] is one.  The bound 0 is
    reached: where [sigmoid] saturates (an infinite entry, or an entry from
    -710 down, for which [exp] overflows) the entry of [D_sigmoid(z)] is
    exactly 0. *)
Theorem D_sigmoid_range (z : ndarray xreal) :
  ∃ d, D_sigmoid z = Ok d ∧ shp d = shp z ∧
       Forall2 (λ v dv, (dv = NaN ↔ v = NaN) ∧ in_quarter_or_nan dv ∧
                        (saturating v → dv = Fin 0))
         (data z) (data d).
Proof.
  rewrite D_sigmoid_each. eexists. split; [done|]. split; [done|]. cbn [data].
  apply Forall2_fmap_r, Forall_Forall2_diag, Forall_true. intros v.
  destruct (D_sigmoid_xreal_range v) as [Hnan Hrange].
  split; [exact Hnan|]. split; [exact Hrange|]. apply D_sigmoid_xreal_saturated.
Qed.

End DSigmoidRange.

(** ** Training in two calls *)

Section Resume.
Context {F G : Type} `{Scalar F} `{RandomState F G}.
Implicit Types s : sgd_state F G.

Lemma same_run_refl s : same_run s s.
Proof. by repeat split. Qed.

Lemma update_batch_same_run (eta : F) (batch : list (example F)) s s' :
  same_run s s' →
  (update_batch eta batch s).1 = (update_batch eta batch s').1 ∧
  same_run (update_batch eta batch s).2 (update_batch eta batch s').2.
Proof.
  intros (Hself & Hrng & Htd & Hout).
  unfold update_batch, mbind, M_bind, get, lift, put. rewrite Hself.
  destruct (foldM _ _ batch) as [sums|e]; [|by repeat split].
  destruct (scale_eta eta (length batch)) as [eta_scaled|e]; [|by repeat split].
  destruct (zipM _ (weights (self s')) _) as [ws|e]; [|by repeat split].
  cbn [set_weights self biases]. rewrite Hself.
  destruct (zipM _ (biases (self s')) _) as [bs|e]; cbn [fst snd];
    (split; [done|]); unfold same_run; cbn; by rewrite ?Hself, ?Hrng, ?Htd, ?Hout.
Qed.

Lemma for_each_same_run {A B : Type} (related : A → B → Prop)
    (body : A → M (sgd_state F G) unit) (body' : B → M (sgd_state F G) unit)
    (l : list A) (l' : list B) s s' :
  (∀ x y s s', related x y → same_run s s' →
     (body x s).1 = (body' y s').1 ∧ same_run (body x s).2 (body' y s').2) →
  Forall2 related l l' → same_run s s' →
  (for_each l body s).1 = (for_each l' body' s').1 ∧
  same_run (for_each l body s).2 (for_each l' body' s').2.
Proof.
  intros Hbody Hl. revert s s'. induction Hl as [|x y l l' Hxy _ IH]; intros s s' Hs;
    [done|].
  cbn [for_each]. unfold mbind, M_bind.
  destruct (Hbody x y s s' Hxy Hs) as [Hr Hs1].
  destruct (body x s) as [[[]|e] s1], (body' y s') as [[[]|e'] s1'];
    cbn [fst snd] in *; try done.
  by apply IH.
Qed.

Lemma end_of_epoch_same_run (j j' : Z) (test : option (list (labelled F))) s s' :
  same_run s s' →
  (end_of_epoch j test s).1 = (end_of_epoch j' test s').1 ∧
  same_run (end_of_epoch j test s).2 (end_of_epoch j' test s').2.
Proof.
  intros (Hself & Hrng & Htd & Hout).
  destruct test as [[|xy rest]|]; try (by repeat split).
  unfold end_of_epoch, mbind, M_bind, get, lift, print. rewrite Hself.
  destruct (evaluate (self s') (xy :: rest)); cbn [fst snd]; [|by repeat split].
  split; [done|]. unfold same_run. cbn [self rng training_data stdout].
  rewrite !fmap_app, Hout. by repeat split.
Qed.

Lemma epoch_after_shuffle (batchsz : Z) (eta : F) (test : option (list (labelled F)))
    (j : Z) s s1 :
  shuffle_training_data s = (Ok tt, s1) →
  epoch batchsz eta test j s
  = match make_batches (training_data s1) batchsz with
    | Ok batches =>
        match for_each batches (update_batch eta) s1 with
        | (Ok _, s2) => end_of_epoch j test s2
        | (Raise e, s2) => (Raise e, s2)
        end
    | Raise e => (Raise e, s1)
    end.
Proof.
  intros Hsh. unfold epoch. unfold mbind at 1, M_bind at 1. rewrite Hsh.
  unfold mbind at 1, M_bind at 1, get at 1.
  unfold mbind at 1, M_bind at 1, lift at 1.
  destruct (make_batches (training_data s1) batchsz) as [batches|e]; [|done].
  unfold mbind at 1, M_bind at 1.
  by destruct (for_each batches (update_batch eta) s1) as [[[]|e] s2].
Qed.

Lemma epoch_same_run (batchsz : Z) (eta : F) (test : option (list (labelled F)))
    (j j' : Z) s s' :
  same_run s s' →
  (epoch batchsz eta test j s).1 = (epoch batchsz eta test j' s').1 ∧
  same_run (epoch batchsz eta test j s).2 (epoch batchsz eta test j' s').2.
Proof.
  intros (Hself & Hrng & Htd & Hout).
  assert (∃ s1 s1', shuffle_training_data s = (Ok tt, s1) ∧
                    shuffle_training_data s' = (Ok tt, s1') ∧ same_run s1 s1')
    as (s1 & s1' & Hsh & Hsh' & Hs1).
  { unfold shuffle_training_data. rewrite Htd, Hrng.
    destruct (rs_shuffle (training_data s') (rng s')) as [td g].
    eexists _, _. split; [done|]. split; [done|]. by repeat split. }
  rewrite (epoch_after_shuffle _ _ _ j s s1 Hsh),
    (epoch_after_shuffle _ _ _ j' s' s1' Hsh').
  destruct Hs1 as (Hself1 & Hrng1 & Htd1 & Hout1). rewrite Htd1.
  destruct (make_batches (training_data s1') batchsz) as [batches|e];
    [|by repeat split].
  destruct (for_each_same_run eq (update_batch eta) (update_batch eta) batches batches
              s1 s1') as [Hr Hs2].
  { intros x y s2 s2' <- Hs2. by apply update_batch_same_run. }
  { by apply Forall_Forall2_diag, Forall_true. }
  { by repeat split. }
  destruct (for_each batches (update_batch eta) s1) as [[[]|e] s2],
    (for_each batches (update_batch eta) s1') as [[[]|e'] s2'];
    cbn [fst snd] in *; try done.
  by apply end_of_epoch_same_run.
Qed.

Lemma for_each_app {A : Type} (body : A → M (sgd_state F G) unit) (l k : list A) s :
  for_each (l ++ k) body s = (_ ← for_each l body; for_each k body) s.
Proof.
  revert s. induction l as [|x l IH]; intros s; [done|].
  cbn [app for_each]. unfold mbind, M_bind.
  destruct (body x s) as [[[]|e] s1]; [|done]. apply IH.
Qed.

Lemma py_range_app (lo mid hi : Z) :
  (lo ≤ mid ≤ hi)%Z → py_range lo hi = py_range lo mid ++ py_range mid hi.
Proof.
  intros Hm. unfold py_range.
  replace (Z.to_nat (hi - lo)) with (Z.to_nat (mid - lo) + Z.to_nat (hi - mid)) by lia.
  rewrite seq_app, fmap_app. f_equal. rewrite Nat.add_0_l.
  rewrite <- (Nat.add_0_r (Z.to_nat (mid - lo))) at 1.
  rewrite <- fmap_add_seq, <- list_fmap_compose.
  apply list_fmap_ext. intros _ i _. cbn. lia.
Qed.

(** X24. Training can be done in two calls: [SGD] for [m] epochs followed
    by [SGD] for [n] epochs returns or raises as one call for [m + n]
    epochs does, and leaves the same network, the same generator and the
    same training set; what is printed differs only in the numbers of the
    epochs, which the second call counts again from 1. *)
Theorem SGD_in_two_calls
    (m n batchsz : Z) (eta : F) (test : option (list (labelled F))) s :
  (0 ≤ m)%Z → (0 ≤ n)%Z →
  (SGD (m + n) batchsz eta test s).1
  = ((_ ← SGD m batchsz eta test; SGD n batchsz eta test) s).1 ∧
  same_run (SGD (m + n) batchsz eta test s).2
    ((_ ← SGD m batchsz eta test; SGD n batchsz eta test) s).2.
Proof.
  intros Hm Hn.
  assert (SGD (m + n) batchsz eta test s
          = (_ ← SGD m batchsz eta test;
             for_each (py_range m (m + n)) (epoch batchsz eta test)) s) as ->.
  { unfold SGD. rewrite (py_range_app 0 m (m + n)) by lia. apply for_each_app. }
  unfold mbind, M_bind.
  destruct (SGD m batchsz eta test s) as [[[]|e] s1]; [|by split; [|apply same_run_refl]].
  unfold SGD. apply (for_each_same_run (λ _ _, True)).
  - intros j j' s2 s2' _. apply epoch_same_run.
  - apply Forall2_true; [done|]. unfold py_range. rewrite !length_fmap, !length_seq. lia.
  - apply same_run_refl.
Qed.

(** X25. A call of [SGD] for no epoch, or for a negative number of epochs,
    does nothing at all: [range(epochs)] is empty, so that the training set
    is not shuffled, the batch size is not looked at (a batch size of zero
    raises nothing) and no report is due (the missing test data raise
    nothing either). *)
Theorem SGD_no_epochs
    (epochs batchsz : Z) (eta : F) (test : option (list (labelled F))) s :
  (epochs ≤ 0)%Z → SGD epochs batchsz eta test s = (Ok tt, s).
Proof.
  intros He. unfold SGD, py_range.
  by replace (Z.to_nat (epochs - 0)) with 0 by lia.
Qed.

End Resume.

(** ** The further theorems at the network of the notebook *)

Lemma asvector_valid (j : nat) : j < 10 → valid (asvector j).
Proof. intros Hj. unfold valid, asvector. cbn [data shp]. by rewrite length_insert. Defined.

Lemma three_examples_trainable : Forall (trainable 784 [30; 10]) three_examples.
Proof.
  repeat constructor; try apply valid_np_zeros; apply asvector_valid; lia.
Defined.

Lemma three_examples_differentiable :
  Forall (differentiable_at 784 [30; 10]) three_examples.
Proof.
  repeat constructor; try apply valid_np_zeros; apply asvector_valid; lia.
Defined.

Lemma two_tests_testable : Forall (testable 784) two_tests.
Proof. repeat constructor; apply valid_np_zeros. Defined.

Lemma asvector_argmax_round_trip_witness :
  (0 ≤ 3 < 10)%Z ∧
  ∃ e : ndarray R, Data.asvector 3 = Ok e ∧ np_argmax e = Ok 3%Z.
Proof.
  split; [lia|].
  destruct (asvector_argmax_round_trip 3 ltac:(lia)) as (e & He & _ & _ & _ & Harg).
  exists e. split; [exact He|exact Harg].
Defined.

Lemma load_data_repackages_witness :
  shp (Data.images one_image_set) = Sh2 1 784 ∧
  Forall (λ j, -10 ≤ j < 10)%Z (Data.digits one_image_set) ∧
  ∃ tr va te,
    Data.load_data (one_image_set, one_image_set, one_image_set) = Ok (tr, va, te) ∧
    length tr = 1 ∧ length va = 1 ∧ length te = 1.
Proof.
  split; [reflexivity|].
  assert (Forall (λ j, -10 ≤ j < 10)%Z (Data.digits one_image_set)) as Hd
    by (repeat constructor; lia).
  split; [exact Hd|].
  destruct (load_data_repackages one_image_set one_image_set one_image_set 1 1 1
              eq_refl eq_refl eq_refl Hd)
    as (tr & va & te & Hload & Htr & Hva & Hte & _).
  exists tr, va, te. split; [exact Hload|]. split; [exact Htr|].
  split; [exact Hva|exact Hte].
Defined.

Lemma load_data_errors_witness :
  shp (Data.images narrow_set) = Sh2 1 783 ∧ 0 < 1 ∧
  Data.load_data (narrow_set, one_image_set, one_image_set) = Raise ValueError.
Proof.
  split; [reflexivity|]. split; [lia|].
  destruct (load_data_errors narrow_set one_image_set one_image_set 1 783
              eq_refl ltac:(lia)) as [Hwidth _].
  apply Hwidth. lia.
Defined.

Lemma SGD_runs_to_completion_witness :
  (0 < 2)%Z ∧ wf_net (self start_state) 784 [30; 10] ∧
  valid_net (self start_state) ∧
  Forall (trainable 784 [30; 10]) (training_data start_state) ∧
  two_tests ≠ [] ∧ Forall (testable 784) two_tests ∧
  ∃ s', SGD 3 2 2%R (Some two_tests) start_state = (Ok tt, s') ∧
        length (stdout s') = 3.
Proof.
  split; [lia|]. split; [exact mnist_net_wf|]. split; [exact mnist_net_valid|].
  split; [exact three_examples_trainable|]. split; [discriminate|].
  split; [exact two_tests_testable|].
  destruct (SGD_runs_to_completion 3 2 2%R two_tests 784 [30; 10] start_state
              ltac:(lia) mnist_net_wf mnist_net_valid ltac:(discriminate)
              three_examples_trainable ltac:(discriminate) two_tests_testable)
    as (s' & counts & Hrun & Hlen & _ & Hout & _).
  exists s'. split; [exact Hrun|].
  rewrite Hout, length_app, length_imap, Hlen. reflexivity.
Defined.

Lemma SGD_without_test_data_stops_after_first_epoch_witness :
  (0 < 10)%Z ∧ (0 < 2)%Z ∧ wf_net (self start_state) 784 [30; 10] ∧
  (SGD 10 2 2%R None start_state).1 = Raise TypeError.
Proof.
  split; [lia|]. split; [lia|]. split; [exact mnist_net_wf|].
  destruct (SGD_without_test_data_stops_after_first_epoch 10 2 2%R None
              784 [30; 10] start_state ltac:(lia) ltac:(lia) mnist_net_wf
              three_examples_shaped (or_introl eq_refl))
    as (batches & net' & _ & _ & Hrun).
  by rewrite Hrun.
Defined.

Lemma SGD_without_batches_keeps_network_witness :
  (-1 ≤ 0)%Z ∧ self (SGD 10 (-1) 2%R (Some two_tests) start_state).2 = mnist_net.
Proof.
  split; [lia|].
  apply (SGD_without_batches_keeps_network 10 (-1) 2%R (Some two_tests) start_state).
  left. lia.
Defined.

Lemma SGD_zero_batch_size_raises_witness :
  (0 < 10)%Z ∧ (SGD 10 0 2%R (Some two_tests) start_state).1 = Raise ValueError.
Proof.
  split; [lia|].
  destruct (SGD_zero_batch_size_raises 10 2%R (Some two_tests) start_state
              ltac:(lia)) as [Hrun _].
  by rewrite Hrun.
Defined.

Lemma update_batch_mis_shaped_example_witness :
  wf_net (self start_state) 784 [30; 10] ∧
  ¬ (column 784 (np_zeros (F:=R) (Sh2 783 1)) ∧
     column (last_size 784 [30; 10]) (asvector 3)) ∧
  update_batch 2%R (three_examples ++ [(np_zeros (Sh2 783 1), asvector 3)]) start_state
  = (Raise (RuntimeError "Input array has wrong shape"), start_state).
Proof.
  split; [exact mnist_net_wf|].
  assert (¬ (column 784 (np_zeros (F:=R) (Sh2 783 1)) ∧
             column (last_size 784 [30; 10]) (asvector 3))) as Hbad
    by (intros [Hx _]; discriminate Hx).
  split; [exact Hbad|].
  exact (update_batch_mis_shaped_example 2%R three_examples []
           (np_zeros (Sh2 783 1)) (asvector 3) 784 [30; 10] start_state
           mnist_net_wf three_examples_shaped Hbad).
Defined.

Lemma evaluate_mis_shaped_image_witness :
  py_index (layersz mnist_net) 0 = Ok 784%Z ∧
  shape_tuple (shp (np_zeros (F:=R) (Sh2 783 1))) ≠ [784%Z; 1%Z] ∧
  evaluate mnist_net ((np_zeros (Sh2 783 1), 3%Z) :: two_tests)
  = Raise (RuntimeError "Input array has wrong shape - must be (784, 1)").
Proof.
  split; [reflexivity|]. split; [discriminate|].
  exact (evaluate_mis_shaped_image mnist_net 784 [] two_tests
           (np_zeros (Sh2 783 1)) 3 eq_refl (Forall_nil_2 _) ltac:(discriminate)).
Defined.

Lemma prediction_is_an_output_index_witness :
  wf_net mnist_net 784 [30; 10] ∧ valid_net mnist_net ∧
  column 784 blank_image ∧ valid blank_image ∧
  ∃ p, predicted mnist_net blank_image = Ok p ∧ (0 ≤ p < 10)%Z ∧
       is_correct mnist_net (blank_image, 10%Z) = false.
Proof.
  split; [exact mnist_net_wf|]. split; [exact mnist_net_valid|].
  split; [reflexivity|]. split; [apply valid_np_zeros|].
  destruct (prediction_is_an_output_index mnist_net 784 [30; 10] blank_image
              mnist_net_wf mnist_net_valid ltac:(discriminate) eq_refl
              (valid_np_zeros _))
    as (p & Hp & Hrange & Hwrong).
  exists p. split; [exact Hp|]. split; [exact Hrange|].
  apply Hwrong. cbn. lia.
Defined.

Lemma init_network_is_usable_witness :
  ∃ (net : Network R) (g' : nat),
    init [784; 30; 10]%Z 0 = (Ok net, g') ∧
    column 784 blank_image ∧ valid blank_image ∧ column 10 (asvector 3) ∧
    (∃ out p, feedforward net blank_image = Ok out ∧
              np_argmax out = Ok p ∧ (0 ≤ p < 10)%Z) ∧
    (∃ gb gw, backpropagate net blank_image (asvector 3) = Ok (gb, gw)).
Proof.
  destruct (init_ok (F:=R) [784; 30; 10]%Z 0 eq_refl eq_refl
              ltac:(repeat constructor; lia)) as (net & g' & Hinit).
  exists net, g'. split; [exact Hinit|]. split; [reflexivity|].
  split; [apply valid_np_zeros|]. split; [reflexivity|].
  destruct (init_network_is_usable [784; 30; 10]%Z 0 g' net blank_image (asvector 3)
              Hinit eq_refl (valid_np_zeros _) eq_refl)
    as [(out & p & Hff & _ & _ & Harg & Hp) (gb & gw & Hbp & _)].
  split; [exists out, p; split; [exact Hff|split; [exact Harg|exact Hp]]
        |exists gb, gw; exact Hbp].
Defined.

Lemma init_draws_parameters_in_order_witness :
  ∃ (net : Network R) (g' : nat),
    init [784; 30; 10]%Z 0 = (Ok net, g') ∧
    draws (parameter_count (biases net ++ weights net)) 0
    = (concat (data <$> biases net) ++ concat (data <$> weights net), g').
Proof.
  destruct (init_ok (F:=R) [784; 30; 10]%Z 0 eq_refl eq_refl
              ltac:(repeat constructor; lia)) as (net & g' & Hinit).
  exists net, g'. split; [exact Hinit|].
  exact (init_draws_parameters_in_order [784; 30; 10]%Z 0 g' net Hinit).
Defined.

Lemma backpropagate_is_the_gradient_of_the_cost_witness :
  wf_net mnist_net 784 [30; 10] ∧ valid_net mnist_net ∧
  column 784 blank_image ∧ valid blank_image ∧
  column (last_size 784 [30; 10]) (asvector 3) ∧ valid (asvector 3) ∧
  ∃ gb gw,
    backpropagate mnist_net blank_image (asvector 3) = Ok (gb, gw) ∧
    ∃ g dv, gb !! 1 = Some g ∧ data g !! 3 = Some dv ∧
            derivable_pt_lim
              (λ t, cost (with_bias mnist_net 1 3 t) blank_image (asvector 3)) 0 dv.
Proof.
  split; [exact mnist_net_wf|]. split; [exact mnist_net_valid|].
  split; [reflexivity|]. split; [apply valid_np_zeros|].
  split; [reflexivity|]. split; [apply asvector_valid; lia|].
  destruct (backpropagate_spec mnist_net 784 [30; 10] blank_image (asvector 3)
              mnist_net_wf eq_refl eq_refl) as (gb & gw & Hbp & _).
  exists gb, gw. split; [exact Hbp|].
  destruct (backpropagate_is_the_gradient_of_the_cost mnist_net 784 [30; 10]
              blank_image (asvector 3) gb gw mnist_net_wf mnist_net_valid
              eq_refl (valid_np_zeros _) eq_refl (asvector_valid 3 ltac:(lia)) Hbp)
    as [Hbias _].
  exact (Hbias 1 (np_zeros (Sh2 10 1)) 3 0%R eq_refl eq_refl).
Defined.

Lemma update_batch_is_gradient_descent_witness :
  wf_net (self start_state) 784 [30; 10] ∧ valid_net (self start_state) ∧
  three_examples ≠ [] ∧ Forall (differentiable_at 784 [30; 10]) three_examples ∧
  ∃ s' b' D,
    update_batch 2%R three_examples start_state = (Ok tt, s') ∧
    biases (self s') !! 1 = Some b' ∧
    data b' !! 3 = Some (0 - 2 * D)%R ∧
    derivable_pt_lim (λ t, batch_cost (with_bias mnist_net 1 3 t) three_examples) 0 D.
Proof.
  split; [exact mnist_net_wf|]. split; [exact mnist_net_valid|].
  split; [discriminate|]. split; [exact three_examples_differentiable|].
  destruct (update_batch_is_gradient_descent 2%R three_examples 784 [30; 10]
              start_state mnist_net_wf mnist_net_valid ltac:(discriminate)
              three_examples_differentiable) as (s' & Hrun & Hbias & _).
  destruct (Hbias 1 (np_zeros (Sh2 10 1)) 3 0%R eq_refl eq_refl)
    as (b' & D & Hb' & Hv & HD).
  exists s', b', D. split; [exact Hrun|]. split; [exact Hb'|].
  split; [exact Hv|exact HD].
Defined.

Lemma accuracy_cell_percentage_witness :
  wf_net mnist_net 784 [30; 10] ∧ valid_net mnist_net ∧
  Forall (testable 784) two_tests ∧
  accuracy_cell mnist_net [] = Raise ZeroDivisionError ∧
  ∃ nright pct,
    accuracy_cell mnist_net two_tests = Ok (nright, 2%Z, pct) ∧ (0 <= pct <= 100)%R.
Proof.
  split; [exact mnist_net_wf|]. split; [exact mnist_net_valid|].
  split; [exact two_tests_testable|].
  split.
  - destruct (accuracy_cell_percentage mnist_net 784 [30; 10] []
                mnist_net_wf mnist_net_valid ltac:(discriminate) (Forall_nil_2 _))
      as [Hempty _].
    by apply Hempty.
  - destruct (accuracy_cell_percentage mnist_net 784 [30; 10] two_tests
                mnist_net_wf mnist_net_valid ltac:(discriminate) two_tests_testable)
      as [_ Hsome].
    destruct Hsome as (nright & pct & Hcell & _ & _ & Hpct); [discriminate|].
    exists nright, pct. split; [exact Hcell|exact Hpct].
Defined.

Lemma notebook_runs_witness :
  shp (Data.images one_image_set) = Sh2 1 784 ∧
  valid (Data.images one_image_set) ∧
  Forall (λ j, -10 ≤ j < 10)%Z (Data.digits one_image_set) ∧
  ∃ (nright : Z) (pct : R) (s : sgd_state R nat),
    notebook (one_image_set, one_image_set, one_image_set) 0 = Ok (nright, 1%Z, pct, s) ∧
    length (stdout s) = 10.
Proof.
  split; [reflexivity|]. split; [apply valid_np_zeros|].
  assert (Forall (λ j, -10 ≤ j < 10)%Z (Data.digits one_image_set)) as Hd
    by (repeat constructor; lia).
  split; [exact Hd|].
  destruct (notebook_runs (F:=R) (G:=nat) one_image_set one_image_set one_image_set
              1 1 1 0 eq_refl eq_refl eq_refl (valid_np_zeros _) Hd
              ltac:(lia) ltac:(discriminate))
    as (nright & total & pct & s & counts & Hrun & -> & _ & Hlen & _ & Hout & _).
  exists nright, pct, s. split; [exact Hrun|].
  by rewrite Hout, length_imap.
Defined.

Lemma SGD_in_two_calls_witness :
  (0 ≤ 1)%Z ∧ (0 ≤ 2)%Z ∧
  self (SGD (1 + 2) 2 2%R (Some two_tests) start_state).2
  = self ((_ ← SGD 1 2 2%R (Some two_tests); SGD 2 2 2%R (Some two_tests)) start_state).2.
Proof.
  split; [lia|]. split; [lia|].
  destruct (SGD_in_two_calls 1 2 2 2%R (Some two_tests) start_state
              ltac:(lia) ltac:(lia)) as (_ & Hself & _).
  exact Hself.
Defined.

Lemma SGD_no_epochs_witness :
  (-1 ≤ 0)%Z ∧ SGD (-1) 0 2%R None start_state = (Ok tt, start_state).
Proof.
  split; [lia|].
  exact (SGD_no_epochs (-1) 0 2%R None start_state ltac:(lia)).
Defined.
